(** * miner_exporter: one polling cycle of the validator exporter

    A shallow embedding of [miner_exporter.py]: the metric registry the
    module declares at import time, the [stats] collection routine with its
    per-fetch failure boundaries, and the [__main__] polling loop.

    Modelling conventions.
    - A Prometheus metric family with labels is the finite map from its
      label-value tuple to the sample value, which is what
      [prometheus_client] keeps per family; [.labels(..)] creates the child
      with value 0 when it is new, [.set(v)] stores [float(v)], [.clear()]
      empties the map.
    - A Python [float] is an IEEE-754 binary64 number, described by
      [spec_float] with precision 53 and exponent bound 1024; sums and
      quotients are the correctly rounded ones of [SpecFloat]. A Python
      [int] is an unbounded integer. [float(n)] rounds to the nearest
      double and raises [OverflowError] when that double is infinite.
    - A number of a JSON answer is an [int] or a [float], or a text that
      does not spell a number, on which [float()] raises [ValueError].
    - The JSON-RPC client is an external service: its answers are given per
      call site by a [responses] record, each one either a value or the
      exception the call raised.
    - [stats] runs in a state-and-exception monad over the registry and a
      chronological trace of RPC calls, log lines and sleeps; what was
      written before an exception stays written, as in Python.

    The file has three parts: the program, the vocabulary its properties
    are stated in, and the lemmas and theorems. *)

From Stdlib Require Import QArith.
From Stdlib Require Import Floats.SpecFloat.
From stdpp Require Import base option list strings countable gmap fin_maps.

Local Open Scope string_scope.
Local Open Scope Z_scope.

Set Warnings "-clear-no-such-hyp".

(** ** Exceptions *)

Inductive exn : Set :=
  | ValueError
  | JSONDecodeError      (* a subclass of ValueError *)
  | IndexError
  | KeyError
  | AttributeError
  | TypeError
  | ZeroDivisionError
  | OverflowError
  | ConnectionError.

(** [isinstance(ex, ValueError)], the test of the driver's [except] clause. *)
Definition is_ValueError (e : exn) : bool :=
  match e with
  | ValueError | JSONDecodeError => true
  | _ => false
  end.

(** ** Python numbers *)

Abbreviation float := spec_float.

(** [x + y] and [x / y] on two floats (the divisor not zero), [0.0]. *)
Definition fadd (x y : float) : float := SFadd 53 1024 x y.
Definition fdiv (x y : float) : float := SFdiv 53 1024 x y.
Definition fzero : float := S754_zero false.

(** The double nearest to an integer, ties to even; infinite when the
    integer is beyond the range of the doubles. *)
Definition float_of_Z (z : Z) : float := binary_normalize 53 1024 z 0 false.

(** An integer as it stands, for the quotient of two integers, which
    Python rounds once. *)
Definition exact_of_Z (z : Z) : float :=
  match z with
  | Z0 => S754_zero false
  | Zpos p => S754_finite false p 0
  | Zneg p => S754_finite true p 0
  end.

Definition is_finite (x : float) : bool :=
  match x with
  | S754_zero _ | S754_finite _ _ _ => true
  | S754_infinity _ | S754_nan => false
  end.

(** [1.0e8], and [float(True)], [float(False)]. *)
Definition f1e8 : float := float_of_Z 100000000.
Definition float_of_bool (b : bool) : float := if b then float_of_Z 1 else fzero.

(** A number as the JSON decoder hands it over: an [int], a [float], or a
    text that is not the spelling of a number. *)
Inductive pyval : Type :=
  | PInt (z : Z)
  | PFloat (f : float)
  | PText.

(** [float(x)] *)
Definition py_float (x : pyval) : exn + float :=
  match x with
  | PInt z => if is_finite (float_of_Z z) then inr (float_of_Z z) else inl OverflowError
  | PFloat f => inr f
  | PText => inl ValueError
  end.

(** [x > 0] *)
Definition py_gt0 (x : pyval) : exn + bool :=
  match x with
  | PInt z => inr (0 <? z)
  | PFloat f => inr (SFltb fzero f)
  | PText => inl TypeError
  end.

(** [x + y]: exact on two ints, concatenation on two texts; an int meeting
    a float is converted first. *)
Definition py_add (x y : pyval) : exn + pyval :=
  match x, y with
  | PInt a, PInt b => inr (PInt (a + b))
  | PInt a, PFloat g =>
      match py_float (PInt a) with
      | inr f => inr (PFloat (fadd f g))
      | inl e => inl e
      end
  | PFloat f, PInt b =>
      match py_float (PInt b) with
      | inr g => inr (PFloat (fadd f g))
      | inl e => inl e
      end
  | PFloat f, PFloat g => inr (PFloat (fadd f g))
  | PText, PText => inr PText
  | _, _ => inl TypeError
  end.

(** [f / g] on two floats *)
Definition float_truediv (f g : float) : exn + float :=
  if SFeqb g fzero then inl ZeroDivisionError else inr (fdiv f g).

(** [x / y]: two ints give the correctly rounded quotient, or
    [OverflowError] when it is beyond the doubles; an int meeting a float
    is converted first, and the zero test comes after the conversions. *)
Definition py_truediv (x y : pyval) : exn + float :=
  match x, y with
  | PInt a, PInt b =>
      if b =? 0 then inl ZeroDivisionError
      else let q := fdiv (exact_of_Z a) (exact_of_Z b) in
           if is_finite q then inr q else inl OverflowError
  | PInt a, PFloat g =>
      match py_float (PInt a) with
      | inr f => float_truediv f g
      | inl e => inl e
      end
  | PFloat f, PInt b =>
      match py_float (PInt b) with
      | inr g => float_truediv f g
      | inl e => inl e
      end
  | PFloat f, PFloat g => float_truediv f g
  | _, _ => inl TypeError
  end.

(** [float(a) / float(b)] on two ints (lines 99-100): the left conversion,
    the right conversion, then the division. *)
Definition float_ratio (a b : Z) : exn + float :=
  match py_float (PInt a) with
  | inl e => inl e
  | inr u =>
      match py_float (PInt b) with
      | inl e => inl e
      | inr t => float_truediv u t
      end
  end.

(** ** Upstream data (section 3 of the data model, as the code reads it) *)

Record height_info := {
  height : pyval;
  sync_height : option pyval;
}.

Record ledger_entry := {
  le_address : string;
  le_name : string;
  le_owner_address : string;
  le_tenure_penalty : pyval;
  le_dkg_penalty : pyval;
  le_performance_penalty : pyval;
  le_total_penalty : pyval;
  le_last_heartbeat : pyval;
  le_status : string;
}.

Record consensus_member := {
  cm_address : string;
  cm_name : string;
  cm_penalty : pyval;
  cm_bba_completions : pyval;
  cm_seen_votes : pyval;
  cm_last_bba : pyval;
  cm_last_seen : pyval;
  cm_tenure : pyval;
}.

Record hbbft_perf := {
  blocks_since_epoch : pyval;
  max_seen : pyval;
  consensus_members : list consensus_member;
}.

Inductive session : Set := Session (remote : string).

Record peer_book_entry := {
  connection_count : pyval;
  sessions : list session;
}.

(** The answer of [ledger_balance]; only its ['balance'] entry is read. *)
Record balance_result := {
  balance : pyval;
}.

(** One [psutil.disk_usage('/')] reading. *)
Record disk_usage := {
  du_total : Z;
  du_used : Z;
  du_free : Z;
}.

(** The host readings of one cycle, one field per sampling call of lines
    96-101 (the disk is read four times). *)
Record host_sample := {
  cpu_percent : float;
  virtual_memory_percent : float;
  cpu_steal : float;
  disk_usage_1 : disk_usage;
  disk_usage_2 : disk_usage;
  disk_usage_3 : disk_usage;
  disk_usage_4 : disk_usage;
  process_count : nat;
}.

(** ** The JSON-RPC client, seen from one cycle *)

Inductive rpc_call : Set :=
  | CallAddr
  | CallName
  | CallInfoHeight
  | CallInConsensus
  | CallLedgerValidators (address : option string)
  | CallLedgerBalance (address : string)
  | CallVersion
  | CallBlockAge
  | CallHbbftPerf
  | CallPeerBookSelf.

Definition response (A : Type) : Type := exn + A.

Record responses := {
  resp_addr : response string;
  resp_name : response string;
  resp_info_height : response height_info;
  resp_in_consensus : response bool;
  resp_ledger_validators_1 : response (list ledger_entry);   (* line 121 *)
  resp_ledger_validators_2 : response (list ledger_entry);   (* line 124 *)
  resp_ledger_validator : string -> response ledger_entry;   (* line 126 *)
  resp_ledger_balance : string -> response balance_result;   (* line 138 *)
  resp_version : response string;
  resp_block_age : response pyval;
  resp_hbbft_perf : response hbbft_perf;
  resp_peer_book_self : response (list peer_book_entry);
  host : host_sample;
  elapsed : float;             (* what the SCRAPE_TIME timer measures *)
}.

(** ** Configuration (lines 22-30) *)

Record config := {
  UPDATE_PERIOD : Z;
  COLLECT_SYSTEM_USAGE : bool;
  ALL_HBBFT : bool;
  ALL_PENALTIES : bool;
  hostname : string;
}.

(** ** The metric registry (lines 33-67) *)

Inductive family : Set :=
  | CHAIN_STATS
  | VAL
  | INCON
  | BLOCKAGE
  | HEARTBEAT
  | HBBFT_PERF
  | CONNECTIONS
  | SESSIONS
  | LEDGER_PENALTY
  | BALANCE
  | SYSTEM_USAGE.

#[global] Instance family_eq_dec : EqDecision family.
Proof. solve_decision. Defined.

Definition family_code (f : family) : nat :=
  match f with
  | CHAIN_STATS => 0 | VAL => 1 | INCON => 2 | BLOCKAGE => 3 | HEARTBEAT => 4
  | HBBFT_PERF => 5 | CONNECTIONS => 6 | SESSIONS => 7 | LEDGER_PENALTY => 8
  | BALANCE => 9 | SYSTEM_USAGE => 10
  end%nat.

Definition family_of_code (n : nat) : family :=
  match n with
  | 0 => CHAIN_STATS | 1 => VAL | 2 => INCON | 3 => BLOCKAGE | 4 => HEARTBEAT
  | 5 => HBBFT_PERF | 6 => CONNECTIONS | 7 => SESSIONS | 8 => LEDGER_PENALTY
  | 9 => BALANCE | _ => SYSTEM_USAGE
  end%nat.

#[global] Instance family_countable : Countable family.
Proof. apply (inj_countable' family_code family_of_code). by intros []. Defined.

Abbreviation labels := (list string).
Abbreviation gauge := (gmap (list string) float).

(** A [Summary] without labels: number of observations and their sum. *)
Record summary := {
  sum_count : nat;
  sum_total : float;
}.

(** The gauge families by name (a family not yet written to has no
    samples), the version Info record and the scrape-time Summary. *)
Record registry := {
  gauge_map : gmap family gauge;
  VALIDATOR_VERSION : gmap (list string) string;   (* Info: the 'version' entry *)
  SCRAPE_TIME : summary;
}.

(** The samples of family [f]. *)
Definition gauges (r : registry) (f : family) : gauge :=
  default ∅ (gauge_map r !! f).

Definition empty_registry : registry :=
  {| gauge_map := ∅;
     VALIDATOR_VERSION := ∅;
     SCRAPE_TIME := {| sum_count := 0; sum_total := fzero |} |}.

(** The child [F.labels(l1, .., ln)] given the value [v]. *)
Definition gauge_set (f : family) (ls : labels) (v : float) (r : registry) : registry :=
  {| gauge_map := <[f := <[ls := v]> (gauges r f)]> (gauge_map r);
     VALIDATOR_VERSION := VALIDATOR_VERSION r;
     SCRAPE_TIME := SCRAPE_TIME r |}.

(** [F.clear()] *)
Definition gauge_clear (f : family) (r : registry) : registry :=
  {| gauge_map := <[f := ∅]> (gauge_map r);
     VALIDATOR_VERSION := VALIDATOR_VERSION r;
     SCRAPE_TIME := SCRAPE_TIME r |}.

(** [VALIDATOR_VERSION.labels(l1).info({'version': v})] *)
Definition info_set (ls : labels) (v : string) (r : registry) : registry :=
  {| gauge_map := gauge_map r;
     VALIDATOR_VERSION := <[ls := v]> (VALIDATOR_VERSION r);
     SCRAPE_TIME := SCRAPE_TIME r |}.

(** [SCRAPE_TIME.observe(d)] *)
Definition observe (d : float) (r : registry) : registry :=
  {| gauge_map := gauge_map r;
     VALIDATOR_VERSION := VALIDATOR_VERSION r;
     SCRAPE_TIME := {| sum_count := S (sum_count (SCRAPE_TIME r));
                       sum_total := fadd (sum_total (SCRAPE_TIME r)) d |} |}.

(** ** Program state and the monad *)

(** What the process does that is visible outside the registry. *)
Inductive event : Type :=
  | Rpc (c : rpc_call)
  | LogError (msg : string)
  | Sleep (seconds : Z).

Record state := {
  reg : registry;
  trace : list event;          (* oldest first *)
}.

(** A computation returns a value or raises, and leaves a state either way. *)
Definition M (A : Type) : Type := state -> (exn + A) * state.

#[global] Instance M_ret : MRet M := fun A a s => (inr a, s).

#[global] Instance M_bind : MBind M := fun A B k m s =>
  match m s with
  | (inr a, s') => k a s'
  | (inl e, s') => (inl e, s')
  end.

(** [raise e] *)
Definition raise {A} (e : exn) : M A := fun s => (inl e, s).

(** A value or an exception of an expression that touches no state. *)
Definition lift {A} (r : exn + A) : M A := fun s => (r, s).

(** Append an event to the trace. *)
Definition emit (ev : event) : M unit :=
  fun s => (inr tt, {| reg := reg s; trace := trace s ++ [ev] |}).

(** Mutate the registry. *)
Definition update (f : registry -> registry) : M unit :=
  fun s => (inr tt, {| reg := f (reg s); trace := trace s |}).

(** [log.error(msg)] *)
Definition log_error (msg : string) : M unit := emit (LogError msg).

(** One call of a client method: recorded, then its answer or its exception. *)
Definition rpc {A} (c : rpc_call) (r : response A) : M A :=
  emit (Rpc c);;
  match r with
  | inr a => mret a
  | inl e => raise e
  end.

(** [try: body  except: handler] with a bare [except]. *)
Definition try_except {A} (body : M A) (handler : M A) : M A :=
  fun s => match body s with
           | (inr a, s') => (inr a, s')
           | (inl _, s') => handler s'
           end.

(** The bare [try: x = f()  except: log.error(msg)] around a fetch whose
    variable was initialised to [None]. *)
Definition soft_fetch {A} (c : rpc_call) (r : response A) (msg : string) : M (option A) :=
  try_except (v ← rpc c r; mret (Some v)) (log_error msg;; mret None).

(** [for x in xs: body(x)] *)
Fixpoint for_each {A} (xs : list A) (body : A -> M unit) : M unit :=
  match xs with
  | [] => mret tt
  | x :: xs' => body x;; for_each xs' body
  end.

(** [xs[i]] on a Python list, non-negative index. *)
Definition getitem {A} (xs : list A) (i : nat) : M A :=
  match xs !! i with
  | Some x => mret x
  | None => raise IndexError
  end.

(** [F.labels(l1, .., ln)] alone: the child is created with value 0 when it
    does not exist yet. Python evaluates [F.labels(..).set] before the
    argument of the call, and [set] converts the argument before it
    stores. *)
Definition gauge_labels (f : family) (ls : labels) (r : registry) : registry :=
  match gauges r f !! ls with
  | Some _ => r
  | None => gauge_set f ls fzero r
  end.

(** [F.labels(l1, .., ln).set(x)] for a value [x] already at hand. *)
Definition gauge_set_py (f : family) (ls : labels) (x : pyval) : M unit :=
  update (gauge_labels f ls);;
  v ← lift (py_float x);
  update (gauge_set f ls v).

(** ** Python dictionaries keyed by strings: insertion-ordered, unique keys *)

Abbreviation pydict V := (list (string * V)).

Fixpoint dict_setitem {V} (k : string) (v : V) (d : pydict V) : pydict V :=
  match d with
  | [] => [(k, v)]
  | (k', v') :: d' =>
      if decide (k' = k) then (k, v) :: d' else (k', v') :: dict_setitem k v d'
  end.

Fixpoint dict_get {V} (k : string) (d : pydict V) : option V :=
  match d with
  | [] => None
  | (k', v') :: d' => if decide (k' = k) then Some v' else dict_get k d'
  end.

Definition dict_values {V} (d : pydict V) : list V := d.*2.
Definition dict_keys {V} (d : pydict V) : list string := d.*1.

(** [{v['address']: v for v in vs if v['status'] == 'staked'}] (line 124) *)
Definition staked_by_address (vs : list ledger_entry) : pydict ledger_entry :=
  foldl (fun d v => if decide (le_status v = "staked")
                    then dict_setitem (le_address v) v d else d) [] vs.

(** What the local variable [penalty_ledger] can hold after lines 118-129. *)
Inductive pyledger : Type :=
  | PLNone
  | PLDict (d : pydict ledger_entry)
  | PLList (vs : list ledger_entry).

(** The local variables phase 3 reads. *)
Record locals := {
  height_info_ : option height_info;
  in_consensus_ : option bool;
  penalty_ledger_ : pyledger;
  owner_ : option string;
  balance_ : option float;
  version_ : option string;
  block_age_ : option pyval;
  hbbft_perf_ : option hbbft_perf;
  peer_book_info_ : option (list peer_book_entry);
}.

Section Stats.

Variable cfg : config.
Variable env : responses.

(** Lines 93-101. *)
Definition collect_system_usage : M unit :=
  let h := host env in
  let hn := hostname cfg in
  update (gauge_set SYSTEM_USAGE ["CPU"; hn] (cpu_percent h));;
  update (gauge_set SYSTEM_USAGE ["Memory"; hn] (virtual_memory_percent h));;
  update (gauge_set SYSTEM_USAGE ["CPU-Steal"; hn] (cpu_steal h));;
  update (gauge_labels SYSTEM_USAGE ["Disk Used"; hn]);;
  used ← lift (float_ratio (du_used (disk_usage_1 h)) (du_total (disk_usage_2 h)));
  update (gauge_set SYSTEM_USAGE ["Disk Used"; hn] used);;
  update (gauge_labels SYSTEM_USAGE ["Disk Free"; hn]);;
  free ← lift (float_ratio (du_free (disk_usage_3 h)) (du_total (disk_usage_4 h)));
  update (gauge_set SYSTEM_USAGE ["Disk Free"; hn] free);;
  gauge_set_py SYSTEM_USAGE ["Process-Count"; hn] (PInt (Z.of_nat (process_count h))).

(** Lines 118-129. In the all-validators mode the ledger is fetched twice;
    the first answer is bound to the variable before the second call runs. *)
Definition fetch_penalty_ledger (addr : string) : M pyledger :=
  if ALL_PENALTIES cfg then
    r1 ← soft_fetch (CallLedgerValidators None) (resp_ledger_validators_1 env)
                    "validator fetch failure";
    match r1 with
    | None => mret PLNone
    | Some vs1 =>
        try_except
          (vs2 ← rpc (CallLedgerValidators None) (resp_ledger_validators_2 env);
           mret (PLDict (staked_by_address vs2)))
          (log_error "validator fetch failure";; mret (PLList vs1))
    end
  else
    try_except
      (v ← rpc (CallLedgerValidators (Some addr)) (resp_ledger_validator env addr);
       mret (PLDict [(addr, v)]))
      (log_error "validator fetch failure";; mret PLNone).

(** Lines 131-133. [addr in penalty_ledger] on a list compares the string
    with each dictionary and is false. *)
Definition lookup_owner (addr : string) (pl : pyledger) : option string :=
  match pl with
  | PLDict d => le_owner_address <$> dict_get addr d
  | PLList _ => None
  | PLNone => None
  end.

(** Lines 135-141. The division is inside the [try]. *)
Definition fetch_balance (owner : option string) : M (option float) :=
  match owner with
  | None => mret None
  | Some o =>
      try_except
        (balance_result ← rpc (CallLedgerBalance o) (resp_ledger_balance env o);
         b ← lift (py_truediv (balance balance_result) (PFloat f1e8));
         mret (Some b))
        (log_error "owner balance fetch failure";; mret None)
  end.

(** Lines 106-165: phase 2. *)
Definition fetch_all (addr : string) : M locals :=
  height_info ← soft_fetch CallInfoHeight (resp_info_height env) "chain height fetch failure";
  in_consensus ← soft_fetch CallInConsensus (resp_in_consensus env) "in consensus fetch failure";
  penalty_ledger ← fetch_penalty_ledger addr;
  let owner := lookup_owner addr penalty_ledger in
  balance ← fetch_balance owner;
  version ← soft_fetch CallVersion (resp_version env) "version fetch error";
  block_age ← soft_fetch CallBlockAge (resp_block_age env) "block age fetch failure";
  hbbft_perf ← soft_fetch CallHbbftPerf (resp_hbbft_perf env) "hbbft perf fetch failure";
  peer_book_info ← soft_fetch CallPeerBookSelf (resp_peer_book_self env) "peer book self fetch failure";
  mret {| height_info_ := height_info; in_consensus_ := in_consensus;
          penalty_ledger_ := penalty_ledger; owner_ := owner; balance_ := balance;
          version_ := version; block_age_ := block_age; hbbft_perf_ := hbbft_perf;
          peer_book_info_ := peer_book_info |}.

(** Lines 171-178. *)
Definition publish_height (name : string) (hi : option height_info) : M unit :=
  match hi with
  | None => mret tt
  | Some i =>
      let chain_height := height i in
      let val_height := default chain_height (sync_height i) in
      gauge_set_py VAL ["Height"; name] val_height;;
      gauge_set_py CHAIN_STATS ["Height"] chain_height
  end.

(** Lines 180-190. *)
Definition publish_in_consensus (name : string) (ic : option bool) : M unit :=
  match ic with
  | None => mret tt
  | Some b => update (gauge_set INCON [name] (float_of_bool b))
  end.

Definition publish_balance (name : string) (bal : option float) : M unit :=
  match bal with
  | None => mret tt
  | Some b => update (gauge_set BALANCE [name] b)
  end.

Definition publish_block_age (name : string) (age : option pyval) : M unit :=
  match age with
  | None => mret tt
  | Some a => gauge_set_py BLOCKAGE [name] a
  end.

Definition publish_version (name : string) (ver : option string) : M unit :=
  match ver with
  | None => mret tt
  | Some v => update (info_set [name] v)
  end.

(** Lines 197-203: the body of the ledger loop. *)
Definition publish_ledger_entry (e : ledger_entry) : M unit :=
  let n := le_name e in
  let a := le_address e in
  gauge_set_py LEDGER_PENALTY ["ledger_penalties"; "tenure"; n; a] (le_tenure_penalty e);;
  gauge_set_py LEDGER_PENALTY ["ledger_penalties"; "dkg"; n; a] (le_dkg_penalty e);;
  gauge_set_py LEDGER_PENALTY ["ledger_penalties"; "performance"; n; a]
               (le_performance_penalty e);;
  gauge_set_py LEDGER_PENALTY ["ledger_penalties"; "total"; n; a] (le_total_penalty e);;
  positive ← lift (py_gt0 (le_tenure_penalty e));
  (if positive : bool then
     update (gauge_labels LEDGER_PENALTY ["ledger_penalties"; "perf_tenure_ratio"; n; a]);;
     total ← lift (py_add (le_performance_penalty e) (le_dkg_penalty e));
     ratio ← lift (py_truediv total (le_tenure_penalty e));
     update (gauge_set LEDGER_PENALTY ["ledger_penalties"; "perf_tenure_ratio"; n; a] ratio)
   else mret tt);;
  gauge_set_py HEARTBEAT [n; a] (le_last_heartbeat e).

(** Lines 192-203. [.items()] exists on a dictionary only. *)
Definition publish_ledger (pl : pyledger) : M unit :=
  match pl with
  | PLNone => mret tt
  | PLDict d =>
      update (gauge_clear LEDGER_PENALTY);;
      for_each (dict_values d) publish_ledger_entry
  | PLList _ =>
      update (gauge_clear LEDGER_PENALTY);;
      raise AttributeError
  end.

(** Lines 214-222: the body of the member loop. *)
Definition publish_member (addr : string) (bba_tot seen_tot : pyval) (m : consensus_member)
    : M unit :=
  if bool_decide (cm_address m = addr) || ALL_HBBFT cfg then
    let n := cm_name m in
    gauge_set_py HBBFT_PERF ["hbbft_perf"; "Penalty"; n] (cm_penalty m);;
    gauge_set_py HBBFT_PERF ["hbbft_perf"; "BBA_Total"; n] bba_tot;;
    gauge_set_py HBBFT_PERF ["hbbft_perf"; "BBA_Votes"; n] (cm_bba_completions m);;
    gauge_set_py HBBFT_PERF ["hbbft_perf"; "Seen_Total"; n] seen_tot;;
    gauge_set_py HBBFT_PERF ["hbbft_perf"; "Seen_Votes"; n] (cm_seen_votes m);;
    gauge_set_py HBBFT_PERF ["hbbft_perf"; "BBA_Last"; n] (cm_last_bba m);;
    gauge_set_py HBBFT_PERF ["hbbft_perf"; "Seen_Last"; n] (cm_last_seen m);;
    gauge_set_py HBBFT_PERF ["hbbft_perf"; "Tenure"; n] (cm_tenure m)
  else mret tt.

(** Lines 205-222. *)
Definition publish_hbbft (addr : string) (hp : option hbbft_perf) : M unit :=
  match hp with
  | None => mret tt
  | Some p =>
      update (gauge_clear HBBFT_PERF);;
      let bba_tot := blocks_since_epoch p in
      let seen_tot := max_seen p in
      for_each (consensus_members p) (publish_member addr bba_tot seen_tot)
  end.

(** Lines 224-228. *)
Definition publish_peer_book (name : string) (pb : option (list peer_book_entry)) : M unit :=
  match pb with
  | None => mret tt
  | Some entries =>
      e0 ← getitem entries 0;
      let connections := connection_count e0 in
      gauge_set_py CONNECTIONS ["connections"; name] connections;;
      e0' ← getitem entries 0;
      let sessions_ := length (sessions e0') in
      gauge_set_py SESSIONS ["sessions"; name] (PInt (Z.of_nat sessions_))
  end.

(** Lines 171-228: phase 3. *)
Definition publish_all (addr name : string) (l : locals) : M unit :=
  publish_height name (height_info_ l);;
  publish_in_consensus name (in_consensus_ l);;
  publish_balance name (balance_ l);;
  publish_block_age name (block_age_ l);;
  publish_version name (version_ l);;
  publish_ledger (penalty_ledger_ l);;
  publish_hbbft addr (hbbft_perf_ l);;
  publish_peer_book name (peer_book_info_ l).

(** Lines 75-228: the body of [stats]. *)
Definition stats_body : M unit :=
  r_addr ← soft_fetch CallAddr (resp_addr env) "can't get validator's address";
  match r_addr with
  | None => mret tt
  | Some addr =>
      r_name ← soft_fetch CallName (resp_name env) "can't get validator's name";
      match r_name with
      | None => mret tt
      | Some name =>
          (if COLLECT_SYSTEM_USAGE cfg then collect_system_usage else mret tt);;
          l ← fetch_all addr;
          publish_all addr name l
      end
  end.

(** [@SCRAPE_TIME.time()]: the duration is observed when the body is left,
    by return or by exception. *)
Definition timed {A} (d : float) (body : M A) : M A :=
  fun s => match body s with
           | (r, s') => (r, {| reg := observe d (reg s'); trace := trace s' |})
           end.

(** Lines 73-228. *)
Definition stats : M unit := timed (elapsed env) stats_body.

End Stats.

(** ** The driver (lines 234-242) *)

(** [try: body  except ValueError as ex: handler(ex)] *)
Definition try_except_ValueError {A} (body : M A) (handler : exn -> M A) : M A :=
  fun s => match body s with
           | (inr a, s') => (inr a, s')
           | (inl e, s') => if is_ValueError e then handler e s' else (inl e, s')
           end.

(** [time.sleep(secs)]: a negative length is refused with [ValueError]. *)
Definition sleep (secs : Z) : M unit :=
  if secs <? 0 then raise ValueError else emit (Sleep secs).

(** One turn of [while True]; [cycle] is the call [stats(miner)]. The sleep
    is outside the [try]. *)
Definition loop_iteration (cfg : config) (cycle : M unit) : M unit :=
  try_except_ValueError cycle (fun ex => log_error "stats loop failed.");;
  sleep (UPDATE_PERIOD cfg).

(** The first [length cycles] turns of the loop. An [inl e] result is the
    process terminated by the uncaught exception [e]. *)
Fixpoint main_loop (cfg : config) (cycles : list (M unit)) : M unit :=
  match cycles with
  | [] => mret tt
  | c :: cs => loop_iteration cfg c;; main_loop cfg cs
  end.

Definition run_exporter (cfg : config) (envs : list responses) : M unit :=
  main_loop cfg (map (stats cfg) envs).

(** ** The boolean options (lines 25-30) *)

(** [c.lower()] on one character: the ASCII capitals move to their small
    letters. Strings are byte strings here; bytes outside ASCII are left
    alone, and no character outside ASCII lowers to a character of the
    accepted words, so the value of a flag is the one Python computes. *)
Definition ascii_lower (a : Ascii.ascii) : Ascii.ascii :=
  let n := Ascii.nat_of_ascii a in
  if ((65 <=? n) && (n <=? 90))%nat then Ascii.ascii_of_nat (n + 32) else a.

(** [s.lower()] *)
Fixpoint str_lower (s : string) : string :=
  match s with
  | EmptyString => EmptyString
  | String a s' => String (ascii_lower a) (str_lower s')
  end.

(** [os.environ.get(key, dflt)] *)
Definition environ_get (environ : gmap string string) (key dflt : string) : string :=
  default dflt (environ !! key).

(** [os.environ.get(key, "").lower() in ("true", "t", "1", "y", "yes")] *)
Definition env_flag (environ : gmap string string) (key : string) : bool :=
  bool_decide (str_lower (environ_get environ key "") ∈ ["true"; "t"; "1"; "y"; "yes"]).

(** The three flags of lines 25, 29 and 30 read from the environment; the
    poll period and the host name are taken as given. *)
Definition config_of_environ (environ : gmap string string) (period : Z) (host_name : string)
    : config :=
  {| UPDATE_PERIOD := period;
     COLLECT_SYSTEM_USAGE := env_flag environ "COLLECT_SYSTEM_USAGE";
     ALL_HBBFT := env_flag environ "ALL_HBBFT";
     ALL_PENALTIES := env_flag environ "ALL_PENALTIES";
     hostname := host_name |}.

(** * Vocabulary of the verification

    Nothing below is part of the program: these are the notions the
    statements about it are phrased in. *)

(** ** States, answers and registry writes *)

(** The state with its registry replaced, and with events appended. *)
Definition put_reg (r : registry) (s : state) : state :=
  {| reg := r; trace := trace s |}.

Definition log_events (evs : list event) (s : state) : state :=
  {| reg := reg s; trace := trace s ++ evs |}.

(** What a fetch leaves in its variable: the value, or [None]. *)
Definition fetched_value {A} (r : response A) : option A :=
  match r with
  | inr a => Some a
  | inl _ => None
  end.

(** What a fetch leaves in the trace: the call, and the error line on failure. *)
Definition fetch_events {A} (c : rpc_call) (r : response A) (msg : string) : list event :=
  match r with
  | inr _ => [Rpc c]
  | inl _ => [Rpc c; LogError msg]
  end.

(** Everything [stats] does to the registry is a sequence of four kinds of
    writes. A block of the routine is characterised by the writes it
    performs; a family is then followed through a sequence of writes as a
    finite map. *)
Inductive write : Type :=
  | WSet (f : family) (ls : labels) (v : float)
  | WLabels (f : family) (ls : labels)
  | WClear (f : family)
  | WInfo (ls : labels) (v : string).

(** A write, and a sequence of writes, carried out on the registry. *)
Definition apply_write (r : registry) (w : write) : registry :=
  match w with
  | WSet f ls v => gauge_set f ls v r
  | WLabels f ls => gauge_labels f ls r
  | WClear f => gauge_clear f r
  | WInfo ls v => info_set ls v r
  end.

Definition apply_writes (ws : list write) (r : registry) : registry :=
  foldl apply_write r ws.

(** The effect of one write on the samples of family [f]. *)
Definition write_family (f : family) (g : gauge) (w : write) : gauge :=
  match w with
  | WSet f' ls v => if decide (f' = f) then <[ls := v]> g else g
  | WLabels f' ls =>
      if decide (f' = f)
      then match g !! ls with Some _ => g | None => <[ls := fzero]> g end
      else g
  | WClear f' => if decide (f' = f) then ∅ else g
  | WInfo _ _ => g
  end.

(** The effect of one write on the version record. *)
Definition write_info (i : gmap (list string) string) (w : write) : gmap (list string) string :=
  match w with
  | WInfo ls v => <[ls := v]> i
  | _ => i
  end.

(** The family a write goes to; [None] for the version record. *)
Definition write_target (w : write) : option family :=
  match w with
  | WSet f _ _ | WLabels f _ | WClear f => Some f
  | WInfo _ _ => None
  end.

(** ** Numbers a gauge can take *)

(** [float(x)] succeeds: [x] is a number, and an int among them is within
    the range of the doubles. *)
Definition fits (x : pyval) : bool :=
  match x with
  | PInt z => is_finite (float_of_Z z)
  | PFloat _ => true
  | PText => false
  end.

(** The float a number that fits is stored as. *)
Definition float_val (x : pyval) : float :=
  match x with
  | PInt z => float_of_Z z
  | PFloat f => f
  | PText => S754_nan
  end.

(** [x > 0] holds. *)
Definition gt0 (x : pyval) : bool :=
  match x with
  | PInt z => 0 <? z
  | PFloat f => SFltb fzero f
  | PText => false
  end.

(** The quotient of the floats of two integers. *)
Definition float_quot (a b : Z) : float := fdiv (float_of_Z a) (float_of_Z b).

(** The rational a finite float stands for. *)
Definition Q_of_float (x : float) : Q :=
  match x with
  | S754_finite s m e =>
      let n := if s then Zneg m else Zpos m in
      match e with
      | Z0 => inject_Z n
      | Zpos k => inject_Z (n * 2 ^ Zpos k)
      | Zneg k => (n # Pos.pow 2 k)%Q
      end
  | _ => 0%Q
  end.

(** ** Blocks: the writes a piece of code performs until it raises *)

Definition block : Type := list write * option exn.

Definition outcome (o : option exn) : exn + unit :=
  match o with
  | Some e => inl e
  | None => inr tt
  end.

(** [b1] then [b2]: [b2] runs when [b1] did not raise. *)
Definition block_seq (b1 b2 : block) : block :=
  match b1.2 with
  | Some _ => b1
  | None => ((b1.1 ++ b2.1)%list, b2.2)
  end.

Definition block_all (bs : list block) : block :=
  foldr block_seq ([], None) bs.

(** [F.labels(ls).set(x)]: the sample is set when [x] converts; otherwise
    the child has been created and the conversion error leaves. *)
Definition set_block (f : family) (ls : labels) (x : pyval) : block :=
  match py_float x with
  | inr v => ([WSet f ls v], None)
  | inl e => ([WLabels f ls], Some e)
  end.

(** [F.labels(ls).set(expr)] where [expr] is computed after the child was
    looked up. *)
Definition compute_block (f : family) (ls : labels) (r : exn + float) : block :=
  match r with
  | inr v => ([WLabels f ls; WSet f ls v], None)
  | inl e => ([WLabels f ls], Some e)
  end.

(** A computation that does what block [b] says, from any state. *)
Definition runs_as (m : M unit) (b : block) : Prop :=
  forall s, m s = (outcome b.2, put_reg (apply_writes b.1 (reg s)) s).

(** ** What the host-usage block writes; what phase 2 leaves in the locals and in the trace *)

Section Run.

Variable cfg : config.
Variable env : responses.

(** The integers of lines 99-101 are within the range of the doubles. *)
Definition host_numeric : bool :=
  fits (PInt (du_used (disk_usage_1 (host env)))) &&
  fits (PInt (du_total (disk_usage_2 (host env)))) &&
  fits (PInt (du_free (disk_usage_3 (host env)))) &&
  fits (PInt (du_total (disk_usage_4 (host env)))) &&
  fits (PInt (Z.of_nat (process_count (host env)))).

(** The two divisions of lines 99-100 have a non-zero divisor. *)
Definition host_divides : bool :=
  negb (du_total (disk_usage_2 (host env)) =? 0) &&
  negb (du_total (disk_usage_4 (host env)) =? 0).

Definition system_usage_writes : list write :=
  let h := host env in
  let hn := hostname cfg in
  [ WSet SYSTEM_USAGE ["CPU"; hn] (cpu_percent h);
    WSet SYSTEM_USAGE ["Memory"; hn] (virtual_memory_percent h);
    WSet SYSTEM_USAGE ["CPU-Steal"; hn] (cpu_steal h);
    WLabels SYSTEM_USAGE ["Disk Used"; hn];
    WSet SYSTEM_USAGE ["Disk Used"; hn]
         (float_quot (du_used (disk_usage_1 h)) (du_total (disk_usage_2 h)));
    WLabels SYSTEM_USAGE ["Disk Free"; hn];
    WSet SYSTEM_USAGE ["Disk Free"; hn]
         (float_quot (du_free (disk_usage_3 h)) (du_total (disk_usage_4 h)));
    WSet SYSTEM_USAGE ["Process-Count"; hn] (float_of_Z (Z.of_nat (process_count h))) ].

(** The block in general: the readings may not convert or not divide. *)
Definition system_usage_block : block :=
  let h := host env in
  let hn := hostname cfg in
  block_all
    [ ([ WSet SYSTEM_USAGE ["CPU"; hn] (cpu_percent h);
         WSet SYSTEM_USAGE ["Memory"; hn] (virtual_memory_percent h);
         WSet SYSTEM_USAGE ["CPU-Steal"; hn] (cpu_steal h) ], None);
      compute_block SYSTEM_USAGE ["Disk Used"; hn]
        (float_ratio (du_used (disk_usage_1 h)) (du_total (disk_usage_2 h)));
      compute_block SYSTEM_USAGE ["Disk Free"; hn]
        (float_ratio (du_free (disk_usage_3 h)) (du_total (disk_usage_4 h)));
      set_block SYSTEM_USAGE ["Process-Count"; hn] (PInt (Z.of_nat (process_count h))) ].

Definition penalty_ledger_value (addr : string) : pyledger :=
  if ALL_PENALTIES cfg then
    match resp_ledger_validators_1 env with
    | inl _ => PLNone
    | inr vs1 =>
        match resp_ledger_validators_2 env with
        | inl _ => PLList vs1
        | inr vs2 => PLDict (staked_by_address vs2)
        end
    end
  else
    match resp_ledger_validator env addr with
    | inl _ => PLNone
    | inr v => PLDict [(addr, v)]
    end.

Definition penalty_ledger_events (addr : string) : list event :=
  if ALL_PENALTIES cfg then
    match resp_ledger_validators_1 env with
    | inl _ => [Rpc (CallLedgerValidators None); LogError "validator fetch failure"]
    | inr _ =>
        Rpc (CallLedgerValidators None) ::
        fetch_events (CallLedgerValidators None) (resp_ledger_validators_2 env)
                     "validator fetch failure"
    end
  else
    fetch_events (CallLedgerValidators (Some addr)) (resp_ledger_validator env addr)
                 "validator fetch failure".

(** What the [try] of lines 137-139 yields for owner [o]: the quotient, or
    the exception of the call or of the division. *)
Definition balance_answer (o : string) : response float :=
  match resp_ledger_balance env o with
  | inl e => inl e
  | inr raw => py_truediv (balance raw) (PFloat f1e8)
  end.

Definition balance_value (owner : option string) : option float :=
  match owner with
  | None => None
  | Some o => fetched_value (balance_answer o)
  end.

Definition balance_events (owner : option string) : list event :=
  match owner with
  | None => []
  | Some o => fetch_events (CallLedgerBalance o) (balance_answer o)
                           "owner balance fetch failure"
  end.

(** The locals at the end of phase 2, each a function of its own answer. *)
Definition fetched (addr : string) : locals :=
  let pl := penalty_ledger_value addr in
  let owner := lookup_owner addr pl in
  {| height_info_ := fetched_value (resp_info_height env);
     in_consensus_ := fetched_value (resp_in_consensus env);
     penalty_ledger_ := pl;
     owner_ := owner;
     balance_ := balance_value owner;
     version_ := fetched_value (resp_version env);
     block_age_ := fetched_value (resp_block_age env);
     hbbft_perf_ := fetched_value (resp_hbbft_perf env);
     peer_book_info_ := fetched_value (resp_peer_book_self env) |}.

Definition fetch_all_events (addr : string) : list event :=
  fetch_events CallInfoHeight (resp_info_height env) "chain height fetch failure" ++
  fetch_events CallInConsensus (resp_in_consensus env) "in consensus fetch failure" ++
  penalty_ledger_events addr ++
  balance_events (lookup_owner addr (penalty_ledger_value addr)) ++
  fetch_events CallVersion (resp_version env) "version fetch error" ++
  fetch_events CallBlockAge (resp_block_age env) "block age fetch failure" ++
  fetch_events CallHbbftPerf (resp_hbbft_perf env) "hbbft perf fetch failure" ++
  fetch_events CallPeerBookSelf (resp_peer_book_self env) "peer book self fetch failure".

End Run.

(** ** What phase 3 writes *)

Section Publish.

Variable cfg : config.

(** *** When every number converts *)

Definition height_writes (name : string) (hi : option height_info) : list write :=
  match hi with
  | None => []
  | Some i =>
      [ WSet VAL ["Height"; name] (float_val (default (height i) (sync_height i)));
        WSet CHAIN_STATS ["Height"] (float_val (height i)) ]
  end.

Definition in_consensus_writes (name : string) (ic : option bool) : list write :=
  match ic with
  | None => []
  | Some b => [WSet INCON [name] (float_of_bool b)]
  end.

Definition balance_writes (name : string) (bal : option float) : list write :=
  match bal with
  | None => []
  | Some b => [WSet BALANCE [name] b]
  end.

Definition block_age_writes (name : string) (age : option pyval) : list write :=
  match age with
  | None => []
  | Some a => [WSet BLOCKAGE [name] (float_val a)]
  end.

Definition version_writes (name : string) (ver : option string) : list write :=
  match ver with
  | None => []
  | Some v => [WInfo [name] v]
  end.

Definition ratio_labels (e : ledger_entry) : labels :=
  ["ledger_penalties"; "perf_tenure_ratio"; le_name e; le_address e].

(** The argument of [.set] at line 202, as Python evaluates it. *)
Definition ratio_of (e : ledger_entry) : exn + float :=
  match py_add (le_performance_penalty e) (le_dkg_penalty e) with
  | inl x => inl x
  | inr total => py_truediv total (le_tenure_penalty e)
  end.

Definition ratio_val (e : ledger_entry) : float :=
  match ratio_of e with
  | inr v => v
  | inl _ => S754_nan
  end.

Definition ledger_entry_writes (e : ledger_entry) : list write :=
  let n := le_name e in
  let a := le_address e in
  [ WSet LEDGER_PENALTY ["ledger_penalties"; "tenure"; n; a] (float_val (le_tenure_penalty e));
    WSet LEDGER_PENALTY ["ledger_penalties"; "dkg"; n; a] (float_val (le_dkg_penalty e));
    WSet LEDGER_PENALTY ["ledger_penalties"; "performance"; n; a]
         (float_val (le_performance_penalty e));
    WSet LEDGER_PENALTY ["ledger_penalties"; "total"; n; a] (float_val (le_total_penalty e)) ] ++
  (if gt0 (le_tenure_penalty e)
   then [ WLabels LEDGER_PENALTY (ratio_labels e);
          WSet LEDGER_PENALTY (ratio_labels e) (ratio_val e) ]
   else []) ++
  [ WSet HEARTBEAT [n; a] (float_val (le_last_heartbeat e)) ].

Definition ledger_writes (pl : pyledger) : list write :=
  match pl with
  | PLNone => []
  | PLDict d => WClear LEDGER_PENALTY :: concat (map ledger_entry_writes (dict_values d))
  | PLList _ => [WClear LEDGER_PENALTY]
  end.

Definition ledger_raises (pl : pyledger) : option exn :=
  match pl with
  | PLList _ => Some AttributeError
  | _ => None
  end.

Definition member_selected (addr : string) (m : consensus_member) : bool :=
  bool_decide (cm_address m = addr) || ALL_HBBFT cfg.

Definition member_writes (addr : string) (bba_tot seen_tot : pyval) (m : consensus_member)
    : list write :=
  if member_selected addr m then
    let n := cm_name m in
    [ WSet HBBFT_PERF ["hbbft_perf"; "Penalty"; n] (float_val (cm_penalty m));
      WSet HBBFT_PERF ["hbbft_perf"; "BBA_Total"; n] (float_val bba_tot);
      WSet HBBFT_PERF ["hbbft_perf"; "BBA_Votes"; n] (float_val (cm_bba_completions m));
      WSet HBBFT_PERF ["hbbft_perf"; "Seen_Total"; n] (float_val seen_tot);
      WSet HBBFT_PERF ["hbbft_perf"; "Seen_Votes"; n] (float_val (cm_seen_votes m));
      WSet HBBFT_PERF ["hbbft_perf"; "BBA_Last"; n] (float_val (cm_last_bba m));
      WSet HBBFT_PERF ["hbbft_perf"; "Seen_Last"; n] (float_val (cm_last_seen m));
      WSet HBBFT_PERF ["hbbft_perf"; "Tenure"; n] (float_val (cm_tenure m)) ]
  else [].

Definition hbbft_writes (addr : string) (hp : option hbbft_perf) : list write :=
  match hp with
  | None => []
  | Some p =>
      WClear HBBFT_PERF ::
      concat (map (member_writes addr (blocks_since_epoch p) (max_seen p)) (consensus_members p))
  end.

Definition peer_book_writes (name : string) (pb : option (list peer_book_entry)) : list write :=
  match pb with
  | Some (e0 :: _) =>
      [ WSet CONNECTIONS ["connections"; name] (float_val (connection_count e0));
        WSet SESSIONS ["sessions"; name] (float_of_Z (Z.of_nat (length (sessions e0)))) ]
  | _ => []
  end.

Definition peer_book_raises (pb : option (list peer_book_entry)) : option exn :=
  match pb with
  | Some [] => Some IndexError
  | _ => None
  end.

(** The writes of the five blocks that come before the ledger block. *)
Definition scalar_writes (name : string) (l : locals) : list write :=
  height_writes name (height_info_ l) ++
  in_consensus_writes name (in_consensus_ l) ++
  balance_writes name (balance_ l) ++
  block_age_writes name (block_age_ l) ++
  version_writes name (version_ l).



(** *** In general *)

Definition height_block (name : string) (hi : option height_info) : block :=
  match hi with
  | None => ([], None)
  | Some i =>
      block_seq (set_block VAL ["Height"; name] (default (height i) (sync_height i)))
                (set_block CHAIN_STATS ["Height"] (height i))
  end.

Definition block_age_block (name : string) (age : option pyval) : block :=
  match age with
  | None => ([], None)
  | Some a => set_block BLOCKAGE [name] a
  end.

(** Lines 201-202. *)
Definition ratio_block (e : ledger_entry) : block :=
  match py_gt0 (le_tenure_penalty e) with
  | inl x => ([], Some x)
  | inr false => ([], None)
  | inr true => compute_block LEDGER_PENALTY (ratio_labels e) (ratio_of e)
  end.

Definition ledger_entry_block (e : ledger_entry) : block :=
  let n := le_name e in
  let a := le_address e in
  block_all
    [ set_block LEDGER_PENALTY ["ledger_penalties"; "tenure"; n; a] (le_tenure_penalty e);
      set_block LEDGER_PENALTY ["ledger_penalties"; "dkg"; n; a] (le_dkg_penalty e);
      set_block LEDGER_PENALTY ["ledger_penalties"; "performance"; n; a]
                (le_performance_penalty e);
      set_block LEDGER_PENALTY ["ledger_penalties"; "total"; n; a] (le_total_penalty e);
      ratio_block e;
      set_block HEARTBEAT [n; a] (le_last_heartbeat e) ].

Definition ledger_block (pl : pyledger) : block :=
  match pl with
  | PLNone => ([], None)
  | PLDict d =>
      block_seq ([WClear LEDGER_PENALTY], None)
                (block_all (map ledger_entry_block (dict_values d)))
  | PLList _ => ([WClear LEDGER_PENALTY], Some AttributeError)
  end.

Definition member_block (addr : string) (bba_tot seen_tot : pyval) (m : consensus_member)
    : block :=
  if member_selected addr m then
    let n := cm_name m in
    block_all
      [ set_block HBBFT_PERF ["hbbft_perf"; "Penalty"; n] (cm_penalty m);
        set_block HBBFT_PERF ["hbbft_perf"; "BBA_Total"; n] bba_tot;
        set_block HBBFT_PERF ["hbbft_perf"; "BBA_Votes"; n] (cm_bba_completions m);
        set_block HBBFT_PERF ["hbbft_perf"; "Seen_Total"; n] seen_tot;
        set_block HBBFT_PERF ["hbbft_perf"; "Seen_Votes"; n] (cm_seen_votes m);
        set_block HBBFT_PERF ["hbbft_perf"; "BBA_Last"; n] (cm_last_bba m);
        set_block HBBFT_PERF ["hbbft_perf"; "Seen_Last"; n] (cm_last_seen m);
        set_block HBBFT_PERF ["hbbft_perf"; "Tenure"; n] (cm_tenure m) ]
  else ([], None).

Definition hbbft_block (addr : string) (hp : option hbbft_perf) : block :=
  match hp with
  | None => ([], None)
  | Some p =>
      block_seq ([WClear HBBFT_PERF], None)
                (block_all (map (member_block addr (blocks_since_epoch p) (max_seen p))
                                (consensus_members p)))
  end.

Definition peer_book_block (name : string) (pb : option (list peer_book_entry)) : block :=
  match pb with
  | None => ([], None)
  | Some [] => ([], Some IndexError)
  | Some (e0 :: _) =>
      block_seq (set_block CONNECTIONS ["connections"; name] (connection_count e0))
                (set_block SESSIONS ["sessions"; name]
                           (PInt (Z.of_nat (length (sessions e0)))))
  end.

(** The five blocks before the ledger block; the HBBFT and peer-book
    blocks after it; the ledger block with what follows; phase 3. *)
Definition scalar_block (name : string) (l : locals) : block :=
  block_all
    [ height_block name (height_info_ l);
      (in_consensus_writes name (in_consensus_ l), None);
      (balance_writes name (balance_ l), None);
      block_age_block name (block_age_ l);
      (version_writes name (version_ l), None) ].

Definition tail_block (addr name : string) (l : locals) : block :=
  block_seq (hbbft_block addr (hbbft_perf_ l)) (peer_book_block name (peer_book_info_ l)).

Definition entity_block (addr name : string) (l : locals) : block :=
  block_seq (ledger_block (penalty_ledger_ l)) (tail_block addr name l).

Definition publish_block (addr name : string) (l : locals) : block :=
  block_seq (scalar_block name l) (entity_block addr name l).

(** *** Answers whose numbers convert *)

Definition height_numeric (hi : option height_info) : bool :=
  match hi with
  | None => true
  | Some i => fits (default (height i) (sync_height i)) && fits (height i)
  end.

Definition block_age_numeric (age : option pyval) : bool :=
  match age with
  | None => true
  | Some a => fits a
  end.

(** The five numbers of a ledger entry convert, and its ratio, when it has
    one, can be computed. *)
Definition entry_numeric (e : ledger_entry) : bool :=
  fits (le_tenure_penalty e) && fits (le_dkg_penalty e) &&
  fits (le_performance_penalty e) && fits (le_total_penalty e) &&
  fits (le_last_heartbeat e) &&
  (if gt0 (le_tenure_penalty e)
   then match ratio_of e with inr _ => true | inl _ => false end
   else true).

Definition ledger_numeric (pl : pyledger) : bool :=
  match pl with
  | PLDict d => forallb entry_numeric (dict_values d)
  | _ => true
  end.

Definition member_numeric (m : consensus_member) : bool :=
  fits (cm_penalty m) && fits (cm_bba_completions m) && fits (cm_seen_votes m) &&
  fits (cm_last_bba m) && fits (cm_last_seen m) && fits (cm_tenure m).

Definition hbbft_numeric (hp : option hbbft_perf) : bool :=
  match hp with
  | None => true
  | Some p =>
      fits (blocks_since_epoch p) && fits (max_seen p) &&
      forallb member_numeric (consensus_members p)
  end.

Definition peer_book_numeric (pb : option (list peer_book_entry)) : bool :=
  match pb with
  | Some (e0 :: _) =>
      fits (connection_count e0) && fits (PInt (Z.of_nat (length (sessions e0))))
  | _ => true
  end.

End Publish.

(** ** One cycle as a whole *)

Section Cycle.

Variable cfg : config.
Variable env : responses.

(** The host-usage block, when it runs, converts and divides. *)
Definition host_ok : bool :=
  negb (COLLECT_SYSTEM_USAGE cfg) || (host_numeric env && host_divides env).

Definition host_writes : list write :=
  if COLLECT_SYSTEM_USAGE cfg then system_usage_writes cfg env else [].

(** The host-usage block in general. *)
Definition host_block : block :=
  if COLLECT_SYSTEM_USAGE cfg then system_usage_block cfg env else ([], None).

(** The numbers of the height and block-age answers convert. *)
Definition scalars_numeric : bool :=
  height_numeric (fetched_value (resp_info_height env)) &&
  block_age_numeric (fetched_value (resp_block_age env)).

(** So do the numbers of the ledger the cycle resolved. *)
Definition ledger_answers_numeric (addr : string) : bool :=
  scalars_numeric && ledger_numeric (penalty_ledger_value cfg env addr).

(** So do those of the HBBFT snapshot. *)
Definition hbbft_answers_numeric (addr : string) : bool :=
  ledger_answers_numeric addr && hbbft_numeric (fetched_value (resp_hbbft_perf env)).

(** Every number of the answers phase 3 publishes converts. *)
Definition answers_numeric (addr : string) : bool :=
  hbbft_answers_numeric addr && peer_book_numeric (fetched_value (resp_peer_book_self env)).


(** The writes of a cycle in general. *)
Definition cycle_block_writes (addr name : string) : list write :=
  host_writes ++ (publish_block cfg addr name (fetched cfg env addr)).1.

Definition cycle_events (addr : string) : list event :=
  Rpc CallAddr :: Rpc CallName :: fetch_all_events cfg env addr.


End Cycle.

(** ** Properties of sequences of writes *)

(** Every write of [ws] targets one of the families [fs] ([None]: the
    version record). *)

Definition writes_within (fs : list (option family)) (ws : list write) : Prop :=
  Forall (fun w => write_target w ∈ fs) ws.

(** Every [clear()] among [ws] is of one of the families [fs]. *)
Definition clears_within (fs : list family) (ws : list write) : Prop :=
  Forall (fun w => match w with WClear f => f ∈ fs | _ => True end) ws.

(** When block [b] raises, the exception is one of [es]. *)
Definition raises_within (es : list exn) (b : block) : Prop :=
  forall e, b.2 = Some e -> e ∈ es.

(** [w] creates or sets the sample [ls] of family [f]. *)
Definition write_creates (f : family) (ls : labels) (w : write) : Prop :=
  match w with
  | WSet f' ls' _ | WLabels f' ls' => f' = f /\ ls' = ls
  | _ => False
  end.

(** [w] neither touches the sample [ls] of family [f] nor clears [f]. *)
Definition write_misses (f : family) (ls : labels) (w : write) : Prop :=
  match w with
  | WSet f' ls' _ | WLabels f' ls' => f' <> f \/ ls' <> ls
  | WClear f' => f' <> f
  | WInfo _ _ => True
  end.

(** ** The identity gate, ledger dictionaries and label sets *)

(** The address fetch fails, or it succeeds and the name fetch fails. *)
Definition identity_fails (env : responses) : bool :=
  match resp_addr env with
  | inl _ => true
  | inr _ => match resp_name env with inl _ => true | inr _ => false end
  end.

(** Every value sits under its own address, and keys are unique. *)
Definition dict_by_address (d : pydict ledger_entry) : Prop :=
  NoDup (dict_keys d) /\ Forall (fun kv => le_address kv.2 = kv.1) d.

(** [v['status'] == 'staked'] *)
Definition is_staked (v : ledger_entry) : Prop := le_status v = "staked".

#[global] Instance is_staked_dec v : Decision (is_staked v).
Proof. unfold is_staked. apply _. Defined.

(** One step of the comprehension of line 124. *)
Definition add_if_staked (d : pydict ledger_entry) (v : ledger_entry) : pydict ledger_entry :=
  if decide (le_status v = "staked") then dict_setitem (le_address v) v d else d.

(** The label tuple of a ledger sample of subtype [sub]. *)
Definition penalty_labels (sub : string) (e : ledger_entry) : labels :=
  ["ledger_penalties"; sub; le_name e; le_address e].

(** The label tuples one ledger entry is published under. *)
Definition entry_labels (e : ledger_entry) : list labels :=
  [ penalty_labels "tenure" e; penalty_labels "dkg" e;
    penalty_labels "performance" e; penalty_labels "total" e ] ++
  (if gt0 (le_tenure_penalty e) then [penalty_labels "perf_tenure_ratio" e] else []).

(** The eight subtypes of lines 215-222, in order. *)
Definition hbbft_subtypes : list string :=
  ["Penalty"; "BBA_Total"; "BBA_Votes"; "Seen_Total"; "Seen_Votes";
   "BBA_Last"; "Seen_Last"; "Tenure"].

(** The label tuples one consensus member is published under. *)
Definition member_labels (m : consensus_member) : list labels :=
  (fun sub => ["hbbft_perf"; sub; cm_name m]) <$> hbbft_subtypes.

(** The entry of the resolved ledger mapping under the self address. *)
Definition self_entry (cfg : config) (env : responses) (addr : string) : option ledger_entry :=
  match penalty_ledger_value cfg env addr with
  | PLDict d => dict_get addr d
  | _ => None
  end.

(** ** Concrete data used by the examples *)

(** The default configuration, then with host usage on, then with both
    broaden flags on. *)
Definition cfg_default : config :=
  {| UPDATE_PERIOD := 30; COLLECT_SYSTEM_USAGE := false;
     ALL_HBBFT := false; ALL_PENALTIES := false; hostname := "val-host" |}.

Definition cfg_usage : config :=
  {| UPDATE_PERIOD := 30; COLLECT_SYSTEM_USAGE := true;
     ALL_HBBFT := false; ALL_PENALTIES := false; hostname := "val-host" |}.

Definition cfg_all : config :=
  {| UPDATE_PERIOD := 30; COLLECT_SYSTEM_USAGE := false;
     ALL_HBBFT := true; ALL_PENALTIES := true; hostname := "val-host" |}.

Definition entry_a1 : ledger_entry :=
  {| le_address := "A1"; le_name := "N1"; le_owner_address := "O1";
     le_tenure_penalty := PInt 10; le_dkg_penalty := PInt 2;
     le_performance_penalty := PInt 3;
     le_total_penalty := PInt 15; le_last_heartbeat := PInt 7; le_status := "staked" |}.

Definition entry_a2 : ledger_entry :=
  {| le_address := "A2"; le_name := "N2"; le_owner_address := "O2";
     le_tenure_penalty := PFloat fzero; le_dkg_penalty := PInt 2;
     le_performance_penalty := PInt 3;
     le_total_penalty := PInt 5; le_last_heartbeat := PInt 9; le_status := "staked" |}.

Definition entry_a3 : ledger_entry :=
  {| le_address := "A3"; le_name := "N3"; le_owner_address := "O3";
     le_tenure_penalty := PInt 1; le_dkg_penalty := PInt 0;
     le_performance_penalty := PInt 0;
     le_total_penalty := PInt 1; le_last_heartbeat := PInt 2; le_status := "unstaked" |}.

Definition member_a1 : consensus_member :=
  {| cm_address := "A1"; cm_name := "N1"; cm_penalty := PFloat (float_of_Z 1); cm_bba_completions := PInt 4;
     cm_seen_votes := PInt 40; cm_last_bba := PInt 0; cm_last_seen := PInt 1;
     cm_tenure := PInt 3 |}.

Definition member_a2 : consensus_member :=
  {| cm_address := "A2"; cm_name := "N2"; cm_penalty := PFloat (float_of_Z 2); cm_bba_completions := PInt 3;
     cm_seen_votes := PInt 38; cm_last_bba := PInt 1; cm_last_seen := PInt 0;
     cm_tenure := PInt 5 |}.

Definition disk_half : disk_usage :=
  {| du_total := 100; du_used := 40; du_free := 60 |}.

Definition host_idle : host_sample :=
  {| cpu_percent := float_of_Z 5; virtual_memory_percent := float_of_Z 50; cpu_steal := fzero;
     disk_usage_1 := disk_half; disk_usage_2 := disk_half;
     disk_usage_3 := disk_half; disk_usage_4 := disk_half;
     process_count := 3 |}.

(** A node that answers everything; the self validator is A1 / N1. *)
Definition env_healthy : responses :=
  {| resp_addr := inr "A1";
     resp_name := inr "N1";
     resp_info_height := inr {| height := PInt 100; sync_height := Some (PInt 95) |};
     resp_in_consensus := inr true;
     resp_ledger_validators_1 := inr [entry_a1; entry_a2; entry_a3];
     resp_ledger_validators_2 := inr [entry_a1; entry_a2; entry_a3];
     resp_ledger_validator := fun _ => inr entry_a1;
     resp_ledger_balance := fun _ => inr {| balance := PInt 123456789 |};
     resp_version := inr "1.0.2";
     resp_block_age := inr (PInt 12);
     resp_hbbft_perf :=
       inr {| blocks_since_epoch := PInt 4; max_seen := PInt 40;
              consensus_members := [member_a1; member_a2] |};
     resp_peer_book_self :=
       inr [{| connection_count := PInt 8; sessions := [Session "p1"; Session "p2"] |}];
     host := host_idle;
     elapsed := float_of_Z 1 |}.

(** A [responses] record with one answer replaced. *)
Definition with_addr (r : response string) (env : responses) : responses :=
  {| resp_addr := r; resp_name := resp_name env;
     resp_info_height := resp_info_height env;
     resp_in_consensus := resp_in_consensus env;
     resp_ledger_validators_1 := resp_ledger_validators_1 env;
     resp_ledger_validators_2 := resp_ledger_validators_2 env;
     resp_ledger_validator := resp_ledger_validator env;
     resp_ledger_balance := resp_ledger_balance env;
     resp_version := resp_version env;
     resp_block_age := resp_block_age env;
     resp_hbbft_perf := resp_hbbft_perf env;
     resp_peer_book_self := resp_peer_book_self env;
     host := host env; elapsed := elapsed env |}.

Definition with_ledger_validators (r1 r2 : response (list ledger_entry))
    (rs : string -> response ledger_entry) (env : responses) : responses :=
  {| resp_addr := resp_addr env; resp_name := resp_name env;
     resp_info_height := resp_info_height env;
     resp_in_consensus := resp_in_consensus env;
     resp_ledger_validators_1 := r1;
     resp_ledger_validators_2 := r2;
     resp_ledger_validator := rs;
     resp_ledger_balance := resp_ledger_balance env;
     resp_version := resp_version env;
     resp_block_age := resp_block_age env;
     resp_hbbft_perf := resp_hbbft_perf env;
     resp_peer_book_self := resp_peer_book_self env;
     host := host env; elapsed := elapsed env |}.

Definition with_hbbft_perf (r : response hbbft_perf) (env : responses) : responses :=
  {| resp_addr := resp_addr env; resp_name := resp_name env;
     resp_info_height := resp_info_height env;
     resp_in_consensus := resp_in_consensus env;
     resp_ledger_validators_1 := resp_ledger_validators_1 env;
     resp_ledger_validators_2 := resp_ledger_validators_2 env;
     resp_ledger_validator := resp_ledger_validator env;
     resp_ledger_balance := resp_ledger_balance env;
     resp_version := resp_version env;
     resp_block_age := resp_block_age env;
     resp_hbbft_perf := r;
     resp_peer_book_self := resp_peer_book_self env;
     host := host env; elapsed := elapsed env |}.

Definition with_peer_book_self (r : response (list peer_book_entry)) (env : responses)
    : responses :=
  {| resp_addr := resp_addr env; resp_name := resp_name env;
     resp_info_height := resp_info_height env;
     resp_in_consensus := resp_in_consensus env;
     resp_ledger_validators_1 := resp_ledger_validators_1 env;
     resp_ledger_validators_2 := resp_ledger_validators_2 env;
     resp_ledger_validator := resp_ledger_validator env;
     resp_ledger_balance := resp_ledger_balance env;
     resp_version := resp_version env;
     resp_block_age := resp_block_age env;
     resp_hbbft_perf := resp_hbbft_perf env;
     resp_peer_book_self := r;
     host := host env; elapsed := elapsed env |}.

(** A fresh process: nothing published, nothing logged. *)
Definition state0 : state := {| reg := empty_registry; trace := [] |}.

(** The state a healthy first cycle leaves behind. *)
Definition state1 : state := (stats cfg_default env_healthy state0).2.

(** The state a healthy first cycle leaves behind with both broaden flags on. *)
Definition state_all1 : state := (stats cfg_all env_healthy state0).2.

Definition env_addr_down : responses := with_addr (inl ConnectionError) env_healthy.

Definition env_peers_down : responses := with_peer_book_self (inl ConnectionError) env_healthy.


(** In the all-validators mode: the ledger of the second cycle has lost A2. *)
Definition env_a2_gone : responses :=
  with_ledger_validators (inr [entry_a1]) (inr [entry_a1]) (fun _ => inr entry_a1)
                         env_healthy.

(** The self validator A1 is not in the consensus group. *)
Definition env_not_in_group : responses :=
  with_hbbft_perf
    (inr {| blocks_since_epoch := PInt 4; max_seen := PInt 40;
            consensus_members := [member_a2] |})
    env_healthy.

(** The second ledger call times out after the first one answered. *)
Definition env_refetch_fails : responses :=
  with_ledger_validators (inr [entry_a1; entry_a2; entry_a3]) (inl ConnectionError)
                         (fun _ => inr entry_a1) env_healthy.

(** ** Reading a trace *)

(** The client methods called, in order. *)
Definition rpc_calls (evs : list event) : list rpc_call :=
  omap (fun ev => match ev with Rpc c => Some c | _ => None end) evs.


(** ** Spellings of an option that switch it on *)

Definition flag_spellings : list string :=
  [ "true"; "truE"; "trUe"; "trUE"; "tRue"; "tRuE"; "tRUe"; "tRUE";
    "True"; "TruE"; "TrUe"; "TrUE"; "TRue"; "TRuE"; "TRUe"; "TRUE";
    "t"; "T"; "1"; "y"; "Y";
    "yes"; "yeS"; "yEs"; "yES"; "Yes"; "YeS"; "YEs"; "YES" ].

(** ** Further data for the examples *)

(** A node whose validator is still syncing, and one that is in sync. *)
Definition env_in_sync : responses :=
  {| resp_addr := resp_addr env_healthy; resp_name := resp_name env_healthy;
     resp_info_height := inr {| height := PInt 100; sync_height := None |};
     resp_in_consensus := resp_in_consensus env_healthy;
     resp_ledger_validators_1 := resp_ledger_validators_1 env_healthy;
     resp_ledger_validators_2 := resp_ledger_validators_2 env_healthy;
     resp_ledger_validator := resp_ledger_validator env_healthy;
     resp_ledger_balance := resp_ledger_balance env_healthy;
     resp_version := resp_version env_healthy;
     resp_block_age := resp_block_age env_healthy;
     resp_hbbft_perf := resp_hbbft_perf env_healthy;
     resp_peer_book_self := resp_peer_book_self env_healthy;
     host := host env_healthy; elapsed := elapsed env_healthy |}.

(** The self validator A1 is in the answer but not staked. *)
Definition entry_a1_unstaked : ledger_entry :=
  {| le_address := "A1"; le_name := "N1"; le_owner_address := "O1";
     le_tenure_penalty := PInt 10; le_dkg_penalty := PInt 2;
     le_performance_penalty := PInt 3;
     le_total_penalty := PInt 15; le_last_heartbeat := PInt 7; le_status := "unstaked" |}.

Definition env_self_unstaked : responses :=
  with_ledger_validators (inr [entry_a1_unstaked; entry_a2])
                         (inr [entry_a1_unstaked; entry_a2])
                         (fun _ => inr entry_a1_unstaked) env_healthy.

(** The validator was renamed from N1 to N9 between two cycles. *)
Definition env_renamed : responses :=
  {| resp_addr := resp_addr env_healthy; resp_name := inr "N9";
     resp_info_height := resp_info_height env_healthy;
     resp_in_consensus := resp_in_consensus env_healthy;
     resp_ledger_validators_1 := resp_ledger_validators_1 env_healthy;
     resp_ledger_validators_2 := resp_ledger_validators_2 env_healthy;
     resp_ledger_validator := resp_ledger_validator env_healthy;
     resp_ledger_balance := resp_ledger_balance env_healthy;
     resp_version := resp_version env_healthy;
     resp_block_age := resp_block_age env_healthy;
     resp_hbbft_perf := resp_hbbft_perf env_healthy;
     resp_peer_book_self := resp_peer_book_self env_healthy;
     host := host env_healthy; elapsed := elapsed env_healthy |}.


(** The owner's balance is an integer beyond the range of the floats. *)
Definition env_huge_balance : responses :=
  {| resp_addr := resp_addr env_healthy; resp_name := resp_name env_healthy;
     resp_info_height := resp_info_height env_healthy;
     resp_in_consensus := resp_in_consensus env_healthy;
     resp_ledger_validators_1 := resp_ledger_validators_1 env_healthy;
     resp_ledger_validators_2 := resp_ledger_validators_2 env_healthy;
     resp_ledger_validator := resp_ledger_validator env_healthy;
     resp_ledger_balance := fun _ => inr {| balance := PInt (10 ^ 400) |};
     resp_version := resp_version env_healthy;
     resp_block_age := resp_block_age env_healthy;
     resp_hbbft_perf := resp_hbbft_perf env_healthy;
     resp_peer_book_self := resp_peer_book_self env_healthy;
     host := host env_healthy; elapsed := elapsed env_healthy |}.

(** A node at height [h], in sync. *)
Definition env_at_height (h : pyval) : responses :=
  {| resp_addr := resp_addr env_healthy; resp_name := resp_name env_healthy;
     resp_info_height := inr {| height := h; sync_height := None |};
     resp_in_consensus := resp_in_consensus env_healthy;
     resp_ledger_validators_1 := resp_ledger_validators_1 env_healthy;
     resp_ledger_validators_2 := resp_ledger_validators_2 env_healthy;
     resp_ledger_validator := resp_ledger_validator env_healthy;
     resp_ledger_balance := resp_ledger_balance env_healthy;
     resp_version := resp_version env_healthy;
     resp_block_age := resp_block_age env_healthy;
     resp_hbbft_perf := resp_hbbft_perf env_healthy;
     resp_peer_book_self := resp_peer_book_self env_healthy;
     host := host env_healthy; elapsed := elapsed env_healthy |}.

(** ** The effect of writes on one sample *)

(** What a write does to the sample under [ls] in family [f], as a function
    of what was there. *)
Definition cell_step (f : family) (ls : labels) (w : write) (o : option float) : option float :=
  match w with
  | WSet f' ls' v => if decide (f' = f /\ ls' = ls) then Some v else o
  | WLabels f' ls' => if decide (f' = f /\ ls' = ls) then Some (default fzero o) else o
  | WClear f' => if decide (f' = f) then None else o
  | WInfo _ _ => o
  end.

(** The same for the version record. *)
Definition info_step (ls : labels) (w : write) (o : option string) : option string :=
  match w with
  | WInfo ls' v => if decide (ls' = ls) then Some v else o
  | _ => o
  end.

(** The three effects a sequence of writes can have on one sample: none, a
    fixed outcome, or creation with the default when absent. *)
Definition cell_effect {A} (d : A) (h : option A -> option A) : Prop :=
  (forall o, h o = o) \/ (exists c, forall o, h o = c) \/ (forall o, h o = Some (default d o)).

(** * Verification *)

#[global] Arguments float_of_Z : simpl never.
#[global] Arguments fadd : simpl never.
#[global] Arguments fdiv : simpl never.
#[global] Arguments f1e8 : simpl never.

(** ** Rounding an integer to a float *)

Lemma shr_1_m mrs :
  0 <= shr_m mrs -> shr_m (shr_1 mrs) = shr_m mrs / 2 /\ 0 <= shr_m (shr_1 mrs).
Proof.
  destruct mrs as [m r s]. simpl. intros H.
  destruct m as [|[p|p|]|p]; cbn [shr_m]; try lia.
  - split; [reflexivity|lia].
  - split; [|lia]. apply Z.div_unique with 1; lia.
  - split; [|lia]. apply Z.div_unique with 0; lia.
  - split; [|lia]. reflexivity.
Qed.

Lemma iter_shr_1_m p : forall mrs, 0 <= shr_m mrs ->
  shr_m (SpecFloat.iter_pos shr_1 p mrs) = shr_m mrs / 2 ^ Zpos p /\
  0 <= shr_m (SpecFloat.iter_pos shr_1 p mrs).
Proof.
  induction p as [p IH|p IH|]; intros mrs H; cbn [SpecFloat.iter_pos].
  - destruct (shr_1_m mrs H) as [E1 H1].
    destruct (IH _ H1) as [E2 H2]. destruct (IH _ H2) as [E3 H3].
    split; [|assumption]. rewrite E3, E2, E1.
    rewrite !Z.div_div by lia. f_equal.
    replace (Z.pos p~1) with (1 + Z.pos p + Z.pos p) by lia.
    rewrite !Z.pow_add_r by lia. change (2 ^ 1) with 2. lia.
  - destruct (IH _ H) as [E2 H2]. destruct (IH _ H2) as [E3 H3].
    split; [|assumption]. rewrite E3, E2.
    rewrite !Z.div_div by lia. f_equal.
    replace (Z.pos p~0) with (Z.pos p + Z.pos p) by lia.
    rewrite Z.pow_add_r by lia. reflexivity.
  - destruct (shr_1_m mrs H) as [E1 H1]. split; [|assumption].
    rewrite E1. reflexivity.
Qed.

Lemma digits2_pos_bounds p :
  2 ^ (Zpos (digits2_pos p) - 1) <= Zpos p < 2 ^ Zpos (digits2_pos p).
Proof.
  induction p as [p IH|p IH|]; cbn [digits2_pos].
  - rewrite Pos2Z.inj_succ. set (d := Z.pos (digits2_pos p)) in *.
    assert (0 < d) by (subst d; lia).
    replace (Z.succ d - 1) with d by lia.
    rewrite Z.pow_succ_r by lia.
    assert (2 ^ d = 2 * 2 ^ (d - 1)) as E.
    { rewrite <- Z.pow_succ_r by lia. f_equal. lia. }
    lia.
  - rewrite Pos2Z.inj_succ. set (d := Z.pos (digits2_pos p)) in *.
    assert (0 < d) by (subst d; lia).
    replace (Z.succ d - 1) with d by lia.
    rewrite Z.pow_succ_r by lia.
    assert (2 ^ d = 2 * 2 ^ (d - 1)) as E.
    { rewrite <- Z.pow_succ_r by lia. f_equal. lia. }
    lia.
  - simpl. lia.
Qed.

(** Shifting a mantissa down to 53 bits leaves a positive mantissa. *)
Lemma shr_fexp_pos (m : positive) e l :
  -1074 <= e ->
  0 < shr_m (shr_fexp 53 1024 (Zpos m) e l).1 /\ e <= (shr_fexp 53 1024 (Zpos m) e l).2.
Proof.
  intros He. unfold shr_fexp, shr, fexp, emin.
  cbn [Zdigits2].
  pose proof (digits2_pos_bounds m) as [Hlo Hhi].
  set (d := Zpos (digits2_pos m)) in *.
  assert (0 < d) as Hd by (subst d; lia).
  assert (shr_m (shr_record_of_loc (Zpos m) l) = Zpos m) as Hm
    by (destruct l as [|[]]; reflexivity).
  destruct (Z.max (d + e - 53) (3 - 1024 - 53) - e) as [|n|n] eqn:En; cbn [fst snd].
  - rewrite Hm. lia.
  - assert (0 <= shr_m (shr_record_of_loc (Zpos m) l)) as H0 by lia.
    destruct (iter_shr_1_m n _ H0) as [E _].
    split; [|lia]. rewrite E, Hm.
    assert (Zpos n = d - 53) as Hn by lia.
    rewrite Hn.
    apply Z.div_str_pos. split; [apply Z.pow_pos_nonneg; lia|].
    eapply Z.le_trans; [|exact Hlo]. apply Z.pow_le_mono_r; lia.
  - rewrite Hm. lia.
Qed.

Lemma binary_round_aux_nonzero sx (m : positive) e l :
  -1074 <= e ->
  match binary_round_aux 53 1024 sx (Zpos m) e l with
  | S754_finite _ _ _ | S754_infinity _ => True
  | _ => False
  end.
Proof.
  intros He. unfold binary_round_aux.
  pose proof (shr_fexp_pos m e l He) as H1.
  destruct (shr_fexp 53 1024 (Zpos m) e l) as [mrs' e'].
  destruct H1 as [Hm' He']. cbn [fst snd] in Hm', He'.
  assert (0 < round_nearest_even (shr_m mrs') (loc_of_shr_record mrs')) as Hr.
  { unfold round_nearest_even. destruct (loc_of_shr_record mrs') as [|[]]; try lia.
    destruct (Z.even _); lia. }
  destruct (round_nearest_even (shr_m mrs') (loc_of_shr_record mrs')) as [|m1|m1]; try lia.
  pose proof (shr_fexp_pos m1 e' loc_Exact ltac:(lia)) as H2.
  destruct (shr_fexp 53 1024 (Zpos m1) e' loc_Exact) as [mrs'' e''].
  destruct H2 as [Hm'' _]. cbn [fst] in Hm''.
  destruct (shr_m mrs''); try lia.
  destruct (Z.leb _ _); exact I.
Qed.

(** The float of an integer is zero exactly when the integer is. *)
Lemma float_of_Z_eq0 z : SFeqb (float_of_Z z) fzero = (z =? 0).
Proof.
  assert (forall sx p, SFeqb (binary_round 53 1024 sx p 0) fzero = false) as H.
  { intros sx p. unfold binary_round.
    destruct (shl_align p 0 _) as [mz ez] eqn:E.
    assert (-1074 <= ez) as Hez.
    { unfold shl_align in E. destruct (_ - 0) eqn:D; injection E as <- <-;
        unfold fexp, emin in *; lia. }
    pose proof (binary_round_aux_nonzero sx mz ez loc_Exact Hez) as Hn.
    destruct (binary_round_aux _ _ _ _ _ _) as [|s| |s m e]; try contradiction;
      by destruct s. }
  destruct z as [|p|p]; [reflexivity|apply H|apply H].
Qed.

(** ** Python's operations on numbers that fit *)

Lemma py_float_fits x : fits x = true -> py_float x = inr (float_val x).
Proof. destruct x as [z|f|]; simpl; [|done..]. by intros ->. Qed.

Lemma py_float_inr x v : py_float x = inr v -> fits x = true /\ float_val x = v.
Proof.
  destruct x as [z|f|]; simpl; [|by intros [= ->]|done].
  destruct (is_finite (float_of_Z z)); [by intros [= ->]|done].
Qed.

Lemma py_float_inl x e : py_float x = inl e -> fits x = false /\ (e = OverflowError \/ e = ValueError).
Proof.
  destruct x as [z|f|]; simpl; [|done|intros [= <-]; auto].
  destruct (is_finite (float_of_Z z)); [done|]. intros [= <-]. auto.
Qed.

Lemma py_float_int_inl z e :
  py_float (PInt z) = inl e -> fits (PInt z) = false /\ e = OverflowError.
Proof. simpl. destruct (is_finite (float_of_Z z)); [done|]. by intros [= <-]. Qed.

Lemma py_gt0_fits x : fits x = true -> py_gt0 x = inr (gt0 x).
Proof. by destruct x. Qed.

Lemma float_truediv_nonzero f z :
  z <> 0 -> float_truediv f (float_of_Z z) = inr (fdiv f (float_of_Z z)).
Proof.
  intros Hz. unfold float_truediv. rewrite float_of_Z_eq0.
  by rewrite (proj2 (Z.eqb_neq z 0) Hz).
Qed.

Lemma float_ratio_fits a b :
  fits (PInt a) = true -> fits (PInt b) = true -> (b =? 0) = false ->
  float_ratio a b = inr (float_quot a b).
Proof.
  intros Ha Hb Hz. unfold float_ratio.
  rewrite (py_float_fits _ Ha), (py_float_fits _ Hb). simpl.
  apply float_truediv_nonzero. by apply Z.eqb_neq.
Qed.

(** When the quotient of lines 99-100 is not computed, a number did not
    convert or the divisor is zero. *)
Lemma float_ratio_inl a b e :
  float_ratio a b = inl e ->
  (fits (PInt a) && fits (PInt b) && negb (b =? 0) = false) /\
  (e = OverflowError \/ e = ZeroDivisionError) /\
  (fits (PInt a) && fits (PInt b) = true -> e = ZeroDivisionError).
Proof.
  unfold float_ratio. cbn [py_float fits].
  destruct (is_finite (float_of_Z a)); [|intros [= <-]; split_and!; [done|by left|done]].
  destruct (is_finite (float_of_Z b)); [|intros [= <-]; split_and!; [done|by left|done]].
  unfold float_truediv. rewrite float_of_Z_eq0.
  destruct (b =? 0); [|done]. intros [= <-]. split_and!; [done|by right|done].
Qed.

(** ** The registry operations, family by family *)

Lemma gauges_gauge_set f ls v r f' :
  gauges (gauge_set f ls v r) f' =
  if decide (f = f') then <[ls := v]> (gauges r f') else gauges r f'.
Proof.
  unfold gauge_set, gauges; simpl. case_decide as E.
  - subst. by rewrite lookup_insert_eq.
  - by rewrite lookup_insert_ne.
Qed.

Lemma gauges_gauge_clear f r f' :
  gauges (gauge_clear f r) f' = if decide (f = f') then ∅ else gauges r f'.
Proof.
  unfold gauge_clear, gauges; simpl. case_decide as E.
  - subst. by rewrite lookup_insert_eq.
  - by rewrite lookup_insert_ne.
Qed.

Lemma gauges_gauge_labels f ls r f' :
  gauges (gauge_labels f ls r) f' =
  if decide (f = f')
  then match gauges r f' !! ls with
       | Some _ => gauges r f'
       | None => <[ls := fzero]> (gauges r f')
       end
  else gauges r f'.
Proof.
  unfold gauge_labels. case_decide as E.
  - subst. destruct (gauges r f' !! ls); [done|].
    rewrite gauges_gauge_set. by rewrite decide_True.
  - destruct (gauges r f !! ls); [done|].
    rewrite gauges_gauge_set. by rewrite decide_False.
Qed.

Lemma gauges_info_set ls v r f : gauges (info_set ls v r) f = gauges r f.
Proof. done. Qed.

Lemma gauges_observe d r f : gauges (observe d r) f = gauges r f.
Proof. done. Qed.

Lemma version_gauge_labels f ls r :
  VALIDATOR_VERSION (gauge_labels f ls r) = VALIDATOR_VERSION r.
Proof. unfold gauge_labels. by destruct (gauges r f !! ls). Qed.


(** Setting a child that was just looked up is setting it. *)
Lemma gauge_set_labels f ls v r :
  gauge_set f ls v (gauge_labels f ls r) = gauge_set f ls v r.
Proof.
  unfold gauge_labels. destruct (gauges r f !! ls); [done|].
  unfold gauge_set at 1. rewrite gauges_gauge_set, decide_True by done.
  unfold gauge_set. simpl. by rewrite !insert_insert_eq.
Qed.

#[global] Arguments gauge_set : simpl never.
#[global] Arguments gauge_clear : simpl never.
#[global] Arguments gauge_labels : simpl never.
#[global] Arguments info_set : simpl never.
#[global] Arguments observe : simpl never.

(** ** Running the monad *)

Ltac munfold :=
  repeat (progress (unfold mbind, M_bind, mret, M_ret, raise, try_except,
                    log_error, emit, lift; simpl)).

Lemma ret_run {A} (a : A) s : (mret a : M A) s = (inr a, s).
Proof. done. Qed.

Lemma bind_run {A B} (m : M A) (k : A -> M B) s :
  (m ≫= k) s = match m s with
               | (inr a, s') => k a s'
               | (inl e, s') => (inl e, s')
               end.
Proof. done. Qed.

Lemma update_run f s : update f s = (inr tt, put_reg (f (reg s)) s).
Proof. done. Qed.

Lemma lift_run {A} (r : exn + A) s : lift r s = (r, s).
Proof. done. Qed.

Lemma put_reg_id s : put_reg (reg s) s = s.
Proof. by destruct s. Qed.

Lemma log_events_nil s : log_events [] s = s.
Proof. destruct s. unfold log_events; simpl. by rewrite app_nil_r. Qed.

Lemma log_events_app evs evs' s :
  log_events evs' (log_events evs s) = log_events (evs ++ evs')%list s.
Proof. unfold log_events; simpl. by rewrite app_assoc. Qed.

Lemma soft_fetch_run {A} c (r : response A) msg s :
  soft_fetch c r msg s = (inr (fetched_value r), log_events (fetch_events c r msg) s).
Proof.
  unfold soft_fetch, rpc, log_events.
  destruct r; munfold; by rewrite <- ?app_assoc.
Qed.

(** ** Registry writes *)

Lemma apply_writes_app ws ws' r :
  apply_writes (ws ++ ws') r = apply_writes ws' (apply_writes ws r).
Proof. apply foldl_app. Qed.

Lemma gauges_apply_write r w f :
  gauges (apply_write r w) f = write_family f (gauges r f) w.
Proof.
  destruct w; unfold apply_write, write_family.
  - apply gauges_gauge_set.
  - apply gauges_gauge_labels.
  - apply gauges_gauge_clear.
  - apply gauges_info_set.
Qed.

Lemma gauges_apply_writes ws r f :
  gauges (apply_writes ws r) f = foldl (write_family f) (gauges r f) ws.
Proof.
  revert r. induction ws as [|w ws IH]; intros r; [done|].
  simpl. unfold apply_writes in *. simpl. by rewrite IH, gauges_apply_write.
Qed.

Lemma version_apply_writes ws r :
  VALIDATOR_VERSION (apply_writes ws r) = foldl write_info (VALIDATOR_VERSION r) ws.
Proof.
  revert r. induction ws as [|w ws IH]; intros r; [done|].
  unfold apply_writes in *. simpl. rewrite IH. f_equal.
  destruct w; simpl; auto using version_gauge_labels.
Qed.


(** Frame: writes that target other families leave [f] alone. *)
Lemma write_family_other f g w : write_target w ≠ Some f -> write_family f g w = g.
Proof.
  destruct w; simpl; intros H; try done; by rewrite decide_False by congruence.
Qed.

Lemma foldl_write_family_other f g ws :
  Forall (fun w => write_target w ≠ Some f) ws -> foldl (write_family f) g ws = g.
Proof.
  intros H. revert g. induction H as [|w ws Hw _ IH]; intros g; [done|].
  simpl. by rewrite write_family_other, IH.
Qed.

Lemma foldl_write_info_other i ws :
  Forall (fun w => write_target w ≠ None) ws -> foldl write_info i ws = i.
Proof.
  intros H. revert i. induction H as [|w ws Hw _ IH]; intros i; [done|].
  simpl. rewrite IH. by destruct w.
Qed.

(** Only [WClear] removes a key. *)
Lemma write_family_keeps f g w ls :
  w ≠ WClear f -> is_Some (g !! ls) -> is_Some (write_family f g w !! ls).
Proof.
  intros Hw Hs. destruct w as [f' ls' v|f' ls'|f'|]; simpl; try done.
  - case_decide; [|done]. rewrite lookup_insert. case_decide; eauto.
  - case_decide; [|done]. destruct (g !! ls') eqn:E; [done|].
    rewrite lookup_insert. case_decide; eauto.
  - case_decide; [congruence|done].
Qed.

Lemma foldl_write_family_keeps f ws g ls :
  WClear f ∉ ws -> is_Some (g !! ls) -> is_Some (foldl (write_family f) g ws !! ls).
Proof.
  revert g. induction ws as [|w ws IH]; intros g Hn Hs; [done|].
  simpl. apply IH.
  - intros ?. apply Hn. by right.
  - apply write_family_keeps; [|done]. intros ->. apply Hn. by left.
Qed.

(** ** Blocks *)

Lemma block_seq_nil_r b : block_seq b ([], None) = b.
Proof. destruct b as [ws [e|]]; unfold block_seq; simpl; [done|]. by rewrite app_nil_r. Qed.

Lemma block_seq_nil_l b : block_seq ([], None) b = b.
Proof. by destruct b. Qed.

Lemma block_seq_assoc b1 b2 b3 :
  block_seq (block_seq b1 b2) b3 = block_seq b1 (block_seq b2 b3).
Proof.
  destruct b1 as [ws1 [e1|]], b2 as [ws2 [e2|]], b3 as [ws3 o3]; unfold block_seq; simpl;
    try done. by rewrite app_assoc.
Qed.

Lemma block_seq_ok ws b : block_seq (ws, None) b = ((ws ++ b.1)%list, b.2).
Proof. done. Qed.

Lemma block_seq_raises ws e b : block_seq (ws, Some e) b = (ws, Some e).
Proof. done. Qed.

Lemma block_all_cons b bs : block_all (b :: bs) = block_seq b (block_all bs).
Proof. done. Qed.

(** A list of blocks none of which raises. *)
Lemma block_all_ok {A} (bf : A -> block) (wf : A -> list write) xs :
  Forall (fun x => bf x = (wf x, None)) xs ->
  block_all (map bf xs) = (concat (map wf xs), None).
Proof.
  induction 1 as [|x xs Hx _ IH]; [done|].
  cbn [map concat]. by rewrite block_all_cons, Hx, IH.
Qed.

Lemma runs_as_ret : runs_as (mret tt) ([], None).
Proof. intros s. by destruct s. Qed.

Lemma runs_as_raise e : runs_as (raise e) ([], Some e).
Proof. intros s. by destruct s. Qed.

Lemma runs_as_write w : runs_as (update (fun r => apply_write r w)) ([w], None).
Proof. by intros s. Qed.

Lemma runs_as_bind m1 m2 b1 b2 :
  runs_as m1 b1 -> runs_as m2 b2 -> runs_as (m1;; m2) (block_seq b1 b2).
Proof.
  intros H1 H2 s. rewrite bind_run, H1.
  destruct b1 as [ws1 [e1|]]; simpl; [done|].
  rewrite H2. unfold block_seq. simpl. by rewrite apply_writes_app.
Qed.

Lemma runs_as_eq m b b' : b = b' -> runs_as m b -> runs_as m b'.
Proof. by intros <-. Qed.

Lemma runs_as_set f ls v : runs_as (update (gauge_set f ls v)) ([WSet f ls v], None).
Proof. by intros s. Qed.

Lemma runs_as_clear f : runs_as (update (gauge_clear f)) ([WClear f], None).
Proof. by intros s. Qed.

Lemma runs_as_info ls v : runs_as (update (info_set ls v)) ([WInfo ls v], None).
Proof. by intros s. Qed.

(** [F.labels(ls).set(x)] *)
Lemma runs_as_set_py f ls x : runs_as (gauge_set_py f ls x) (set_block f ls x).
Proof.
  intros s. unfold gauge_set_py, set_block.
  rewrite bind_run, update_run, bind_run, lift_run.
  destruct (py_float x) as [e|v]; simpl; [done|].
  rewrite update_run. simpl. unfold put_reg; simpl.
  by rewrite gauge_set_labels.
Qed.

(** [F.labels(ls).set(expr)] *)
Lemma runs_as_compute f ls (r : exn + float) :
  runs_as (update (gauge_labels f ls);; v ← lift r; update (gauge_set f ls v))
          (compute_block f ls r).
Proof.
  intros s. unfold compute_block.
  rewrite bind_run, update_run, bind_run, lift_run.
  by destruct r as [e|v].
Qed.

Lemma runs_as_for_each {A} (body : A -> M unit) (bf : A -> block) xs :
  (forall x, runs_as (body x) (bf x)) ->
  runs_as (for_each xs body) (block_all (map bf xs)).
Proof.
  intros Hbody. induction xs as [|x xs IH]; cbn [for_each map].
  - apply runs_as_ret.
  - rewrite block_all_cons. by apply runs_as_bind.
Qed.

(** ** What each block of [stats] does *)

(** *** Host usage *)

Lemma collect_system_usage_block cfg env :
  runs_as (collect_system_usage cfg env) (system_usage_block cfg env).
Proof.
  unfold collect_system_usage, system_usage_block.
  set (h := host env). set (hn := hostname cfg).
  intros s. rewrite !block_all_cons.
  assert (forall (m1 m2 m3 k : M unit) w1 w2 w3 b,
            runs_as m1 ([w1], None) -> runs_as m2 ([w2], None) -> runs_as m3 ([w3], None) ->
            runs_as k b ->
            runs_as (m1;; m2;; m3;; k) (block_seq ([w1; w2; w3], None) b)) as H3.
  { intros m1 m2 m3 k w1 w2 w3 b H1 H2 H3 Hk.
    apply (runs_as_eq _ (block_seq ([w1], None)
             (block_seq ([w2], None) (block_seq ([w3], None) b)))); [by destruct b|].
    by repeat apply runs_as_bind. }
  apply H3; try apply runs_as_set.
  assert (forall f ls r (k : M unit) b,
            runs_as k b ->
            runs_as (update (gauge_labels f ls);; v ← lift r; update (gauge_set f ls v);; k)
                    (block_seq (compute_block f ls r) b)) as Hc.
  { intros f ls r k b Hk s0. unfold compute_block.
    rewrite bind_run, update_run, bind_run, lift_run.
    destruct r as [e|v]; [done|].
    rewrite bind_run, update_run. unfold block_seq. cbn [fst snd outcome].
    rewrite Hk. by rewrite apply_writes_app. }
  apply Hc, Hc.
  apply (runs_as_eq _ (set_block SYSTEM_USAGE ["Process-Count"; hn]
                                 (PInt (Z.of_nat (process_count h)))));
    [by rewrite block_seq_nil_r|].
  apply runs_as_set_py.
Qed.

(** With readings that convert and divide, the block writes its six samples. *)
Lemma system_usage_block_ok cfg env :
  host_numeric env = true -> host_divides env = true ->
  system_usage_block cfg env = (system_usage_writes cfg env, None).
Proof.
  unfold host_numeric, host_divides.
  intros [[[[H1 H2]%andb_true_iff H3]%andb_true_iff H4]%andb_true_iff H5]%andb_true_iff
         [D2 D4]%andb_true_iff.
  apply negb_true_iff in D2, D4.
  unfold system_usage_block, system_usage_writes.
  rewrite !block_all_cons.
  rewrite (float_ratio_fits _ _ H1 H2 D2), (float_ratio_fits _ _ H3 H4 D4).
  unfold set_block. rewrite (py_float_fits _ H5). done.
Qed.

(** Otherwise it stops with [OverflowError] or [ZeroDivisionError], the
    latter when the readings convert. *)
Lemma system_usage_block_raises cfg env :
  host_numeric env && host_divides env = false ->
  exists e, (system_usage_block cfg env).2 = Some e /\
            (e = OverflowError \/ e = ZeroDivisionError) /\
            (host_numeric env = true -> e = ZeroDivisionError).
Proof.
  unfold host_numeric, host_divides, system_usage_block. intros H.
  rewrite !block_all_cons.
  set (u1 := du_used (disk_usage_1 (host env))) in *.
  set (t2 := du_total (disk_usage_2 (host env))) in *.
  set (f3 := du_free (disk_usage_3 (host env))) in *.
  set (t4 := du_total (disk_usage_4 (host env))) in *.
  set (pc := Z.of_nat (process_count (host env))) in *.
  destruct (float_ratio u1 t2) as [e1|q1] eqn:R1.
  { exists e1. apply float_ratio_inl in R1 as (_ & He & Hn).
    split; [done|]. split; [done|]. intros Hf. apply Hn.
    revert Hf.
    intros [[[[G1 G2]%andb_true_iff _]%andb_true_iff _]%andb_true_iff _]%andb_true_iff.
    by apply andb_true_iff. }
  destruct (float_ratio f3 t4) as [e2|q2] eqn:R2.
  { exists e2. apply float_ratio_inl in R2 as (_ & He & Hn).
    split; [done|]. split; [done|]. intros Hf. apply Hn.
    revert Hf.
    intros [[[_ G3]%andb_true_iff G4]%andb_true_iff _]%andb_true_iff.
    by apply andb_true_iff. }
  unfold set_block.
  destruct (py_float (PInt pc)) as [e3|v3] eqn:R3.
  { exists e3. apply py_float_int_inl in R3 as [Hf3 ->].
    split; [done|]. split; [by left|].
    intros Hf. apply andb_true_iff in Hf as [_ Hf]. congruence. }
  exfalso.
  unfold float_ratio in R1, R2.
  destruct (py_float (PInt u1)) as [|fu1] eqn:P1; [done|].
  destruct (py_float (PInt t2)) as [|ft2] eqn:P2; [done|].
  destruct (py_float (PInt f3)) as [|ff3] eqn:P3; [done|].
  destruct (py_float (PInt t4)) as [|ft4] eqn:P4; [done|].
  apply py_float_inr in P1 as [F1 _], P2 as [F2 E2], P3 as [F3 _], P4 as [F4 E4],
    R3 as [F5 _].
  rewrite F1, F2, F3, F4, F5 in H. simpl in H.
  unfold float_truediv in R1, R2. simpl in E2, E4. subst ft2 ft4.
  rewrite float_of_Z_eq0 in R1, R2.
  destruct (t2 =? 0); [done|]. destruct (t4 =? 0); done.
Qed.

Lemma host_block_ok cfg env :
  host_ok cfg env = true -> host_block cfg env = (host_writes cfg env, None).
Proof.
  unfold host_ok, host_block, host_writes.
  destruct (COLLECT_SYSTEM_USAGE cfg); simpl; [|done].
  intros [? ?]%andb_true_iff. by apply system_usage_block_ok.
Qed.

Lemma host_block_raises cfg env :
  host_ok cfg env = false ->
  COLLECT_SYSTEM_USAGE cfg = true /\
  exists e, (host_block cfg env).2 = Some e /\
            (e = OverflowError \/ e = ZeroDivisionError) /\
            (host_numeric env = true -> e = ZeroDivisionError).
Proof.
  unfold host_ok, host_block.
  destruct (COLLECT_SYSTEM_USAGE cfg); simpl; [|done].
  intros H. split; [done|]. by apply system_usage_block_raises.
Qed.

Lemma host_block_run cfg env :
  runs_as (if COLLECT_SYSTEM_USAGE cfg then collect_system_usage cfg env else mret tt)
          (host_block cfg env).
Proof.
  unfold host_block. destruct (COLLECT_SYSTEM_USAGE cfg).
  - apply collect_system_usage_block.
  - apply runs_as_ret.
Qed.

(** *** Phase 2 *)

Lemma fetch_penalty_ledger_run cfg env addr s :
  fetch_penalty_ledger cfg env addr s =
  (inr (penalty_ledger_value cfg env addr),
   log_events (penalty_ledger_events cfg env addr) s).
Proof.
  unfold fetch_penalty_ledger, penalty_ledger_value, penalty_ledger_events.
  destruct (ALL_PENALTIES cfg).
  - rewrite bind_run, soft_fetch_run.
    destruct (resp_ledger_validators_1 env) as [e1|vs1]; simpl; [done|].
    unfold rpc, log_events.
    destruct (resp_ledger_validators_2 env) as [e2|vs2]; munfold;
      by rewrite <- ?app_assoc.
  - unfold rpc, log_events.
    destruct (resp_ledger_validator env addr) as [e|v]; munfold;
      by rewrite <- ?app_assoc.
Qed.

Lemma fetch_balance_run env owner s :
  fetch_balance env owner s = (inr (balance_value env owner), log_events (balance_events env owner) s).
Proof.
  unfold fetch_balance, balance_value, balance_events, balance_answer.
  destruct owner as [o|]; [|by rewrite log_events_nil].
  unfold rpc, log_events.
  destruct (resp_ledger_balance env o) as [e|raw]; munfold; [by rewrite <- ?app_assoc|].
  destruct (py_truediv (balance raw) (PFloat f1e8)); simpl; by rewrite <- ?app_assoc.
Qed.

(** Phase 2 never raises and never writes to the registry. *)
Lemma fetch_all_run cfg env addr s :
  fetch_all cfg env addr s = (inr (fetched cfg env addr), log_events (fetch_all_events cfg env addr) s).
Proof.
  unfold fetch_all, fetch_all_events.
  rewrite bind_run, soft_fetch_run. rewrite bind_run, soft_fetch_run.
  rewrite bind_run, fetch_penalty_ledger_run. rewrite bind_run, fetch_balance_run.
  do 4 rewrite bind_run, soft_fetch_run.
  rewrite !log_events_app, <- ?app_assoc. done.
Qed.

(** *** Phase 3 *)

Lemma publish_height_block name hi : runs_as (publish_height name hi) (height_block name hi).
Proof.
  destruct hi as [i|]; cbn [publish_height height_block]; [|apply runs_as_ret].
  apply runs_as_bind; apply runs_as_set_py.
Qed.

Lemma publish_in_consensus_block name ic :
  runs_as (publish_in_consensus name ic) (in_consensus_writes name ic, None).
Proof. destruct ic; simpl; [apply runs_as_set|apply runs_as_ret]. Qed.

Lemma publish_balance_block name bal :
  runs_as (publish_balance name bal) (balance_writes name bal, None).
Proof. destruct bal; simpl; [apply runs_as_set|apply runs_as_ret]. Qed.

Lemma publish_block_age_block name age :
  runs_as (publish_block_age name age) (block_age_block name age).
Proof. destruct age; simpl; [apply runs_as_set_py|apply runs_as_ret]. Qed.

Lemma publish_version_block name ver :
  runs_as (publish_version name ver) (version_writes name ver, None).
Proof. destruct ver; simpl; [apply runs_as_info|apply runs_as_ret]. Qed.

(** Lines 201-203. *)
Lemma ratio_then_heartbeat_block e (k : M unit) b :
  runs_as k b ->
  runs_as (positive ← lift (py_gt0 (le_tenure_penalty e));
           (if positive : bool then
              update (gauge_labels LEDGER_PENALTY (ratio_labels e));;
              total ← lift (py_add (le_performance_penalty e) (le_dkg_penalty e));
              ratio ← lift (py_truediv total (le_tenure_penalty e));
              update (gauge_set LEDGER_PENALTY (ratio_labels e) ratio)
            else mret tt);;
           k)
          (block_seq (ratio_block e) b).
Proof.
  intros Hk s. unfold ratio_block, ratio_of. rewrite bind_run, lift_run.
  destruct (py_gt0 (le_tenure_penalty e)) as [x|[|]].
  - simpl. by rewrite put_reg_id.
  - rewrite bind_run, bind_run, update_run, bind_run, lift_run.
    destruct (py_add _ _) as [x|total]; [done|].
    rewrite bind_run, lift_run.
    destruct (py_truediv total _) as [x|ratio]; [done|].
    rewrite update_run. unfold compute_block, block_seq. cbn [fst snd outcome].
    rewrite Hk. by rewrite apply_writes_app.
  - rewrite bind_run, ret_run, block_seq_nil_l. apply Hk.
Qed.

Lemma publish_ledger_entry_block e :
  runs_as (publish_ledger_entry e) (ledger_entry_block e).
Proof.
  unfold publish_ledger_entry, ledger_entry_block. rewrite !block_all_cons.
  do 4 (apply runs_as_bind; [apply runs_as_set_py|]).
  apply ratio_then_heartbeat_block.
  rewrite block_seq_nil_r. apply runs_as_set_py.
Qed.

Lemma publish_ledger_block pl : runs_as (publish_ledger pl) (ledger_block pl).
Proof.
  destruct pl as [|d|vs]; cbn [publish_ledger ledger_block].
  - apply runs_as_ret.
  - apply runs_as_bind; [apply runs_as_clear|].
    apply runs_as_for_each, publish_ledger_entry_block.
  - apply (runs_as_bind _ _ ([WClear LEDGER_PENALTY], None) ([], Some AttributeError));
      [apply runs_as_clear|apply runs_as_raise].
Qed.

Lemma publish_member_block cfg addr bba_tot seen_tot m :
  runs_as (publish_member cfg addr bba_tot seen_tot m)
          (member_block cfg addr bba_tot seen_tot m).
Proof.
  unfold publish_member, member_block, member_selected.
  destruct (bool_decide (cm_address m = addr) || ALL_HBBFT cfg); [|apply runs_as_ret].
  rewrite !block_all_cons.
  do 7 (apply runs_as_bind; [apply runs_as_set_py|]).
  rewrite block_seq_nil_r. apply runs_as_set_py.
Qed.

Lemma publish_hbbft_block cfg addr hp :
  runs_as (publish_hbbft cfg addr hp) (hbbft_block cfg addr hp).
Proof.
  destruct hp as [p|]; cbn [publish_hbbft hbbft_block]; [|apply runs_as_ret].
  apply runs_as_bind; [apply runs_as_clear|].
  apply runs_as_for_each. intros m. apply publish_member_block.
Qed.

Lemma publish_peer_book_block name pb :
  runs_as (publish_peer_book name pb) (peer_book_block name pb).
Proof.
  destruct pb as [[|e0 es]|]; cbn [publish_peer_book peer_book_block].
  - intros s. by destruct s.
  - exact (runs_as_bind _ _ _ _
      (runs_as_set_py CONNECTIONS ["connections"; name] (connection_count e0))
      (runs_as_set_py SESSIONS ["sessions"; name]
         (PInt (Z.of_nat (length (sessions e0)))))).
  - apply runs_as_ret.
Qed.

Lemma publish_all_block cfg addr name l :
  runs_as (publish_all cfg addr name l) (publish_block cfg addr name l).
Proof.
  unfold publish_all, publish_block, scalar_block, entity_block, tail_block.
  rewrite !block_all_cons.
  change (block_all []) with (([], None) : block).
  rewrite block_seq_nil_r, !block_seq_assoc.
  apply runs_as_bind; [apply publish_height_block|].
  apply runs_as_bind; [apply publish_in_consensus_block|].
  apply runs_as_bind; [apply publish_balance_block|].
  apply runs_as_bind; [apply publish_block_age_block|].
  apply runs_as_bind; [apply publish_version_block|].
  apply runs_as_bind; [apply publish_ledger_block|].
  apply runs_as_bind; [apply publish_hbbft_block|].
  apply publish_peer_book_block.
Qed.

(** *** Blocks whose numbers convert *)

Lemma forallb_Forall_true {A} (f : A -> bool) xs :
  forallb f xs = true <-> Forall (fun x => f x = true) xs.
Proof.
  induction xs as [|x xs IH]; simpl.
  - split; [constructor|done].
  - rewrite andb_true_iff, IH. split.
    + intros [? ?]. by constructor.
    + by inversion 1.
Qed.

Lemma set_block_fits f ls x :
  fits x = true -> set_block f ls x = ([WSet f ls (float_val x)], None).
Proof. intros H. unfold set_block. by rewrite (py_float_fits _ H). Qed.

Lemma height_block_numeric name hi :
  height_numeric hi = true -> height_block name hi = (height_writes name hi, None).
Proof.
  destruct hi as [i|]; simpl; [|done]. intros [H1 H2]%andb_true_iff.
  by rewrite (set_block_fits _ _ _ H1), (set_block_fits _ _ _ H2).
Qed.

Lemma block_age_block_numeric name age :
  block_age_numeric age = true -> block_age_block name age = (block_age_writes name age, None).
Proof. destruct age as [a|]; simpl; [|done]. apply set_block_fits. Qed.

Lemma ledger_entry_block_numeric e :
  entry_numeric e = true -> ledger_entry_block e = (ledger_entry_writes e, None).
Proof.
  unfold entry_numeric.
  intros [[[[[H1 H2]%andb_true_iff H3]%andb_true_iff H4]%andb_true_iff
           H5]%andb_true_iff H6]%andb_true_iff.
  unfold ledger_entry_block, ledger_entry_writes. rewrite !block_all_cons.
  rewrite (set_block_fits _ _ _ H1), (set_block_fits _ _ _ H2),
          (set_block_fits _ _ _ H3), (set_block_fits _ _ _ H4),
          (set_block_fits _ _ _ H5).
  unfold ratio_block, ratio_val. rewrite (py_gt0_fits _ H1).
  destruct (gt0 (le_tenure_penalty e)); [|done].
  by destruct (ratio_of e).
Qed.

Lemma ledger_block_numeric pl :
  ledger_numeric pl = true -> ledger_block pl = (ledger_writes pl, ledger_raises pl).
Proof.
  destruct pl as [|d|vs]; simpl; [done| |done].
  intros H. rewrite (block_all_ok _ ledger_entry_writes); [done|].
  apply forallb_Forall_true in H. eapply List.Forall_impl; [|exact H].
  intros e He. by apply ledger_entry_block_numeric.
Qed.

Lemma member_block_numeric cfg addr b t m :
  fits b = true -> fits t = true -> member_numeric m = true ->
  member_block cfg addr b t m = (member_writes cfg addr b t m, None).
Proof.
  intros Hb Ht.
  intros [[[[[H1 H2]%andb_true_iff H3]%andb_true_iff H4]%andb_true_iff
           H5]%andb_true_iff H6]%andb_true_iff.
  unfold member_block, member_writes.
  destruct (member_selected cfg addr m); [|done].
  rewrite !block_all_cons.
  by rewrite (set_block_fits _ _ _ H1), (set_block_fits _ _ _ H2),
             (set_block_fits _ _ _ H3), (set_block_fits _ _ _ H4),
             (set_block_fits _ _ _ H5), (set_block_fits _ _ _ H6),
             (set_block_fits _ _ _ Hb), (set_block_fits _ _ _ Ht).
Qed.

Lemma hbbft_block_numeric cfg addr hp :
  hbbft_numeric hp = true -> hbbft_block cfg addr hp = (hbbft_writes cfg addr hp, None).
Proof.
  destruct hp as [p|]; simpl; [|done].
  intros [[Hb Ht]%andb_true_iff H]%andb_true_iff.
  rewrite (block_all_ok _ (member_writes cfg addr (blocks_since_epoch p) (max_seen p)));
    [done|].
  apply forallb_Forall_true in H. eapply List.Forall_impl; [|exact H].
  intros m Hm. by apply member_block_numeric.
Qed.

Lemma peer_book_block_numeric name pb :
  peer_book_numeric pb = true ->
  peer_book_block name pb = (peer_book_writes name pb, peer_book_raises pb).
Proof.
  destruct pb as [[|e0 es]|];
    cbn [peer_book_numeric peer_book_block peer_book_writes peer_book_raises];
    [done| |done].
  intros [H1 H2]%andb_true_iff.
  by rewrite (set_block_fits _ _ _ H1), (set_block_fits _ _ _ H2).
Qed.

Lemma scalar_block_numeric name l :
  height_numeric (height_info_ l) = true ->
  block_age_numeric (block_age_ l) = true ->
  scalar_block name l = (scalar_writes name l, None).
Proof.
  intros Hh Ha. unfold scalar_block, scalar_writes. rewrite !block_all_cons.
  rewrite (height_block_numeric _ _ Hh), (block_age_block_numeric _ _ Ha).
  change (block_all []) with (([], None) : block).
  unfold block_seq. simpl. by rewrite app_nil_r.
Qed.

(** ** One cycle as a whole *)

Lemma stats_addr_fails cfg env e s :
  resp_addr env = inl e ->
  stats cfg env s =
  (inr tt, {| reg := observe (elapsed env) (reg s);
              trace := trace s ++ [Rpc CallAddr; LogError "can't get validator's address"] |}).
Proof.
  intros E. unfold stats, timed, stats_body.
  by rewrite bind_run, soft_fetch_run, E.
Qed.

Lemma stats_name_fails cfg env addr e s :
  resp_addr env = inr addr ->
  resp_name env = inl e ->
  stats cfg env s =
  (inr tt, {| reg := observe (elapsed env) (reg s);
              trace := trace s ++ [Rpc CallAddr; Rpc CallName;
                                   LogError "can't get validator's name"] |}).
Proof.
  intros Ea En. unfold stats, timed, stats_body.
  rewrite bind_run, soft_fetch_run, Ea. simpl.
  rewrite bind_run, soft_fetch_run, En. simpl.
  by rewrite <- app_assoc.
Qed.

(** Past the identity gate, a host-usage block that raises ends the cycle
    before phase 2. *)
Lemma stats_host_raises cfg env addr name e s :
  resp_addr env = inr addr ->
  resp_name env = inr name ->
  (host_block cfg env).2 = Some e ->
  stats cfg env s =
  (inl e, {| reg := observe (elapsed env) (apply_writes (host_block cfg env).1 (reg s));
             trace := trace s ++ [Rpc CallAddr; Rpc CallName] |}).
Proof.
  intros Ea En He. unfold stats, timed, stats_body.
  rewrite bind_run, soft_fetch_run, Ea. simpl.
  rewrite bind_run, soft_fetch_run, En. simpl.
  rewrite bind_run, host_block_run, He. simpl. by rewrite <- app_assoc.
Qed.

(** Past the identity gate and the host-usage block, a cycle is its fetches
    followed by the writes of phase 3 up to the point where it raises. *)
Lemma stats_block cfg env addr name s :
  resp_addr env = inr addr ->
  resp_name env = inr name ->
  host_ok cfg env = true ->
  stats cfg env s =
  (outcome (publish_block cfg addr name (fetched cfg env addr)).2,
   {| reg := observe (elapsed env) (apply_writes (cycle_block_writes cfg env addr name) (reg s));
      trace := trace s ++ cycle_events cfg env addr |}).
Proof.
  intros Ea En Hh. unfold stats, timed, stats_body.
  rewrite bind_run, soft_fetch_run, Ea. simpl.
  rewrite bind_run, soft_fetch_run, En. simpl.
  rewrite bind_run, host_block_run, (host_block_ok _ _ Hh). simpl.
  rewrite bind_run, fetch_all_run, publish_all_block.
  unfold cycle_block_writes, cycle_events, put_reg, log_events; simpl.
  by rewrite apply_writes_app, <- !app_assoc.
Qed.

(** The blocks before the ledger block, with numbers that convert. *)
Lemma publish_block_scalars cfg env addr name :
  scalars_numeric env = true ->
  publish_block cfg addr name (fetched cfg env addr) =
  block_seq (scalar_writes name (fetched cfg env addr), None)
            (entity_block cfg addr name (fetched cfg env addr)).
Proof.
  intros [Hh Ha]%andb_true_iff. unfold publish_block.
  by rewrite scalar_block_numeric.
Qed.

Lemma publish_block_ledger cfg env addr name :
  ledger_answers_numeric cfg env addr = true ->
  publish_block cfg addr name (fetched cfg env addr) =
  block_seq ((scalar_writes name (fetched cfg env addr) ++
              ledger_writes (penalty_ledger_value cfg env addr))%list,
             ledger_raises (penalty_ledger_value cfg env addr))
            (tail_block cfg addr name (fetched cfg env addr)).
Proof.
  intros [Hs Hl]%andb_true_iff. rewrite (publish_block_scalars _ _ _ _ Hs).
  unfold entity_block. cbn [fetched penalty_ledger_].
  rewrite (ledger_block_numeric _ Hl), <- block_seq_assoc. done.
Qed.



(** ** Which families a block writes to *)

Lemma writes_within_nil fs : writes_within fs [].
Proof. constructor. Qed.

Lemma writes_within_app fs ws ws' :
  writes_within fs ws -> writes_within fs ws' -> writes_within fs (ws ++ ws').
Proof. apply Forall_app_2. Qed.

Lemma writes_within_concat {A} fs (w : A -> list write) xs :
  (forall x, writes_within fs (w x)) -> writes_within fs (concat (map w xs)).
Proof.
  intros H. induction xs as [|x xs IH]; simpl; [constructor|].
  by apply writes_within_app.
Qed.

Lemma writes_within_weaken fs fs' ws :
  fs ⊆ fs' -> writes_within fs ws -> writes_within fs' ws.
Proof. intros Hsub. apply List.Forall_impl. intros w Hw. by apply Hsub. Qed.

Lemma writes_within_frame fs ws f g :
  writes_within fs ws -> Some f ∉ fs -> foldl (write_family f) g ws = g.
Proof.
  intros Hw Hf. apply foldl_write_family_other.
  eapply List.Forall_impl; [|exact Hw]. simpl. intros w Hin E. by rewrite E in Hin.
Qed.

Lemma writes_within_frame_info fs ws i :
  writes_within fs ws -> None ∉ fs -> foldl write_info i ws = i.
Proof.
  intros Hw Hf. apply foldl_write_info_other.
  eapply List.Forall_impl; [|exact Hw]. simpl. intros w Hin E. by rewrite E in Hin.
Qed.

Ltac within := repeat (constructor; simpl).

Ltac not_within :=
  let H := fresh in
  intros H;
  repeat (apply elem_of_cons in H as [H|H]; [discriminate H|]);
  by apply elem_of_nil in H.

Lemma system_usage_writes_within cfg env :
  writes_within [Some SYSTEM_USAGE] (system_usage_writes cfg env).
Proof. within. Qed.

Lemma host_writes_within cfg env : writes_within [Some SYSTEM_USAGE] (host_writes cfg env).
Proof.
  unfold host_writes. destruct (COLLECT_SYSTEM_USAGE cfg);
    [apply system_usage_writes_within | constructor].
Qed.

Lemma height_writes_within name hi :
  writes_within [Some VAL; Some CHAIN_STATS] (height_writes name hi).
Proof. destruct hi; within. Qed.

Lemma in_consensus_writes_within name ic :
  writes_within [Some INCON] (in_consensus_writes name ic).
Proof. destruct ic; within. Qed.

Lemma balance_writes_within name bal :
  writes_within [Some BALANCE] (balance_writes name bal).
Proof. destruct bal; within. Qed.

Lemma block_age_writes_within name age :
  writes_within [Some BLOCKAGE] (block_age_writes name age).
Proof. destruct age; within. Qed.

Lemma version_writes_within name ver : writes_within [None] (version_writes name ver).
Proof. destruct ver; within. Qed.

Lemma ledger_entry_writes_within e :
  writes_within [Some LEDGER_PENALTY; Some HEARTBEAT] (ledger_entry_writes e).
Proof. unfold ledger_entry_writes. destruct (gt0 _); within. Qed.

Lemma ledger_writes_within pl :
  writes_within [Some LEDGER_PENALTY; Some HEARTBEAT] (ledger_writes pl).
Proof.
  destruct pl as [|d|vs]; simpl; [constructor| |within].
  constructor; [within|].
  apply writes_within_concat, ledger_entry_writes_within.
Qed.

Lemma member_writes_within cfg addr b t m :
  writes_within [Some HBBFT_PERF] (member_writes cfg addr b t m).
Proof. unfold member_writes. destruct (member_selected _ _ _); within. Qed.

Lemma hbbft_writes_within cfg addr hp :
  writes_within [Some HBBFT_PERF] (hbbft_writes cfg addr hp).
Proof.
  destruct hp as [p|]; simpl; [|constructor].
  constructor; [within|].
  apply writes_within_concat, member_writes_within.
Qed.

Lemma peer_book_writes_within name pb :
  writes_within [Some CONNECTIONS; Some SESSIONS] (peer_book_writes name pb).
Proof. destruct pb as [[|e0 es]|]; within. Qed.

Lemma scalar_writes_within name l :
  writes_within [Some VAL; Some CHAIN_STATS; Some INCON; Some BALANCE; Some BLOCKAGE; None]
                (scalar_writes name l).
Proof.
  unfold scalar_writes. repeat apply writes_within_app.
  - destruct (height_info_ l); within.
  - destruct (in_consensus_ l); within.
  - destruct (balance_ l); within.
  - destruct (block_age_ l); within.
  - destruct (version_ l); within.
Qed.

(** *** Blocks in general: a property of every write a block can perform *)

Lemma block_seq_Forall (P : write -> Prop) b1 b2 :
  Forall P b1.1 -> Forall P b2.1 -> Forall P (block_seq b1 b2).1.
Proof.
  destruct b1 as [ws1 [e|]]; unfold block_seq; simpl; [done|].
  intros. by apply Forall_app_2.
Qed.

Lemma block_all_Forall (P : write -> Prop) bs :
  Forall (fun b => Forall P b.1) bs -> Forall P (block_all bs).1.
Proof.
  induction 1 as [|b bs Hb _ IH]; [constructor|].
  rewrite block_all_cons. by apply block_seq_Forall.
Qed.

Lemma block_all_map_Forall {A} (P : write -> Prop) (bf : A -> block) xs :
  (forall x, Forall P (bf x).1) -> Forall P (block_all (map bf xs)).1.
Proof.
  intros H. apply block_all_Forall. induction xs as [|x xs IH]; by constructor.
Qed.

Lemma set_block_Forall (P : write -> Prop) f ls x :
  (forall v, P (WSet f ls v)) -> P (WLabels f ls) -> Forall P (set_block f ls x).1.
Proof. intros Hs Hl. unfold set_block. destruct (py_float x); repeat constructor; done. Qed.

Lemma compute_block_Forall (P : write -> Prop) f ls r :
  (forall v, P (WSet f ls v)) -> P (WLabels f ls) -> Forall P (compute_block f ls r).1.
Proof. intros Hs Hl. unfold compute_block. destruct r; repeat constructor; done. Qed.

(** A block built from sets, computed sets and explicit writes. *)
Ltac blocks :=
  repeat first
    [ apply block_seq_Forall
    | apply block_all_map_Forall; intros ?
    | apply block_all_Forall
    | apply set_block_Forall; [intros ?|]
    | apply compute_block_Forall; [intros ?|]
    | constructor; simpl ].

Lemma system_usage_block_within cfg env :
  writes_within [Some SYSTEM_USAGE] (system_usage_block cfg env).1.
Proof. unfold system_usage_block, writes_within. blocks. Qed.

Lemma host_block_within cfg env : writes_within [Some SYSTEM_USAGE] (host_block cfg env).1.
Proof.
  unfold host_block. destruct (COLLECT_SYSTEM_USAGE cfg);
    [apply system_usage_block_within | constructor].
Qed.

Lemma height_block_within name hi :
  writes_within [Some VAL; Some CHAIN_STATS] (height_block name hi).1.
Proof. destruct hi; cbn [height_block]; unfold writes_within; blocks. Qed.

Lemma block_age_block_within name age :
  writes_within [Some BLOCKAGE] (block_age_block name age).1.
Proof. destruct age; cbn [block_age_block]; unfold writes_within; blocks. Qed.

Lemma ratio_block_within e : writes_within [Some LEDGER_PENALTY] (ratio_block e).1.
Proof.
  unfold ratio_block, writes_within. destruct (py_gt0 _) as [|[|]]; blocks.
Qed.

Lemma ledger_entry_block_within e :
  writes_within [Some LEDGER_PENALTY; Some HEARTBEAT] (ledger_entry_block e).1.
Proof.
  unfold ledger_entry_block, writes_within.
  repeat first
    [ apply block_all_Forall
    | apply set_block_Forall; [intros ?|]
    | apply (writes_within_weaken [Some LEDGER_PENALTY]);
        [set_solver|apply ratio_block_within]
    | constructor; simpl ].
Qed.

Lemma ledger_block_within pl :
  writes_within [Some LEDGER_PENALTY; Some HEARTBEAT] (ledger_block pl).1.
Proof.
  destruct pl as [|d|vs]; cbn [ledger_block]; [constructor| |within].
  apply block_seq_Forall; [within|].
  apply block_all_map_Forall, ledger_entry_block_within.
Qed.

Lemma member_block_within cfg addr b t m :
  writes_within [Some HBBFT_PERF] (member_block cfg addr b t m).1.
Proof.
  unfold member_block, writes_within. destruct (member_selected _ _ _); blocks.
Qed.

Lemma hbbft_block_within cfg addr hp :
  writes_within [Some HBBFT_PERF] (hbbft_block cfg addr hp).1.
Proof.
  destruct hp as [p|]; cbn [hbbft_block]; [|constructor].
  apply block_seq_Forall; [within|].
  apply block_all_map_Forall. intros m. apply member_block_within.
Qed.

Lemma peer_book_block_within name pb :
  writes_within [Some CONNECTIONS; Some SESSIONS] (peer_book_block name pb).1.
Proof.
  destruct pb as [[|e0 es]|]; cbn [peer_book_block]; unfold writes_within; blocks.
Qed.

Lemma tail_block_within cfg addr name l :
  writes_within [Some HBBFT_PERF; Some CONNECTIONS; Some SESSIONS]
                (tail_block cfg addr name l).1.
Proof.
  unfold tail_block. apply block_seq_Forall.
  - apply (writes_within_weaken [Some HBBFT_PERF]); [set_solver|apply hbbft_block_within].
  - apply (writes_within_weaken [Some CONNECTIONS; Some SESSIONS]);
      [set_solver|apply peer_book_block_within].
Qed.

Lemma entity_block_within cfg addr name l :
  writes_within [Some LEDGER_PENALTY; Some HEARTBEAT; Some HBBFT_PERF;
                 Some CONNECTIONS; Some SESSIONS]
                (entity_block cfg addr name l).1.
Proof.
  unfold entity_block. apply block_seq_Forall.
  - apply (writes_within_weaken [Some LEDGER_PENALTY; Some HEARTBEAT]);
      [set_solver|apply ledger_block_within].
  - apply (writes_within_weaken [Some HBBFT_PERF; Some CONNECTIONS; Some SESSIONS]);
      [set_solver|apply tail_block_within].
Qed.

(** The blocks that follow the height block and come before the ledger block. *)
Lemma scalar_block_within name l :
  writes_within [Some VAL; Some CHAIN_STATS; Some INCON; Some BALANCE; Some BLOCKAGE; None]
                (scalar_block name l).1.
Proof.
  unfold scalar_block. apply block_all_Forall.
  repeat apply List.Forall_cons; try apply List.Forall_nil; cbn [fst].
  - apply (writes_within_weaken [Some VAL; Some CHAIN_STATS]);
      [set_solver|apply height_block_within].
  - destruct (in_consensus_ l); within.
  - destruct (balance_ l); within.
  - apply (writes_within_weaken [Some BLOCKAGE]); [set_solver|apply block_age_block_within].
  - destruct (version_ l); within.
Qed.

Lemma publish_block_within cfg addr name l :
  writes_within [Some VAL; Some CHAIN_STATS; Some INCON; Some BALANCE; Some BLOCKAGE; None;
                 Some LEDGER_PENALTY; Some HEARTBEAT; Some HBBFT_PERF;
                 Some CONNECTIONS; Some SESSIONS]
                (publish_block cfg addr name l).1.
Proof.
  unfold publish_block. apply block_seq_Forall.
  - eapply writes_within_weaken; [|apply scalar_block_within]. set_solver.
  - eapply writes_within_weaken; [|apply entity_block_within]. set_solver.
Qed.

Create HintDb within discriminated.
#[global] Hint Resolve system_usage_writes_within host_writes_within height_writes_within
  in_consensus_writes_within balance_writes_within block_age_writes_within
  version_writes_within ledger_entry_writes_within ledger_writes_within
  member_writes_within hbbft_writes_within peer_book_writes_within
  scalar_writes_within system_usage_block_within host_block_within height_block_within
  block_age_block_within ledger_block_within hbbft_block_within peer_book_block_within
  tail_block_within entity_block_within scalar_block_within publish_block_within
  writes_within_nil : within.

(** Drop from a family's fold the blocks that write elsewhere. *)
Ltac frame :=
  repeat first
    [ rewrite foldl_app
    | match goal with
      | |- context [foldl (write_family ?f) ?g ?ws] =>
          erewrite (writes_within_frame _ ws f g)
            by first [solve [eauto with within] | not_within]
      | |- context [foldl write_info ?i ?ws] =>
          erewrite (writes_within_frame_info _ ws i)
            by first [solve [eauto with within] | not_within]
      end ].

(** ** The families after a cycle, stage by stage *)

Lemma gauges_after_cycle cfg env addr name s f :
  resp_addr env = inr addr ->
  resp_name env = inr name ->
  host_ok cfg env = true ->
  gauges (reg (stats cfg env s).2) f =
  foldl (write_family f) (gauges (reg s) f) (cycle_block_writes cfg env addr name).
Proof.
  intros Ea En Hh. rewrite (stats_block cfg env addr name s Ea En Hh). cbn [snd reg].
  by rewrite gauges_observe, gauges_apply_writes.
Qed.

Lemma version_after_cycle cfg env addr name s :
  resp_addr env = inr addr ->
  resp_name env = inr name ->
  host_ok cfg env = true ->
  VALIDATOR_VERSION (reg (stats cfg env s).2) =
  foldl write_info (VALIDATOR_VERSION (reg s)) (cycle_block_writes cfg env addr name).
Proof.
  intros Ea En Hh. rewrite (stats_block cfg env addr name s Ea En Hh). cbn [snd reg].
  change (VALIDATOR_VERSION (observe ?d ?r)) with (VALIDATOR_VERSION r).
  by rewrite version_apply_writes.
Qed.

Lemma cycle_block_writes_scalars cfg env addr name :
  scalars_numeric env = true ->
  cycle_block_writes cfg env addr name =
  (host_writes cfg env ++ scalar_writes name (fetched cfg env addr) ++
   (entity_block cfg addr name (fetched cfg env addr)).1)%list.
Proof.
  intros Hs. unfold cycle_block_writes. by rewrite (publish_block_scalars _ _ _ _ Hs).
Qed.

Lemma cycle_block_writes_ledger cfg env addr name :
  ledger_answers_numeric cfg env addr = true ->
  cycle_block_writes cfg env addr name =
  (host_writes cfg env ++ scalar_writes name (fetched cfg env addr) ++
   ledger_writes (penalty_ledger_value cfg env addr) ++
   match ledger_raises (penalty_ledger_value cfg env addr) with
   | Some _ => []
   | None => (tail_block cfg addr name (fetched cfg env addr)).1
   end)%list.
Proof.
  intros Hl. unfold cycle_block_writes. rewrite (publish_block_ledger _ _ _ _ Hl).
  unfold block_seq. cbn [fst snd].
  destruct (ledger_raises _); cbn [fst]; by rewrite ?app_nil_r, <- ?app_assoc.
Qed.

Lemma cycle_block_writes_hbbft cfg env addr name :
  hbbft_answers_numeric cfg env addr = true ->
  cycle_block_writes cfg env addr name =
  (host_writes cfg env ++ scalar_writes name (fetched cfg env addr) ++
   ledger_writes (penalty_ledger_value cfg env addr) ++
   match ledger_raises (penalty_ledger_value cfg env addr) with
   | Some _ => []
   | None => hbbft_writes cfg addr (fetched_value (resp_hbbft_perf env)) ++
             (peer_book_block name (fetched_value (resp_peer_book_self env))).1
   end)%list.
Proof.
  intros [Hl Hh]%andb_true_iff. rewrite (cycle_block_writes_ledger _ _ _ _ Hl).
  unfold tail_block. cbn [fetched hbbft_perf_ peer_book_info_].
  by rewrite (hbbft_block_numeric _ _ _ Hh).
Qed.

(** The outcome of a cycle whose numbers convert up to the HBBFT block
    and whose ledger block does not raise is the outcome of the peer-book
    block. *)
Lemma cycle_outcome_hbbft cfg env addr name :
  hbbft_answers_numeric cfg env addr = true ->
  ledger_raises (penalty_ledger_value cfg env addr) = None ->
  (publish_block cfg addr name (fetched cfg env addr)).2 =
  (peer_book_block name (fetched_value (resp_peer_book_self env))).2.
Proof.
  intros [Hl Hh]%andb_true_iff Hr. rewrite (publish_block_ledger _ _ _ _ Hl).
  unfold tail_block, block_seq. cbn [fetched hbbft_perf_ peer_book_info_ fst snd].
  by rewrite Hr, (hbbft_block_numeric _ _ _ Hh).
Qed.

(** The same when the ledger block raises. *)
Lemma cycle_outcome_ledger cfg env addr name e :
  scalars_numeric env = true ->
  ledger_raises (penalty_ledger_value cfg env addr) = Some e ->
  publish_block cfg addr name (fetched cfg env addr) =
  ((scalar_writes name (fetched cfg env addr) ++ [WClear LEDGER_PENALTY])%list, Some e).
Proof.
  intros Hs Hr. rewrite (publish_block_scalars _ _ _ _ Hs).
  unfold entity_block. cbn [fetched penalty_ledger_].
  destruct (penalty_ledger_value cfg env addr) as [|d|vs]; [done..|].
  simpl in Hr. injection Hr as <-. done.
Qed.

(** ** The identity gate (lines 75-91) *)

(** C3, as amended: when the address or the name cannot be fetched, the
    cycle returns at once without raising, attempts no further fetch, and
    leaves every gauge family and the version record as they were; the one
    metric that moves is the cycle-timing summary, which records one more
    observation. *)
Theorem identity_gate_frame cfg env s :
  identity_fails env = true ->
  (stats cfg env s).1 = inr tt /\
  gauges (reg (stats cfg env s).2) = gauges (reg s) /\
  VALIDATOR_VERSION (reg (stats cfg env s).2) = VALIDATOR_VERSION (reg s) /\
  SCRAPE_TIME (reg (stats cfg env s).2) =
    {| sum_count := S (sum_count (SCRAPE_TIME (reg s)));
       sum_total := fadd (sum_total (SCRAPE_TIME (reg s))) (elapsed env) |} /\
  (trace (stats cfg env s).2 =
     (trace s ++ [Rpc CallAddr; LogError "can't get validator's address"])%list \/
   trace (stats cfg env s).2 =
     (trace s ++ [Rpc CallAddr; Rpc CallName; LogError "can't get validator's name"])%list).
Proof.
  unfold identity_fails. intros H.
  destruct (resp_addr env) as [e|addr] eqn:Ea.
  - rewrite (stats_addr_fails cfg env e s Ea). simpl. auto 6.
  - destruct (resp_name env) as [e|name] eqn:En; [|done].
    rewrite (stats_name_fails cfg env addr e s Ea En). simpl. auto 6.
Qed.

Lemma identity_gate_frame_witness :
  identity_fails env_addr_down = true /\
  gauges (reg (stats cfg_default env_addr_down state1).2) = gauges (reg state1).
Proof.
  split; [reflexivity|].
  apply (identity_gate_frame cfg_default env_addr_down state1). reflexivity.
Defined.

(** C3 as stated fails: a cycle stopped at the identity gate still changes
    a published metric, the scrape-time summary. *)
Lemma identity_gate_moves_scrape_time :
  identity_fails env_addr_down = true /\
  sum_count (SCRAPE_TIME (reg state0)) = 0%nat /\
  sum_count (SCRAPE_TIME (reg (stats cfg_default env_addr_down state0).2)) = 1%nat /\
  reg (stats cfg_default env_addr_down state0).2 <> reg state0.
Proof.
  split_and!; try (vm_compute; reflexivity).
  intros E. apply (f_equal (fun r => sum_count (SCRAPE_TIME r))) in E.
  vm_compute in E. discriminate.
Qed.

(** A cycle stopped at the gate writes to no gauge family. *)
Lemma gauges_at_gate cfg env s f :
  identity_fails env = true ->
  gauges (reg (stats cfg env s).2) f = gauges (reg s) f.
Proof.
  unfold identity_fails. intros H.
  destruct (resp_addr env) as [e|addr] eqn:Ea.
  - by rewrite (stats_addr_fails cfg env e s Ea).
  - destruct (resp_name env) as [e|name] eqn:En; [|done].
    by rewrite (stats_name_fails cfg env addr e s Ea En).
Qed.

(** ** Host usage (lines 93-101) *)

Lemma write_family_labels_set f g ls v :
  write_family f (write_family f g (WLabels f ls)) (WSet f ls v) = <[ls := v]> g.
Proof.
  simpl. rewrite !decide_True by done.
  destruct (g !! ls); [done|]. by rewrite insert_insert_eq.
Qed.

Lemma system_usage_family cfg env g :
  foldl (write_family SYSTEM_USAGE) g (system_usage_writes cfg env) =
  let h := host env in
  let hn := hostname cfg in
  <[ ["Process-Count"; hn] := float_of_Z (Z.of_nat (process_count h)) ]>
  (<[ ["Disk Free"; hn] := float_quot (du_free (disk_usage_3 h)) (du_total (disk_usage_4 h)) ]>
  (<[ ["Disk Used"; hn] := float_quot (du_used (disk_usage_1 h)) (du_total (disk_usage_2 h)) ]>
  (<[ ["CPU-Steal"; hn] := cpu_steal h ]>
  (<[ ["Memory"; hn] := virtual_memory_percent h ]>
  (<[ ["CPU"; hn] := cpu_percent h ]> g))))).
Proof.
  unfold system_usage_writes.
  cbn [foldl]. rewrite !write_family_labels_set.
  cbn [write_family]. by rewrite !decide_True by done.
Qed.

(** The host-usage family after a cycle that passed the identity gate. *)
Lemma system_usage_after_cycle cfg env addr name s :
  resp_addr env = inr addr ->
  resp_name env = inr name ->
  host_ok cfg env = true ->
  gauges (reg (stats cfg env s).2) SYSTEM_USAGE =
  foldl (write_family SYSTEM_USAGE) (gauges (reg s) SYSTEM_USAGE) (host_writes cfg env).
Proof.
  intros Ea En Hh. rewrite (gauges_after_cycle cfg env addr name s _ Ea En Hh).
  unfold cycle_block_writes. by frame.
Qed.

(** C7, as amended: with the host-usage flag on, every cycle that passes
    the identity gate publishes the six host readings under
    (resource type, hostname), whatever the later fetches of the cycle
    answer, provided the disk numbers and the process count are within the
    range of the floats and the two disk totals it divides by are not zero;
    the two disk fractions are the float quotients of the converted
    numbers. A cycle stopped at the identity gate leaves the host-usage
    family as it was. *)
Theorem host_usage_published_past_gate cfg env s :
  COLLECT_SYSTEM_USAGE cfg = true ->
  (forall addr name,
     resp_addr env = inr addr ->
     resp_name env = inr name ->
     host_numeric env = true ->
     host_divides env = true ->
     let g := gauges (reg (stats cfg env s).2) SYSTEM_USAGE in
     let h := host env in
     let hn := hostname cfg in
     g !! ["CPU"; hn] = Some (cpu_percent h) /\
     g !! ["Memory"; hn] = Some (virtual_memory_percent h) /\
     g !! ["CPU-Steal"; hn] = Some (cpu_steal h) /\
     g !! ["Disk Used"; hn] =
       Some (fdiv (float_of_Z (du_used (disk_usage_1 h)))
                  (float_of_Z (du_total (disk_usage_2 h)))) /\
     g !! ["Disk Free"; hn] =
       Some (fdiv (float_of_Z (du_free (disk_usage_3 h)))
                  (float_of_Z (du_total (disk_usage_4 h)))) /\
     g !! ["Process-Count"; hn] = Some (float_of_Z (Z.of_nat (process_count h)))) /\
  (identity_fails env = true ->
   gauges (reg (stats cfg env s).2) SYSTEM_USAGE = gauges (reg s) SYSTEM_USAGE).
Proof.
  intros Hc. split.
  - intros addr name Ea En Hn Hd. simpl.
    rewrite (system_usage_after_cycle cfg env addr name s Ea En)
      by (unfold host_ok; rewrite Hn, Hd; apply orb_true_r).
    unfold host_writes. rewrite Hc, system_usage_family. simpl. unfold float_quot.
    repeat split; by simplify_map_eq.
  - apply gauges_at_gate.
Qed.

Lemma host_usage_published_past_gate_witness :
  gauges (reg (stats cfg_usage env_peers_down state0).2) SYSTEM_USAGE
    !! ["Disk Used"; "val-host"] = Some (S754_finite false 7205759403792794 (-54)) /\
  Q_of_float (S754_finite false 7205759403792794 (-54)) =
    (7205759403792794 # 18014398509481984)%Q.
Proof.
  split; [|reflexivity].
  exact (proj1 (proj2 (proj2 (proj2
           (proj1 (host_usage_published_past_gate cfg_usage env_peers_down state0 eq_refl)
                  "A1" "N1" eq_refl eq_refl eq_refl eq_refl))))).
Defined.

(** C7 as stated fails: with the flag on and the address fetch failing,
    the cycle publishes no host reading at all. *)
Lemma host_usage_skipped_at_gate :
  COLLECT_SYSTEM_USAGE cfg_usage = true /\
  identity_fails env_addr_down = true /\
  gauges (reg (stats cfg_usage env_addr_down state0).2) SYSTEM_USAGE = ∅.
Proof. split_and!; vm_compute; reflexivity. Qed.

(** ** The driver loop (lines 234-242) *)



Lemma reg_sleep p s : reg (sleep p s).2 = reg s.
Proof. unfold sleep. by destruct (p <? 0). Qed.

Lemma loop_iteration_returns cfg (cycle : M unit) s s' :
  cycle s = (inr tt, s') ->
  loop_iteration cfg cycle s = sleep (UPDATE_PERIOD cfg) s'.
Proof.
  intros E. unfold loop_iteration, try_except_ValueError. rewrite bind_run. by rewrite E.
Qed.

Lemma loop_iteration_raises cfg (cycle : M unit) s e s' :
  cycle s = (inl e, s') ->
  loop_iteration cfg cycle s =
  if is_ValueError e
  then sleep (UPDATE_PERIOD cfg) (log_events [LogError "stats loop failed."] s')
  else (inl e, s').
Proof.
  intros E. unfold loop_iteration, try_except_ValueError. rewrite bind_run, E.
  by destruct (is_ValueError e).
Qed.

Lemma main_loop_raises cfg (cycle : M unit) (later : list (M unit)) s e :
  (cycle s).1 = inl e ->
  is_ValueError e = false ->
  main_loop cfg (cycle :: later) s = (inl e, (cycle s).2).
Proof.
  intros E V. destruct (cycle s) as [o s'] eqn:C. simpl in E. subst o.
  simpl. by rewrite bind_run, (loop_iteration_raises cfg cycle s e s' C), V.
Qed.




(** ** Which families a block clears *)

Lemma clears_within_app fs ws ws' :
  clears_within fs ws -> clears_within fs ws' -> clears_within fs (ws ++ ws').
Proof. apply Forall_app_2. Qed.

Lemma clears_within_concat {A} fs (w : A -> list write) xs :
  (forall x, clears_within fs (w x)) -> clears_within fs (concat (map w xs)).
Proof.
  intros H. induction xs as [|x xs IH]; simpl; [constructor|].
  by apply clears_within_app.
Qed.

Lemma clears_within_not_elem fs ws f : clears_within fs ws -> f ∉ fs -> WClear f ∉ ws.
Proof.
  intros Hc Hf Hin. unfold clears_within in Hc.
  rewrite Forall_forall in Hc. by specialize (Hc _ Hin).
Qed.

Lemma clears_within_weaken fs fs' ws :
  fs ⊆ fs' -> clears_within fs ws -> clears_within fs' ws.
Proof.
  intros Hsub. apply List.Forall_impl. intros [] Hw; try done. by apply Hsub.
Qed.

Ltac clears := repeat (constructor; simpl).

Lemma host_block_clears cfg env : clears_within [] (host_block cfg env).1.
Proof.
  unfold host_block, system_usage_block, clears_within.
  destruct (COLLECT_SYSTEM_USAGE cfg); blocks.
Qed.

Lemma ledger_entry_block_clears e : clears_within [] (ledger_entry_block e).1.
Proof.
  unfold ledger_entry_block, ratio_block, clears_within.
  destruct (py_gt0 _) as [|[|]]; blocks.
Qed.

Lemma member_block_clears cfg addr b t m : clears_within [] (member_block cfg addr b t m).1.
Proof.
  unfold member_block, clears_within. destruct (member_selected _ _ _); blocks.
Qed.

Lemma publish_block_clears cfg addr name l :
  clears_within [LEDGER_PENALTY; HBBFT_PERF] (publish_block cfg addr name l).1.
Proof.
  unfold publish_block, scalar_block, entity_block, tail_block.
  apply block_seq_Forall; [apply block_all_Forall; repeat apply List.Forall_cons;
                            try apply List.Forall_nil; cbn [fst]|].
  - unfold height_block. destruct (height_info_ l); blocks.
  - destruct (in_consensus_ l); clears.
  - destruct (balance_ l); clears.
  - unfold block_age_block. destruct (block_age_ l); blocks.
  - destruct (version_ l); clears.
  - repeat apply block_seq_Forall.
    + destruct (penalty_ledger_ l) as [|d|vs]; cbn [ledger_block]; [clears| |clears].
      apply block_seq_Forall; [clears|]. apply block_all_map_Forall. intros e.
      apply (clears_within_weaken []); [set_solver|apply ledger_entry_block_clears].
    + destruct (hbbft_perf_ l) as [p|]; cbn [hbbft_block]; [|clears].
      apply block_seq_Forall; [clears|]. apply block_all_map_Forall. intros m.
      apply (clears_within_weaken []); [set_solver|apply member_block_clears].
    + unfold peer_book_block. destruct (peer_book_info_ l) as [[|e0 es]|]; blocks.
Qed.

Lemma cycle_block_writes_clears cfg env addr name :
  clears_within [LEDGER_PENALTY; HBBFT_PERF] (cycle_block_writes cfg env addr name).
Proof.
  unfold cycle_block_writes. apply clears_within_app; [|apply publish_block_clears].
  unfold host_writes. destruct (COLLECT_SYSTEM_USAGE cfg); clears.
Qed.

(** *** A cycle in general: whatever the answers and the host readings *)

(** Every cycle, failed or not, amounts to a sequence of writes that clears
    no family but the ledger-penalty and HBBFT ones, followed by the timer's
    observation. *)
Lemma stats_any cfg env s :
  exists ws,
    reg (stats cfg env s).2 = observe (elapsed env) (apply_writes ws (reg s)) /\
    clears_within [LEDGER_PENALTY; HBBFT_PERF] ws /\
    (identity_fails env = true -> ws = []) /\
    (identity_fails env = false -> host_ok cfg env = false ->
     writes_within [Some SYSTEM_USAGE] ws).
Proof.
  destruct (resp_addr env) as [e|addr] eqn:Ea.
  { exists []. rewrite (stats_addr_fails cfg env e s Ea). split_and!; try done.
    - constructor.
    - unfold identity_fails. by rewrite Ea. }
  destruct (resp_name env) as [e|name] eqn:En.
  { exists []. rewrite (stats_name_fails cfg env addr e s Ea En). split_and!; try done.
    - constructor.
    - unfold identity_fails. by rewrite Ea, En. }
  assert (identity_fails env = false) as Hid by (unfold identity_fails; by rewrite Ea, En).
  destruct (host_ok cfg env) eqn:Hh.
  { exists (cycle_block_writes cfg env addr name).
    rewrite (stats_block cfg env addr name s Ea En Hh). split_and!; try done.
    - apply cycle_block_writes_clears.
    - congruence. }
  destruct (host_block_raises cfg env Hh) as (_ & e & He & _).
  exists (host_block cfg env).1.
  rewrite (stats_host_raises cfg env addr name e s Ea En He). split_and!.
  - done.
  - apply (clears_within_weaken []); [set_solver|apply host_block_clears].
  - congruence.
  - intros _ _. apply host_block_within.
Qed.

(** ** Families that are never cleared *)

Lemma stats_keeps_labels cfg env s f ls :
  f <> LEDGER_PENALTY -> f <> HBBFT_PERF ->
  is_Some (gauges (reg s) f !! ls) ->
  is_Some (gauges (reg (stats cfg env s).2) f !! ls).
Proof.
  intros Hl Hh Hs. destruct (stats_any cfg env s) as (ws & -> & Hc & _).
  rewrite gauges_observe, gauges_apply_writes.
  apply foldl_write_family_keeps; [|done].
  eapply clears_within_not_elem; [exact Hc|].
  intros H. repeat (apply elem_of_cons in H as [H|H]; [congruence|]).
  by apply elem_of_nil in H.
Qed.

Lemma reg_loop_iteration cfg (cycle : M unit) s :
  reg (loop_iteration cfg cycle s).2 = reg (cycle s).2.
Proof.
  destruct (cycle s) as [[e|[]] s'] eqn:C.
  - rewrite (loop_iteration_raises cfg cycle s e s' C).
    destruct (is_ValueError e); [|done]. by rewrite reg_sleep.
  - by rewrite (loop_iteration_returns cfg cycle s s' C), reg_sleep.
Qed.

Lemma run_exporter_cons cfg env envs s :
  run_exporter cfg (env :: envs) s =
  match loop_iteration cfg (stats cfg env) s with
  | (inr _, s') => run_exporter cfg envs s'
  | (inl e, s') => (inl e, s')
  end.
Proof. done. Qed.

(** C10: no cycle clears the last-heartbeat family. A (name, address) entry
    present before a run of the exporter is still present after any number
    of further cycles, whatever those cycles fetch -- in particular when
    the entity has left the ledger. *)
Theorem heartbeat_never_evicted cfg envs s ls :
  is_Some (gauges (reg s) HEARTBEAT !! ls) ->
  is_Some (gauges (reg (run_exporter cfg envs s).2) HEARTBEAT !! ls).
Proof.
  revert s. induction envs as [|env envs IH]; intros s Hs; [done|].
  rewrite run_exporter_cons.
  pose proof (reg_loop_iteration cfg (stats cfg env) s) as R.
  pose proof (stats_keeps_labels cfg env s HEARTBEAT ls) as K.
  destruct (loop_iteration cfg (stats cfg env) s) as [[e|u] s'].
  - simpl in *. rewrite R. by apply K.
  - apply IH. simpl in R. rewrite R. by apply K.
Qed.

Lemma heartbeat_never_evicted_witness :
  is_Some (gauges (reg state_all1) HEARTBEAT !! ["N2"; "A2"]) /\
  is_Some (gauges (reg (run_exporter cfg_all [env_a2_gone; env_a2_gone] state_all1).2)
             HEARTBEAT !! ["N2"; "A2"]).
Proof.
  assert (is_Some (gauges (reg state_all1) HEARTBEAT !! ["N2"; "A2"])) as H.
  { eexists. vm_compute. reflexivity. }
  split; [exact H|].
  exact (heartbeat_never_evicted cfg_all [env_a2_gone; env_a2_gone] state_all1
           ["N2"; "A2"] H).
Defined.

(** The same two cycles drop A2 from the ledger-penalty family and keep its
    heartbeat sample at the value of the cycle that last saw it. *)
Example heartbeat_outlives_ledger_entry :
  let s2 := (run_exporter cfg_all [env_a2_gone; env_a2_gone] state_all1).2 in
  gauges (reg state_all1) LEDGER_PENALTY !! ["ledger_penalties"; "tenure"; "N2"; "A2"]
    = Some fzero /\
  gauges (reg s2) LEDGER_PENALTY !! ["ledger_penalties"; "tenure"; "N2"; "A2"] = None /\
  gauges (reg s2) HEARTBEAT !! ["N2"; "A2"] = Some (float_of_Z 9).
Proof. split_and!; vm_compute; reflexivity. Qed.

(** ** Owner balance (lines 131-141, 183-184) *)

(** The owner the cycle asks the balance of is the owner of the entry
    under the self address. *)
Lemma lookup_owner_self_entry cfg env addr :
  lookup_owner addr (penalty_ledger_value cfg env addr) =
  le_owner_address <$> self_entry cfg env addr.
Proof. unfold self_entry. by destruct (penalty_ledger_value cfg env addr). Qed.

(** The writes of phase 3 up to the balance: only the height can stop the
    cycle before line 184. *)
Lemma publish_block_upto_balance cfg addr name l :
  height_numeric (height_info_ l) = true ->
  exists rest,
    (publish_block cfg addr name l).1 =
      (height_writes name (height_info_ l) ++ in_consensus_writes name (in_consensus_ l) ++
       balance_writes name (balance_ l) ++ rest)%list /\
    writes_within [Some BLOCKAGE; None; Some LEDGER_PENALTY; Some HEARTBEAT;
                   Some HBBFT_PERF; Some CONNECTIONS; Some SESSIONS] rest.
Proof.
  intros Hh. unfold publish_block, scalar_block.
  rewrite !block_all_cons, (height_block_numeric _ _ Hh), !block_seq_assoc, !block_seq_ok.
  cbn [fst]. eexists. split; [reflexivity|].
  apply block_seq_Forall; cbn [fst].
  - apply (writes_within_weaken [Some BLOCKAGE]); [set_solver|apply block_age_block_within].
  - apply writes_within_app; [destruct (version_ l); within|].
    eapply writes_within_weaken; [|apply entity_block_within]. set_solver.
Qed.

Lemma set_block_unfit (f : family) (ls : labels) (x : pyval) :
  fits x = false ->
  exists e : exn, set_block f ls x = ([WLabels f ls], Some e) /\
                  (e = OverflowError \/ e = ValueError).
Proof.
  intros H. unfold set_block. destruct (py_float x) as [e|v] eqn:E.
  - apply py_float_inl in E as [_ He]. eauto.
  - apply py_float_inr in E as [Hf _]. congruence.
Qed.

(** A height that does not convert stops the cycle at lines 177-178. *)
Lemma height_block_raises name hi :
  height_numeric hi = false ->
  exists e, (height_block name hi).2 = Some e /\ (e = OverflowError \/ e = ValueError).
Proof.
  destruct hi as [i|]; [|done]. cbn [height_numeric height_block]. intros H.
  apply andb_false_iff in H.
  destruct (fits (default (height i) (sync_height i))) eqn:F1.
  - rewrite (set_block_fits _ _ _ F1), block_seq_ok. destruct H as [H|H]; [done|].
    destruct (set_block_unfit CHAIN_STATS ["Height"] _ H) as (e & -> & He). eauto.
  - destruct (set_block_unfit VAL ["Height"; name] _ F1) as (e & -> & He).
    rewrite block_seq_raises. eauto.
Qed.

Lemma height_stops_cycle cfg addr name l :
  height_numeric (height_info_ l) = false ->
  (publish_block cfg addr name l).1 = (height_block name (height_info_ l)).1.
Proof.
  intros H. destruct (height_block_raises name _ H) as (e & He & _).
  unfold publish_block, scalar_block. rewrite block_all_cons.
  destruct (height_block name (height_info_ l)) as [ws o]. simpl in He. subst o.
  by rewrite !block_seq_raises.
Qed.

Lemma balance_after_cycle cfg env addr name s :
  resp_addr env = inr addr ->
  resp_name env = inr name ->
  host_ok cfg env = true ->
  height_numeric (fetched_value (resp_info_height env)) = true ->
  gauges (reg (stats cfg env s).2) BALANCE =
  foldl (write_family BALANCE) (gauges (reg s) BALANCE)
        (balance_writes name (balance_ (fetched cfg env addr))).
Proof.
  intros Ea En Hh Hn. rewrite (gauges_after_cycle cfg env addr name s _ Ea En Hh).
  unfold cycle_block_writes.
  destruct (publish_block_upto_balance cfg addr name (fetched cfg env addr) Hn)
    as (rest & -> & Hrest).
  rewrite !foldl_app.
  rewrite (writes_within_frame _ rest BALANCE _ Hrest) by not_within.
  by frame.
Qed.

Lemma balance_events_unresolved cfg env addr a :
  lookup_owner addr (penalty_ledger_value cfg env addr) = None ->
  Rpc (CallLedgerBalance a) ∉ cycle_events cfg env addr.
Proof.
  intros Ho. unfold cycle_events, fetch_all_events. rewrite Ho. simpl.
  unfold penalty_ledger_events, fetch_events.
  intros H.
  repeat first
    [ apply elem_of_cons in H as [H|H]; [discriminate H|]
    | apply elem_of_app in H as [H|H]
    | apply elem_of_nil in H; contradiction
    | match type of H with
      | context [match ?r with inl _ => _ | inr _ => _ end] => destruct r
      | context [if ?b then _ else _] => destruct b
      end ].
Qed.

Lemma balance_events_failed cfg env addr o :
  lookup_owner addr (penalty_ledger_value cfg env addr) = Some o ->
  fetched_value (balance_answer env o) = None ->
  LogError "owner balance fetch failure" ∈ cycle_events cfg env addr.
Proof.
  intros Ho Hb. unfold cycle_events, fetch_all_events. rewrite Ho.
  cbn [balance_events]. unfold fetch_events at 3.
  destruct (balance_answer env o) as [e|v]; [|done].
  rewrite !elem_of_cons, !elem_of_app. right. right. right. right. right. left.
  rewrite !elem_of_cons. by right; left.
Qed.

(** The balance gauge after a cycle that passed the gate, case by case. *)
Lemma balance_cases cfg env addr name s :
  resp_addr env = inr addr ->
  resp_name env = inr name ->
  host_ok cfg env = true ->
  height_numeric (fetched_value (resp_info_height env)) = true ->
  match self_entry cfg env addr with
  | Some v =>
      match resp_ledger_balance env (le_owner_address v) with
      | inr raw =>
          match py_truediv (balance raw) (PFloat f1e8) with
          | inr q =>
              gauges (reg (stats cfg env s).2) BALANCE =
              <[ [name] := q ]> (gauges (reg s) BALANCE)
          | inl _ =>
              gauges (reg (stats cfg env s).2) BALANCE = gauges (reg s) BALANCE /\
              LogError "owner balance fetch failure" ∈ cycle_events cfg env addr
          end
      | inl _ => gauges (reg (stats cfg env s).2) BALANCE = gauges (reg s) BALANCE
      end
  | None =>
      gauges (reg (stats cfg env s).2) BALANCE = gauges (reg s) BALANCE /\
      forall a, Rpc (CallLedgerBalance a) ∉ cycle_events cfg env addr
  end.
Proof.
  intros Ea En Hh Hn.
  rewrite (balance_after_cycle cfg env addr name s Ea En Hh Hn).
  pose proof (lookup_owner_self_entry cfg env addr) as Ho.
  cbn [fetched balance_ owner_]. rewrite Ho.
  destruct (self_entry cfg env addr) as [v|]; cbn [fmap option_fmap option_map] in *.
  - pose proof (balance_events_failed cfg env addr _ Ho) as Hf.
    unfold balance_value, balance_answer in *.
    destruct (resp_ledger_balance env (le_owner_address v)) as [e|raw]; [done|].
    destruct (py_truediv (balance raw) (PFloat f1e8)) as [e|q]; [|done].
    split; [done|]. by apply Hf.
  - split; [done|]. intros a. by apply balance_events_unresolved.
Qed.

(** C8, as amended: the balance metric is published only in a cycle that
    found an entry under the self address in the resolved penalty-ledger
    mapping, was answered the balance of that entry's owner, and could
    divide the raw balance by 1e8. The published value is then the float
    quotient of the raw balance by 1e8 (the nearest float, not the exact
    rational), under the validator's name. A raw balance that cannot be
    divided, such as an integer beyond the range of the floats, is treated
    as a failed fetch: it is logged and nothing is published. With no entry
    under the self address the balance is not even requested. The cycle is
    one that passed the identity gate and whose height converts, so that
    line 184 is reached. *)
Theorem owner_balance_published cfg env s :
  (forall addr name,
     resp_addr env = inr addr ->
     resp_name env = inr name ->
     host_ok cfg env = true ->
     height_numeric (fetched_value (resp_info_height env)) = true ->
     trace (stats cfg env s).2 = (trace s ++ cycle_events cfg env addr)%list /\
     match self_entry cfg env addr with
     | Some v =>
         match resp_ledger_balance env (le_owner_address v) with
         | inr raw =>
             match py_truediv (balance raw) (PFloat f1e8) with
             | inr q =>
                 gauges (reg (stats cfg env s).2) BALANCE =
                 <[ [name] := q ]> (gauges (reg s) BALANCE)
             | inl _ =>
                 gauges (reg (stats cfg env s).2) BALANCE = gauges (reg s) BALANCE /\
                 LogError "owner balance fetch failure" ∈ cycle_events cfg env addr
             end
         | inl _ => gauges (reg (stats cfg env s).2) BALANCE = gauges (reg s) BALANCE
         end
     | None =>
         gauges (reg (stats cfg env s).2) BALANCE = gauges (reg s) BALANCE /\
         forall a, Rpc (CallLedgerBalance a) ∉ cycle_events cfg env addr
     end) /\
  (forall z, fits (PInt z) = true ->
     py_truediv (PInt z) (PFloat f1e8) = inr (fdiv (float_of_Z z) f1e8)) /\
  (forall x, py_truediv (PFloat x) (PFloat f1e8) = inr (fdiv x f1e8)) /\
  (gauges (reg (stats cfg env s).2) BALANCE <> gauges (reg s) BALANCE ->
   exists addr v raw q,
     resp_addr env = inr addr /\
     self_entry cfg env addr = Some v /\
     resp_ledger_balance env (le_owner_address v) = inr raw /\
     py_truediv (balance raw) (PFloat f1e8) = inr q).
Proof.
  split_and!.
  - intros addr name Ea En Hh Hn. split.
    + by rewrite (stats_block cfg env addr name s Ea En Hh).
    + by apply balance_cases.
  - intros z Hz. cbn [py_truediv]. rewrite (py_float_fits _ Hz). done.
  - done.
  - intros Hne.
    destruct (stats_any cfg env s) as (ws & Hreg & _ & Hid & Hhost).
    destruct (identity_fails env) eqn:Ei.
    { exfalso. apply Hne. rewrite Hreg, (Hid eq_refl). done. }
    destruct (host_ok cfg env) eqn:Hh.
    2:{ exfalso. apply Hne. rewrite Hreg, gauges_observe, gauges_apply_writes.
        eapply writes_within_frame; [exact (Hhost eq_refl eq_refl)|not_within]. }
    unfold identity_fails in Ei.
    destruct (resp_addr env) as [e|addr] eqn:Ea; [done|].
    destruct (resp_name env) as [e|name] eqn:En; [done|].
    destruct (height_numeric (fetched_value (resp_info_height env))) eqn:Hn.
    2:{ exfalso. apply Hne.
        rewrite (gauges_after_cycle cfg env addr name s _ Ea En Hh).
        unfold cycle_block_writes. rewrite foldl_app.
        rewrite (height_stops_cycle cfg addr name (fetched cfg env addr) Hn).
        by frame. }
    pose proof (balance_cases cfg env addr name s Ea En Hh Hn) as Part1.
    destruct (self_entry cfg env addr) as [v|] eqn:Ho.
    + destruct (resp_ledger_balance env (le_owner_address v)) as [e|raw] eqn:Eb; [done|].
      destruct (py_truediv (balance raw) (PFloat f1e8)) as [e|q] eqn:Eq.
      * by destruct Part1.
      * by exists addr, v, raw, q.
    + by destruct Part1.
Qed.

Lemma owner_balance_published_witness :
  gauges (reg (stats cfg_default env_healthy state0).2) BALANCE =
    <[ ["N1"] := S754_finite false 5559999489367579 (-52) ]> (gauges (reg state0) BALANCE) /\
  self_entry cfg_default env_healthy "A1" = Some entry_a1 /\
  le_owner_address entry_a1 = "O1".
Proof.
  split; [|done].
  exact (proj2 (proj1 (owner_balance_published cfg_default env_healthy state0)
                      "A1" "N1" eq_refl eq_refl eq_refl eq_refl)).
Defined.

(** C8 as stated fails: the balance fetch succeeds, with an integer too
    large for a float; the division raises inside the [try], the failure is
    logged and no balance is published. And the value published for a raw
    balance of 123456789 is not the exact quotient 1.23456789. *)
Lemma owner_balance_not_exact :
  self_entry cfg_default env_huge_balance "A1" = Some entry_a1 /\
  resp_ledger_balance env_huge_balance (le_owner_address entry_a1)
    = inr {| balance := PInt (10 ^ 400) |} /\
  (stats cfg_default env_huge_balance state0).1 = inr tt /\
  gauges (reg (stats cfg_default env_huge_balance state0).2) BALANCE = ∅ /\
  LogError "owner balance fetch failure" ∈ trace (stats cfg_default env_huge_balance state0).2 /\
  gauges (reg (stats cfg_default env_healthy state0).2) BALANCE !! ["N1"]
    = Some (S754_finite false 5559999489367579 (-52)) /\
  ~ (Q_of_float (S754_finite false 5559999489367579 (-52)) == 123456789 # 100000000)%Q.
Proof.
  split_and!; try (vm_compute; reflexivity).
  - vm_compute. repeat first [apply list_elem_of_here | apply list_elem_of_further].
  - vm_compute. discriminate.
Qed.

(** ** Which exceptions a block can raise *)

Ltac in_list :=
  solve [repeat first [apply list_elem_of_here | apply list_elem_of_further]].

Lemma raises_within_weaken es es' b :
  es ⊆ es' -> raises_within es b -> raises_within es' b.
Proof. intros Hsub H e He. apply Hsub. by apply H. Qed.

Lemma raises_within_ok es ws : raises_within es (ws, None).
Proof. intros e He. discriminate He. Qed.

Lemma block_seq_raises_within es b1 b2 :
  raises_within es b1 -> raises_within es b2 -> raises_within es (block_seq b1 b2).
Proof.
  intros H1 H2 e. destruct b1 as [ws1 [e1|]]; unfold block_seq; cbn [fst snd].
  - apply H1.
  - apply H2.
Qed.

Lemma block_all_raises_within es bs :
  Forall (raises_within es) bs -> raises_within es (block_all bs).
Proof.
  induction 1 as [|b bs Hb _ IH]; [apply raises_within_ok|].
  rewrite block_all_cons. by apply block_seq_raises_within.
Qed.

Lemma block_all_map_raises_within {A} es (bf : A -> block) xs :
  (forall x, raises_within es (bf x)) -> raises_within es (block_all (map bf xs)).
Proof.
  intros H. apply block_all_raises_within. induction xs as [|x xs IH]; by constructor.
Qed.

Lemma set_block_raises_within f ls x :
  raises_within [OverflowError; ValueError] (set_block f ls x).
Proof.
  intros e. unfold set_block. destruct (py_float x) as [e'|v] eqn:E; [|done].
  intros [= <-]. apply py_float_inl in E as [_ [-> | ->]]; in_list.
Qed.

Lemma py_add_raises x y e : py_add x y = inl e -> e = TypeError \/ e = OverflowError.
Proof.
  destruct x as [a|f|], y as [b|g|]; cbn [py_add py_float];
    repeat match goal with |- context [is_finite ?z] => destruct (is_finite z) end;
    intros [= <-]; auto.
Qed.

Lemma py_truediv_raises x y e :
  py_truediv x y = inl e ->
  e = TypeError \/ e = OverflowError \/ e = ZeroDivisionError.
Proof.
  destruct x as [a|f|], y as [b|g|]; cbn [py_truediv py_float]; unfold float_truediv;
    repeat match goal with
           | |- context [is_finite ?z] => destruct (is_finite z)
           | |- context [SFeqb ?u ?v] => destruct (SFeqb u v)
           | |- context [?u =? ?v] => destruct (u =? v)
           end;
    intros [= <-]; auto.
Qed.

Lemma SFltb_pos_nonzero t : SFltb fzero t = true -> SFeqb t fzero = false.
Proof. by destruct t as [[]|[]| |[] m e]. Qed.

(** Behind the guard of line 201 the division of line 202 has a non-zero
    divisor. *)
Lemma guarded_truediv_divides total t :
  py_gt0 t = inr true -> py_truediv total t <> inl ZeroDivisionError.
Proof.
  destruct total as [a|f|], t as [b|g|]; cbn [py_gt0 py_truediv py_float];
    intros [= H]; try done.
  - assert ((b =? 0) = false) as -> by lia. by destruct (is_finite _).
  - destruct (is_finite (float_of_Z a)); [|done].
    unfold float_truediv. by rewrite (SFltb_pos_nonzero _ H).
  - destruct (is_finite (float_of_Z b)); [|done].
    unfold float_truediv. rewrite float_of_Z_eq0.
    by assert ((b =? 0) = false) as -> by lia.
  - unfold float_truediv. by rewrite (SFltb_pos_nonzero _ H).
Qed.

Lemma ratio_block_raises_within e :
  raises_within [OverflowError; TypeError] (ratio_block e).
Proof.
  intros x. unfold ratio_block.
  destruct (py_gt0 (le_tenure_penalty e)) as [x'|[|]] eqn:G.
  - destruct (le_tenure_penalty e); simpl in G; try done.
    injection G as <-. intros [= <-]. in_list.
  - unfold compute_block. destruct (ratio_of e) as [x'|v] eqn:R; [|done].
    intros [= <-]. unfold ratio_of in R.
    destruct (py_add _ _) as [x''|total] eqn:A.
    + injection R as <-. apply py_add_raises in A as [-> | ->]; in_list.
    + pose proof (guarded_truediv_divides total _ G) as Hz.
      apply py_truediv_raises in R as Hr.
      destruct Hr as [-> | [-> | ->]]; [in_list|in_list|].
      unfold ratio_of in Hz. congruence.
  - done.
Qed.

Ltac raises :=
  repeat first
    [ apply block_seq_raises_within
    | apply block_all_map_raises_within; intros ?
    | apply block_all_raises_within; repeat apply List.Forall_cons; try apply List.Forall_nil
    | apply raises_within_ok
    | eapply raises_within_weaken; [|apply set_block_raises_within]; set_solver
    | eapply raises_within_weaken; [|apply ratio_block_raises_within]; set_solver ].

Lemma ledger_entry_block_raises_within e :
  raises_within [OverflowError; ValueError; TypeError] (ledger_entry_block e).
Proof. unfold ledger_entry_block. raises. Qed.

Lemma ledger_block_raises_within pl :
  raises_within [OverflowError; ValueError; TypeError; AttributeError] (ledger_block pl).
Proof.
  destruct pl as [|d|vs]; cbn [ledger_block].
  - apply raises_within_ok.
  - apply block_seq_raises_within; [apply raises_within_ok|].
    apply block_all_map_raises_within. intros e.
    eapply raises_within_weaken; [|apply ledger_entry_block_raises_within]. set_solver.
  - intros e [= <-]. in_list.
Qed.

Lemma hbbft_block_raises_within cfg addr hp :
  raises_within [OverflowError; ValueError] (hbbft_block cfg addr hp).
Proof.
  destruct hp as [p|]; cbn [hbbft_block]; [|apply raises_within_ok].
  apply block_seq_raises_within; [apply raises_within_ok|].
  apply block_all_map_raises_within. intros m.
  unfold member_block. destruct (member_selected _ _ _); raises.
Qed.

Lemma peer_book_block_raises_within name pb :
  raises_within [OverflowError; ValueError; IndexError] (peer_book_block name pb).
Proof.
  destruct pb as [[|e0 es]|]; cbn [peer_book_block].
  - intros e [= <-]. in_list.
  - raises.
  - apply raises_within_ok.
Qed.

Lemma scalar_block_raises_within name l :
  raises_within [OverflowError; ValueError] (scalar_block name l).
Proof.
  unfold scalar_block, height_block, block_age_block.
  destruct (height_info_ l), (block_age_ l); raises.
Qed.

(** Phase 3 raises one of five exceptions, if any. *)
Lemma publish_block_raises_within cfg addr name l :
  raises_within [OverflowError; ValueError; TypeError; AttributeError; IndexError]
                (publish_block cfg addr name l).
Proof.
  unfold publish_block, entity_block, tail_block.
  apply block_seq_raises_within;
    [|apply block_seq_raises_within; [|apply block_seq_raises_within]].
  - eapply raises_within_weaken; [|apply scalar_block_raises_within]. set_solver.
  - eapply raises_within_weaken; [|apply ledger_block_raises_within]. set_solver.
  - eapply raises_within_weaken; [|apply hbbft_block_raises_within]. set_solver.
  - eapply raises_within_weaken; [|apply peer_book_block_raises_within]. set_solver.
Qed.

(** ** Following one label tuple through a sequence of writes *)

Lemma write_family_miss f g w ls :
  write_misses f ls w -> write_family f g w !! ls = g !! ls.
Proof.
  destruct w as [f' ls' v|f' ls'|f'|]; simpl; intros H; try done.
  - case_decide as E; [|done]. destruct H as [H|H]; [done|]. by rewrite lookup_insert_ne.
  - case_decide as E; [|done]. destruct H as [H|H]; [done|].
    destruct (g !! ls'); [done|]. by rewrite lookup_insert_ne.
  - by rewrite decide_False.
Qed.

Lemma foldl_write_family_miss f ws g ls :
  Forall (write_misses f ls) ws -> foldl (write_family f) g ws !! ls = g !! ls.
Proof.
  intros H. revert g. induction H as [|w ws Hw _ IH]; intros g; [done|].
  simpl. by rewrite IH, write_family_miss.
Qed.

Lemma write_family_is_Some f g w ls :
  w <> WClear f ->
  is_Some (write_family f g w !! ls) <-> is_Some (g !! ls) \/ write_creates f ls w.
Proof.
  intros Hc. destruct w as [f' ls' v|f' ls'|f'|]; simpl.
  - case_decide as E; [subst f'|naive_solver].
    rewrite lookup_insert. case_decide; naive_solver.
  - case_decide as E; [subst f'|naive_solver].
    destruct (g !! ls') eqn:G.
    + split; [auto|]. intros [?|[_ <-]]; [done|]. by rewrite G.
    + rewrite lookup_insert. case_decide; naive_solver.
  - rewrite decide_False by congruence. naive_solver.
  - naive_solver.
Qed.

Lemma foldl_write_family_is_Some f ws g ls :
  WClear f ∉ ws ->
  is_Some (foldl (write_family f) g ws !! ls) <->
  is_Some (g !! ls) \/ exists w, w ∈ ws /\ write_creates f ls w.
Proof.
  revert g. induction ws as [|w ws IH]; intros g Hc; simpl.
  - split; [auto|]. intros [?|(w & Hw & _)]; [done|]. by apply elem_of_nil in Hw.
  - rewrite IH by (intros ?; apply Hc; by right).
    rewrite write_family_is_Some by (intros ->; apply Hc; by left).
    split.
    + intros [[?|?]|(w' & Hw' & ?)]; [by left| |].
      * right. exists w. split; [by left|done].
      * right. exists w'. split; [by right|done].
    + intros [?|(w' & Hw' & ?)]; [by left; left|].
      apply elem_of_cons in Hw' as [->|Hw']; [by left; right|].
      right. by exists w'.
Qed.

Lemma elem_of_concat_map {A B} (w : A -> list B) xs y :
  y ∈ concat (map w xs) <-> exists x, x ∈ xs /\ y ∈ w x.
Proof.
  induction xs as [|x xs IH]; simpl.
  - split; [by intros ?%elem_of_nil|]. by intros (x & ?%elem_of_nil & _).
  - rewrite elem_of_app, IH. split.
    + intros [?|(x' & ? & ?)]; [exists x; split; [by left|done]|].
      exists x'. split; [by right|done].
    + intros (x' & [->|?]%elem_of_cons & ?); [by left|]. right. by exists x'.
Qed.

(** ** Ledger dictionaries *)

Lemma dict_setitem_keys {V} k (v : V) d :
  dict_keys (dict_setitem k v d) =
  if decide (k ∈ dict_keys d) then dict_keys d else (dict_keys d ++ [k])%list.
Proof.
  unfold dict_keys. induction d as [|[k' v'] d IH]; [done|].
  cbn [dict_setitem]. destruct (decide (k' = k)) as [->|Hne]; rewrite !fmap_cons.
  - by rewrite decide_True by left.
  - rewrite IH. cbn [fst]. destruct (decide (k ∈ d.*1)) as [Hin|Hnin].
    + by rewrite decide_True by (by right).
    + rewrite decide_False; [done|]. intros [?|?]%elem_of_cons; congruence.
Qed.

Lemma dict_setitem_elem {V} k (v : V) d kv :
  kv ∈ dict_setitem k v d -> kv = (k, v) \/ kv ∈ d.
Proof.
  induction d as [|[k' v'] d IH]; simpl.
  - intros ?%list_elem_of_singleton. by left.
  - destruct (decide (k' = k)) as [->|Hne].
    + intros [->|?]%elem_of_cons; [by left|]. right. by right.
    + intros [->|H]%elem_of_cons; [right; by left|].
      destruct (IH H) as [?|?]; [by left|]. right. by right.
Qed.

Lemma dict_setitem_by_address v d :
  dict_by_address d -> dict_by_address (dict_setitem (le_address v) v d).
Proof.
  intros [Hnd Hall]. split.
  - rewrite dict_setitem_keys. case_decide as Hin; [done|].
    apply NoDup_app. split_and!; [done| |apply NoDup_singleton].
    intros k Hk ->%list_elem_of_singleton. done.
  - rewrite Forall_forall in *. intros kv Hkv.
    apply dict_setitem_elem in Hkv as [->|Hkv]; [done|]. by apply Hall.
Qed.

Lemma staked_by_address_wf vs : dict_by_address (staked_by_address vs).
Proof.
  unfold staked_by_address.
  assert (forall d, dict_by_address d ->
            dict_by_address
              (foldl (fun d v => if decide (le_status v = "staked")
                                 then dict_setitem (le_address v) v d else d) d vs)) as H.
  { induction vs as [|v vs IH]; intros d Hd; simpl; [done|].
    apply IH. case_decide; [|done]. by apply dict_setitem_by_address. }
  apply H. split; [constructor|constructor].
Qed.

Lemma dict_by_address_values d :
  dict_by_address d -> NoDup (le_address <$> dict_values d).
Proof.
  intros [Hnd Hall]. unfold dict_values, dict_keys in *.
  assert (le_address <$> d.*2 = d.*1) as ->; [|done].
  induction Hall as [|[k v] d Hkv _ IH]; [done|].
  apply NoDup_cons in Hnd as [_ Hnd].
  rewrite !fmap_cons. simpl in Hkv. cbn [fst snd]. by rewrite Hkv, IH.
Qed.

(** The dictionaries phase 2 can produce have at most one entry per address. *)
Lemma penalty_ledger_value_NoDup cfg env addr d :
  penalty_ledger_value cfg env addr = PLDict d ->
  NoDup (le_address <$> dict_values d).
Proof.
  unfold penalty_ledger_value. intros H.
  destruct (ALL_PENALTIES cfg).
  - destruct (resp_ledger_validators_1 env) as [|vs1]; [done|].
    destruct (resp_ledger_validators_2 env) as [|vs2]; [done|].
    injection H as <-. apply dict_by_address_values, staked_by_address_wf.
  - destruct (resp_ledger_validator env addr) as [|v]; [done|].
    injection H as <-. simpl. apply NoDup_singleton.
Qed.

(** ** The ledger-penalty family (lines 192-203) *)

Lemma ledger_entry_family e g :
  foldl (write_family LEDGER_PENALTY) g (ledger_entry_writes e) =
  let g4 := <[penalty_labels "total" e := float_val (le_total_penalty e)]>
            (<[penalty_labels "performance" e := float_val (le_performance_penalty e)]>
            (<[penalty_labels "dkg" e := float_val (le_dkg_penalty e)]>
            (<[penalty_labels "tenure" e := float_val (le_tenure_penalty e)]> g))) in
  if gt0 (le_tenure_penalty e)
  then <[penalty_labels "perf_tenure_ratio" e := ratio_val e]> g4
  else g4.
Proof.
  unfold ledger_entry_writes.
  destruct (gt0 (le_tenure_penalty e)); cbn [app foldl].
  - rewrite write_family_labels_set. cbn [write_family].
    destruct (decide (HEARTBEAT = LEDGER_PENALTY)); [done|].
    by rewrite !decide_True by done.
  - cbn [write_family].
    destruct (decide (HEARTBEAT = LEDGER_PENALTY)); [done|].
    by rewrite !decide_True by done.
Qed.

Lemma ledger_entry_writes_miss e rt sub n a :
  le_address e <> a ->
  Forall (write_misses LEDGER_PENALTY [rt; sub; n; a]) (ledger_entry_writes e).
Proof.
  intros Hne. unfold ledger_entry_writes, ratio_labels.
  destruct (gt0 _); simpl;
    repeat (apply List.Forall_cons; [simpl; first [by left | right; congruence]|]);
    apply List.Forall_nil.
Qed.

Lemma ledger_entries_miss es rt sub n a :
  a ∉ le_address <$> es ->
  Forall (write_misses LEDGER_PENALTY [rt; sub; n; a])
         (concat (map ledger_entry_writes es)).
Proof.
  intros Hnin. rewrite Forall_forall. intros w Hw.
  apply elem_of_concat_map in Hw as (e & He & Hw).
  assert (le_address e <> a) as Hne.
  { intros <-. apply Hnin. by apply list_elem_of_fmap_2. }
  pose proof (ledger_entry_writes_miss e rt sub n a Hne) as Hm.
  rewrite Forall_forall in Hm. by apply Hm.
Qed.

(** In a ledger with one entry per address, what the loop leaves under the
    labels of entry [e] is what [e] itself wrote. *)
Lemma ledger_fold_entry es e g ls :
  NoDup (le_address <$> es) ->
  e ∈ es ->
  (exists rt sub n, ls = [rt; sub; n; le_address e]) ->
  exists g', g' !! ls = g !! ls /\
    foldl (write_family LEDGER_PENALTY) g (concat (map ledger_entry_writes es)) !! ls =
    foldl (write_family LEDGER_PENALTY) g' (ledger_entry_writes e) !! ls.
Proof.
  intros Hnd He (rt & sub & n & ->).
  apply list_elem_of_split in He as (es1 & es2 & ->).
  rewrite fmap_app, fmap_cons in Hnd.
  apply NoDup_app in Hnd as (_ & Hdisj & Hnd2).
  apply NoDup_cons in Hnd2 as [Hnin2 _].
  assert (le_address e ∉ le_address <$> es1) as Hnin1.
  { intros Hin. apply (Hdisj _ Hin). by left. }
  exists (foldl (write_family LEDGER_PENALTY) g (concat (map ledger_entry_writes es1))).
  split.
  - by apply foldl_write_family_miss, ledger_entries_miss.
  - rewrite map_app, concat_app, foldl_app. simpl. rewrite foldl_app.
    by apply foldl_write_family_miss, ledger_entries_miss.
Qed.

(** The ledger family after a cycle whose ledger fetch succeeded: cleared,
    then rewritten from the fetched dictionary alone. *)
Lemma ledger_after_cycle cfg env addr name s d :
  resp_addr env = inr addr ->
  resp_name env = inr name ->
  host_ok cfg env = true ->
  ledger_answers_numeric cfg env addr = true ->
  penalty_ledger_value cfg env addr = PLDict d ->
  gauges (reg (stats cfg env s).2) LEDGER_PENALTY =
  foldl (write_family LEDGER_PENALTY) ∅ (concat (map ledger_entry_writes (dict_values d))).
Proof.
  intros Ea En Hh Hl Hd. rewrite (gauges_after_cycle cfg env addr name s _ Ea En Hh).
  rewrite (cycle_block_writes_ledger cfg env addr name Hl), Hd.
  cbn [ledger_writes ledger_raises].
  frame. cbn [foldl write_family]. rewrite decide_True by done. by frame.
Qed.

Lemma ledger_numeric_entry d e :
  ledger_numeric (PLDict d) = true -> e ∈ dict_values d -> entry_numeric e = true.
Proof.
  cbn [ledger_numeric]. intros H He.
  apply forallb_Forall_true in H. rewrite Forall_forall in H. by apply H.
Qed.

(** The ratio sample of an entry of the fetched ledger, after the cycle. *)
Lemma ratio_after_cycle cfg env addr name s d e :
  resp_addr env = inr addr ->
  resp_name env = inr name ->
  host_ok cfg env = true ->
  ledger_answers_numeric cfg env addr = true ->
  penalty_ledger_value cfg env addr = PLDict d ->
  e ∈ dict_values d ->
  gauges (reg (stats cfg env s).2) LEDGER_PENALTY !! penalty_labels "perf_tenure_ratio" e =
  if gt0 (le_tenure_penalty e) then Some (ratio_val e) else None.
Proof.
  intros Ea En Hh Hl Hd He.
  rewrite (ledger_after_cycle cfg env addr name s d Ea En Hh Hl Hd).
  pose proof (penalty_ledger_value_NoDup cfg env addr d Hd) as Hnd.
  destruct (ledger_fold_entry (dict_values d) e ∅
              (penalty_labels "perf_tenure_ratio" e) Hnd He) as (g' & Hg' & H);
    [by eexists _, _, _|].
  rewrite H, ledger_entry_family; simpl.
  destruct (gt0 (le_tenure_penalty e)); simplify_map_eq; done.
Qed.

(** The ledger loop never divides by zero, whatever the ledger holds. *)
Lemma publish_ledger_no_ZeroDivisionError pl s :
  (publish_ledger pl s).1 <> inl ZeroDivisionError.
Proof.
  rewrite (publish_ledger_block pl s). cbn [fst].
  pose proof (ledger_block_raises_within pl) as H.
  destruct (ledger_block pl).2 as [e|] eqn:E; [|done].
  specialize (H e E). cbn [outcome]. intros [= ->].
  revert H. clear. intros H.
  repeat (apply elem_of_cons in H as [H|H]; [discriminate H|]).
  by apply elem_of_nil in H.
Qed.

(** Nor does phase 3 as a whole. *)
Lemma stats_no_ZeroDivisionError cfg env s :
  host_ok cfg env = true -> (stats cfg env s).1 <> inl ZeroDivisionError.
Proof.
  intros Hh.
  destruct (resp_addr env) as [e|addr] eqn:Ea.
  { by rewrite (stats_addr_fails cfg env e s Ea). }
  destruct (resp_name env) as [e|name] eqn:En.
  { by rewrite (stats_name_fails cfg env addr e s Ea En). }
  rewrite (stats_block cfg env addr name s Ea En Hh). cbn [fst].
  pose proof (publish_block_raises_within cfg addr name (fetched cfg env addr)) as H.
  destruct (publish_block cfg addr name (fetched cfg env addr)).2 as [e|] eqn:E; [|done].
  specialize (H e E). cbn [outcome]. intros [= ->].
  revert H. clear. intros H.
  repeat (apply elem_of_cons in H as [H|H]; [discriminate H|]).
  by apply elem_of_nil in H.
Qed.

(** C6: in a cycle whose ledger fetch succeeded and whose numbers convert,
    for every entry of the fetched ledger the perf_tenure_ratio sample is
    present exactly when the entry's tenure_penalty is greater than 0; it is
    then what Python's (performance_penalty + dkg_penalty) / tenure_penalty
    evaluates to: on floats the float quotient of the float sum, on
    integers the quotient of the exact sum rounded once. Neither the ledger
    loop, whatever the ledger holds, nor the cycle raises
    ZeroDivisionError. *)
Theorem perf_tenure_ratio_iff_positive cfg env addr name s d e :
  resp_addr env = inr addr ->
  resp_name env = inr name ->
  host_ok cfg env = true ->
  ledger_answers_numeric cfg env addr = true ->
  penalty_ledger_value cfg env addr = PLDict d ->
  e ∈ dict_values d ->
  let g := gauges (reg (stats cfg env s).2) LEDGER_PENALTY in
  (is_Some (g !! penalty_labels "perf_tenure_ratio" e) <-> gt0 (le_tenure_penalty e) = true) /\
  (gt0 (le_tenure_penalty e) = true ->
   exists total v,
     py_add (le_performance_penalty e) (le_dkg_penalty e) = inr total /\
     py_truediv total (le_tenure_penalty e) = inr v /\
     g !! penalty_labels "perf_tenure_ratio" e = Some v) /\
  (forall p k t : Z,
     le_performance_penalty e = PInt p -> le_dkg_penalty e = PInt k ->
     le_tenure_penalty e = PInt t ->
     (is_Some (g !! penalty_labels "perf_tenure_ratio" e) <-> 0 < t) /\
     (0 < t -> g !! penalty_labels "perf_tenure_ratio" e =
               Some (fdiv (exact_of_Z (p + k)) (exact_of_Z t)))) /\
  (forall p k t : float,
     le_performance_penalty e = PFloat p -> le_dkg_penalty e = PFloat k ->
     le_tenure_penalty e = PFloat t ->
     (is_Some (g !! penalty_labels "perf_tenure_ratio" e) <-> SFltb fzero t = true) /\
     (SFltb fzero t = true ->
      g !! penalty_labels "perf_tenure_ratio" e = Some (fdiv (fadd p k) t))) /\
  (forall pl s0, (publish_ledger pl s0).1 <> inl ZeroDivisionError) /\
  (stats cfg env s).1 <> inl ZeroDivisionError.
Proof.
  intros Ea En Hh Hl Hd He g. subst g.
  rewrite (ratio_after_cycle cfg env addr name s d e Ea En Hh Hl Hd He).
  assert (entry_numeric e = true) as Hnum.
  { apply (ledger_numeric_entry d); [|done].
    apply andb_true_iff in Hl as [_ Hl]. by rewrite Hd in Hl. }
  assert (gt0 (le_tenure_penalty e) = true ->
          exists v, ratio_of e = inr v /\ ratio_val e = v) as Hratio.
  { intros Hpos. unfold entry_numeric in Hnum. rewrite Hpos in Hnum.
    apply andb_true_iff in Hnum as [_ Hnum]. unfold ratio_val.
    destruct (ratio_of e) as [x|v]; [done|]. by exists v. }
  assert (forall P : Prop, (if gt0 (le_tenure_penalty e) then Some (ratio_val e) else None) = None
            -> gt0 (le_tenure_penalty e) = true -> P) as Hnone.
  { intros P. by destruct (gt0 (le_tenure_penalty e)). }
  split_and!.
  - destruct (gt0 (le_tenure_penalty e)); split; try done; by intros [? ?].
  - intros Hpos. destruct (Hratio Hpos) as (v & Hv & Hval). rewrite Hpos, Hval.
    unfold ratio_of in Hv.
    destruct (py_add (le_performance_penalty e) (le_dkg_penalty e)) as [x|total]; [done|].
    by exists total, v.
  - intros p k t Hp Hk Ht. rewrite Ht in *. cbn [gt0] in *.
    assert ((0 <? t) = true <-> 0 < t) as Hlt by lia.
    split.
    + rewrite <- Hlt. destruct (0 <? t); split; try done; by intros [? ?].
    + intros Hpos. apply Hlt in Hpos. destruct (Hratio Hpos) as (v & Hv & Hval).
      rewrite Hpos, Hval. unfold ratio_of in Hv. rewrite Hp, Hk, Ht in Hv.
      cbn [py_add py_truediv] in Hv.
      assert ((t =? 0) = false) as Hz by lia. rewrite Hz in Hv.
      destruct (is_finite _); [|done]. by injection Hv as <-.
  - intros p k t Hp Hk Ht. rewrite Ht in *. cbn [gt0] in *.
    split.
    + destruct (SFltb fzero t); split; try done; by intros [? ?].
    + intros Hpos. destruct (Hratio Hpos) as (v & Hv & Hval).
      rewrite Hpos, Hval. unfold ratio_of in Hv. rewrite Hp, Hk, Ht in Hv.
      cbn [py_add py_truediv] in Hv. unfold float_truediv in Hv.
      rewrite (SFltb_pos_nonzero _ Hpos) in Hv. by injection Hv as <-.
  - apply publish_ledger_no_ZeroDivisionError.
  - by apply stats_no_ZeroDivisionError.
Qed.

Lemma perf_tenure_ratio_iff_positive_witness :
  (is_Some (gauges (reg (stats cfg_all env_healthy state0).2) LEDGER_PENALTY
              !! penalty_labels "perf_tenure_ratio" entry_a1)
     <-> 0 < 10) /\
  gauges (reg (stats cfg_all env_healthy state0).2) LEDGER_PENALTY
    !! penalty_labels "perf_tenure_ratio" entry_a1 = Some (S754_finite false 4503599627370496 (-53)) /\
  (is_Some (gauges (reg (stats cfg_all env_healthy state0).2) LEDGER_PENALTY
              !! penalty_labels "perf_tenure_ratio" entry_a2)
     <-> gt0 (le_tenure_penalty entry_a2) = true).
Proof.
  assert (entry_a1 ∈ dict_values (staked_by_address [entry_a1; entry_a2; entry_a3])) as H1
    by (vm_compute; apply list_elem_of_here).
  assert (entry_a2 ∈ dict_values (staked_by_address [entry_a1; entry_a2; entry_a3])) as H2
    by (vm_compute; apply list_elem_of_further, list_elem_of_here).
  pose proof (proj1 (proj2 (proj2
    (perf_tenure_ratio_iff_positive cfg_all env_healthy "A1" "N1" state0
       (staked_by_address [entry_a1; entry_a2; entry_a3]) entry_a1
       eq_refl eq_refl eq_refl eq_refl eq_refl H1))) 3 2 10 eq_refl eq_refl eq_refl) as [Ha Hb].
  split_and!.
  - exact Ha.
  - apply Hb. lia.
  - exact (proj1 (perf_tenure_ratio_iff_positive cfg_all env_healthy "A1" "N1" state0
                    (staked_by_address [entry_a1; entry_a2; entry_a3]) entry_a2
                    eq_refl eq_refl eq_refl eq_refl eq_refl H2)).
Defined.

(** The two scenarios of the specification: ratio 0.5 for penalties
    (tenure 10, dkg 2, performance 3), no ratio for tenure 0. *)
Example perf_tenure_ratio_scenarios :
  let g := gauges (reg (stats cfg_all env_healthy state0).2) LEDGER_PENALTY in
  (exists v, g !! penalty_labels "perf_tenure_ratio" entry_a1 = Some v /\
             (Q_of_float v == 1 # 2)%Q) /\
  g !! penalty_labels "perf_tenure_ratio" entry_a2 = None /\
  g !! penalty_labels "total" entry_a2 = Some (float_of_Z 5).
Proof.
  split_and!.
  - eexists. split; [vm_compute; reflexivity|reflexivity].
  - vm_compute; reflexivity.
  - vm_compute; reflexivity.
Qed.

(** ** Which entities a cycle publishes (lines 120-126, 196-203, 213-222) *)

Ltac elem_cases H :=
  repeat (apply elem_of_cons in H as [H|H]; [subst|]);
  try (apply elem_of_nil in H; contradiction).

Lemma ledger_entry_writes_creates e ls :
  (exists w, w ∈ ledger_entry_writes e /\ write_creates LEDGER_PENALTY ls w) <->
  ls ∈ entry_labels e.
Proof.
  unfold ledger_entry_writes, entry_labels, ratio_labels, penalty_labels.
  destruct (gt0 (le_tenure_penalty e)); simpl; split.
  - intros (w & Hw & Hc). elem_cases Hw; simpl in Hc; destruct Hc as [? <-];
      try done; within.
  - intros H. elem_cases H; (eexists (WSet _ _ _); split; [|split; reflexivity]); within.
  - intros (w & Hw & Hc). elem_cases Hw; simpl in Hc; destruct Hc as [? <-];
      try done; within.
  - intros H. elem_cases H; (eexists (WSet _ _ _); split; [|split; reflexivity]); within.
Qed.

Lemma member_writes_creates cfg addr b t m ls :
  (exists w, w ∈ member_writes cfg addr b t m /\ write_creates HBBFT_PERF ls w) <->
  member_selected cfg addr m = true /\ ls ∈ member_labels m.
Proof.
  unfold member_writes, member_labels, hbbft_subtypes.
  destruct (member_selected cfg addr m); simpl; split.
  - intros (w & Hw & Hc). split; [done|].
    elem_cases Hw; simpl in Hc; destruct Hc as [? <-]; within.
  - intros [_ H]. elem_cases H; (eexists (WSet _ _ _); split; [|split; reflexivity]); within.
  - intros (w & Hw & _). by apply elem_of_nil in Hw.
  - by intros [? _].
Qed.

Lemma ledger_writes_no_clear es f : WClear f ∉ concat (map ledger_entry_writes es).
Proof.
  intros H. apply elem_of_concat_map in H as (e & _ & H).
  unfold ledger_entry_writes in H. destruct (gt0 _); simpl in H; elem_cases H; done.
Qed.

Lemma member_writes_no_clear cfg addr b t ms f :
  WClear f ∉ concat (map (member_writes cfg addr b t) ms).
Proof.
  intros H. apply elem_of_concat_map in H as (m & _ & H).
  unfold member_writes in H. destruct (member_selected _ _ _); simpl in H; elem_cases H; done.
Qed.

(** The samples of the ledger family after a successful ledger fetch are
    the samples of the entries of the fetched dictionary, and no others. *)
Lemma ledger_labels_after_cycle cfg env addr name s d ls :
  resp_addr env = inr addr ->
  resp_name env = inr name ->
  host_ok cfg env = true ->
  ledger_answers_numeric cfg env addr = true ->
  penalty_ledger_value cfg env addr = PLDict d ->
  is_Some (gauges (reg (stats cfg env s).2) LEDGER_PENALTY !! ls) <->
  exists e, e ∈ dict_values d /\ ls ∈ entry_labels e.
Proof.
  intros Ea En Hh Hl Hd.
  rewrite (ledger_after_cycle cfg env addr name s d Ea En Hh Hl Hd).
  rewrite foldl_write_family_is_Some by apply ledger_writes_no_clear.
  rewrite lookup_empty. split.
  - intros [[? ?]|(w & Hw & Hc)]; [done|].
    apply elem_of_concat_map in Hw as (e & He & Hw).
    exists e. split; [done|]. apply ledger_entry_writes_creates. by exists w.
  - intros (e & He & Hl'). right.
    apply ledger_entry_writes_creates in Hl' as (w & Hw & Hc).
    exists w. split; [|done]. apply elem_of_concat_map. by exists e.
Qed.

(** The HBBFT family after a cycle that fetched the performance snapshot
    and did not stop at the ledger block. *)
Lemma hbbft_after_cycle cfg env addr name s p :
  resp_addr env = inr addr ->
  resp_name env = inr name ->
  host_ok cfg env = true ->
  hbbft_answers_numeric cfg env addr = true ->
  ledger_raises (penalty_ledger_value cfg env addr) = None ->
  resp_hbbft_perf env = inr p ->
  gauges (reg (stats cfg env s).2) HBBFT_PERF =
  foldl (write_family HBBFT_PERF) ∅
    (concat (map (member_writes cfg addr (blocks_since_epoch p) (max_seen p))
                 (consensus_members p))).
Proof.
  intros Ea En Hh Hn Hl Hp. rewrite (gauges_after_cycle cfg env addr name s _ Ea En Hh).
  rewrite (cycle_block_writes_hbbft cfg env addr name Hn), Hl, Hp.
  cbn [fetched_value hbbft_writes].
  frame. cbn [foldl write_family]. rewrite decide_True by done. by frame.
Qed.

Lemma hbbft_labels_after_cycle cfg env addr name s p ls :
  resp_addr env = inr addr ->
  resp_name env = inr name ->
  host_ok cfg env = true ->
  hbbft_answers_numeric cfg env addr = true ->
  ledger_raises (penalty_ledger_value cfg env addr) = None ->
  resp_hbbft_perf env = inr p ->
  is_Some (gauges (reg (stats cfg env s).2) HBBFT_PERF !! ls) <->
  exists m, m ∈ consensus_members p /\ member_selected cfg addr m = true /\
            ls ∈ member_labels m.
Proof.
  intros Ea En Hh Hn Hl Hp.
  rewrite (hbbft_after_cycle cfg env addr name s p Ea En Hh Hn Hl Hp).
  rewrite foldl_write_family_is_Some by apply member_writes_no_clear.
  rewrite lookup_empty. split.
  - intros [[? ?]|(w & Hw & Hc)]; [done|].
    apply elem_of_concat_map in Hw as (m & Hm & Hw).
    exists m. split; [done|]. eapply member_writes_creates. by exists w.
  - intros (m & Hm & Hsel & Hl'). right.
    destruct (proj2 (member_writes_creates cfg addr (blocks_since_epoch p) (max_seen p) m ls)
                (conj Hsel Hl')) as (w & Hw & Hc).
    exists w. split; [|done]. apply elem_of_concat_map. by exists m.
Qed.

(** *** What the comprehension of line 124 keeps *)

Lemma staked_by_address_foldl vs : staked_by_address vs = foldl add_if_staked [] vs.
Proof. done. Qed.

Lemma add_if_staked_elem d v kv :
  kv ∈ add_if_staked d v -> kv ∈ d \/ (kv = (le_address v, v) /\ is_staked v).
Proof.
  unfold add_if_staked. case_decide as E; [|by left].
  intros [->|?]%dict_setitem_elem; [by right|by left].
Qed.

Lemma foldl_add_if_staked_elem vs d kv :
  kv ∈ foldl add_if_staked d vs ->
  kv ∈ d \/ (kv.2 ∈ vs /\ is_staked kv.2 /\ le_address kv.2 = kv.1).
Proof.
  revert d. induction vs as [|v vs IH]; intros d; simpl; [by left|].
  intros [H|(Hin & Hs & Ha)]%IH.
  - apply add_if_staked_elem in H as [?|[-> ?]]; [by left|].
    right. simpl. split_and!; [by left|done..].
  - right. split_and!; [by right|done..].
Qed.

Lemma add_if_staked_keys d v k :
  k ∈ dict_keys d -> k ∈ dict_keys (add_if_staked d v).
Proof.
  unfold add_if_staked. case_decide; [|done].
  rewrite dict_setitem_keys. case_decide; [done|]. intros ?. apply elem_of_app. by left.
Qed.

Lemma foldl_add_if_staked_keys vs d k :
  k ∈ dict_keys d -> k ∈ dict_keys (foldl add_if_staked d vs).
Proof.
  revert d. induction vs as [|v vs IH]; intros d Hk; simpl; [done|].
  by apply IH, add_if_staked_keys.
Qed.

Lemma foldl_add_if_staked_covers vs d v :
  v ∈ vs -> is_staked v -> le_address v ∈ dict_keys (foldl add_if_staked d vs).
Proof.
  revert d. induction vs as [|v' vs IH]; intros d Hin Hs; [by apply elem_of_nil in Hin|].
  simpl. apply elem_of_cons in Hin as [<-|Hin]; [|by apply IH].
  apply foldl_add_if_staked_keys.
  unfold add_if_staked. rewrite decide_True by done.
  rewrite dict_setitem_keys. case_decide; [done|].
  apply elem_of_app. right. by left.
Qed.

(** Every value of the dictionary is a staked entry of the answer, filed
    under its address; every staked entry of the answer has its address in
    the dictionary. *)
Lemma staked_by_address_spec vs :
  (forall e', e' ∈ dict_values (staked_by_address vs) -> e' ∈ vs /\ is_staked e') /\
  (forall e, e ∈ vs -> is_staked e ->
     exists e', e' ∈ dict_values (staked_by_address vs) /\ le_address e' = le_address e).
Proof.
  split.
  - intros e' He'. unfold dict_values in He'.
    apply list_elem_of_fmap in He' as ([k v] & -> & Hkv).
    rewrite staked_by_address_foldl in Hkv.
    apply foldl_add_if_staked_elem in Hkv as [?%elem_of_nil|(? & ? & _)]; done.
  - intros e He Hs.
    pose proof (foldl_add_if_staked_covers vs [] e He Hs) as Hk.
    rewrite <- staked_by_address_foldl in Hk. unfold dict_keys in Hk.
    apply list_elem_of_fmap in Hk as ([k v] & Hk & Hkv). simpl in Hk. subst k.
    exists v. split.
    + unfold dict_values. apply list_elem_of_fmap. by exists (le_address e, v).
    + destruct (staked_by_address_wf vs) as [_ Hall].
      rewrite Forall_forall in Hall. by apply (Hall _ Hkv).
Qed.

(** With one staked entry per address upstream, the dictionary holds
    exactly the staked entries. *)
Lemma staked_by_address_unique vs e :
  NoDup (le_address <$> filter is_staked vs) ->
  e ∈ vs -> is_staked e ->
  e ∈ dict_values (staked_by_address vs).
Proof.
  intros Hnd He Hs.
  destruct (staked_by_address_spec vs) as [Hval Hcov].
  destruct (Hcov e He Hs) as (e' & He' & Ha).
  destruct (Hval e' He') as [Hin' Hs'].
  assert (e' = e) as ->; [|done].
  assert (forall l : list ledger_entry, NoDup (le_address <$> l) ->
            e' ∈ l -> e ∈ l -> e' = e) as Huniq.
  { clear -Ha. induction l as [|x l IH]; intros Hl H1 H2; [by apply elem_of_nil in H1|].
    rewrite fmap_cons in Hl. apply NoDup_cons in Hl as [Hx Hl].
    apply elem_of_cons in H1 as [->|H1]; apply elem_of_cons in H2 as [->|H2]; try done.
    - exfalso. apply Hx. rewrite Ha. by apply list_elem_of_fmap_2.
    - exfalso. apply Hx. rewrite <- Ha. by apply list_elem_of_fmap_2.
    - by apply IH. }
  apply (Huniq (filter is_staked vs) Hnd); by apply list_elem_of_filter.
Qed.

Lemma member_selected_spec cfg addr m :
  member_selected cfg addr m = true <-> cm_address m = addr \/ ALL_HBBFT cfg = true.
Proof.
  unfold member_selected. rewrite orb_true_iff, bool_decide_eq_true. done.
Qed.

(** C5, as amended: in a cycle whose ledger and HBBFT fetches both
    succeeded and whose numbers convert, the ledger family holds the
    samples of the entries of the fetched dictionary and nothing else --
    one entry, the one returned for the self address, with the ledger flag
    off; with it on, one entry per address that is staked upstream, all of
    them staked upstream entries (every staked entry itself when addresses
    are unique). The HBBFT family holds the samples of the consensus
    members whose address is the self address -- none when self is not a
    member -- or of every member with the HBBFT flag on. *)
Theorem broaden_flags_select_entities cfg env addr name s d p :
  resp_addr env = inr addr ->
  resp_name env = inr name ->
  host_ok cfg env = true ->
  hbbft_answers_numeric cfg env addr = true ->
  penalty_ledger_value cfg env addr = PLDict d ->
  resp_hbbft_perf env = inr p ->
  let g := gauges (reg (stats cfg env s).2) in
  (forall ls, is_Some (g LEDGER_PENALTY !! ls) <->
              exists e, e ∈ dict_values d /\ ls ∈ entry_labels e) /\
  (ALL_PENALTIES cfg = false ->
   exists v, resp_ledger_validator env addr = inr v /\ dict_values d = [v]) /\
  (ALL_PENALTIES cfg = true ->
   exists vs, resp_ledger_validators_2 env = inr vs /\
     (forall e', e' ∈ dict_values d -> e' ∈ vs /\ is_staked e') /\
     (forall e, e ∈ vs -> is_staked e ->
        exists e', e' ∈ dict_values d /\ le_address e' = le_address e) /\
     (NoDup (le_address <$> filter is_staked vs) ->
      forall e, e ∈ vs -> is_staked e -> e ∈ dict_values d)) /\
  (forall ls, is_Some (g HBBFT_PERF !! ls) <->
              exists m, m ∈ consensus_members p /\
                        (cm_address m = addr \/ ALL_HBBFT cfg = true) /\
                        ls ∈ member_labels m).
Proof.
  intros Ea En Hh Hn Hd Hp g. subst g.
  assert (ledger_answers_numeric cfg env addr = true) as Hl
    by (by apply andb_true_iff in Hn as [? _]).
  split_and!.
  - intros ls. by apply (ledger_labels_after_cycle cfg env addr name s d ls).
  - intros Hf. unfold penalty_ledger_value in Hd. rewrite Hf in Hd.
    destruct (resp_ledger_validator env addr) as [|v]; [done|].
    injection Hd as <-. by exists v.
  - intros Hf. unfold penalty_ledger_value in Hd. rewrite Hf in Hd.
    destruct (resp_ledger_validators_1 env) as [|vs1]; [done|].
    destruct (resp_ledger_validators_2 env) as [|vs2]; [done|].
    injection Hd as <-. exists vs2. split; [done|].
    destruct (staked_by_address_spec vs2) as [Hval Hcov].
    split_and!; [done..|]. intros Hnd e. by apply staked_by_address_unique.
  - intros ls.
    rewrite (hbbft_labels_after_cycle cfg env addr name s p ls Ea En Hh Hn) by
      (by rewrite ?Hd).
    by setoid_rewrite member_selected_spec.
Qed.

Lemma broaden_flags_select_entities_witness :
  is_Some (gauges (reg (stats cfg_all env_healthy state0).2) HBBFT_PERF
             !! ["hbbft_perf"; "Tenure"; "N2"]) <->
  exists m, m ∈ [member_a1; member_a2] /\
            (cm_address m = "A1" \/ ALL_HBBFT cfg_all = true) /\
            ["hbbft_perf"; "Tenure"; "N2"] ∈ member_labels m.
Proof.
  exact (proj2 (proj2 (proj2
           (broaden_flags_select_entities cfg_all env_healthy "A1" "N1" state0
              (staked_by_address [entry_a1; entry_a2; entry_a3])
              {| blocks_since_epoch := PInt 4; max_seen := PInt 40;
                 consensus_members := [member_a1; member_a2] |}
              eq_refl eq_refl eq_refl eq_refl eq_refl eq_refl)))
           ["hbbft_perf"; "Tenure"; "N2"]).
Defined.

(** C5 as stated fails: with both flags off, a fully successful cycle of a
    validator that is not in the consensus group publishes HBBFT entries
    for no entity at all, not for exactly one. *)
Lemma hbbft_empty_when_not_in_group :
  ALL_HBBFT cfg_default = false /\ ALL_PENALTIES cfg_default = false /\
  (stats cfg_default env_not_in_group state0).1 = inr tt /\
  (exists p, resp_hbbft_perf env_not_in_group = inr p) /\
  gauges (reg (stats cfg_default env_not_in_group state0).2) HBBFT_PERF = ∅.
Proof.
  split_and!; try (vm_compute; reflexivity). eexists. reflexivity.
Qed.

(** ** The heartbeat of an entity that left the ledger *)

(** The heartbeat family is written by the ledger block alone. *)
Lemma heartbeat_after_cycle cfg env addr name s :
  resp_addr env = inr addr ->
  resp_name env = inr name ->
  host_ok cfg env = true ->
  ledger_answers_numeric cfg env addr = true ->
  gauges (reg (stats cfg env s).2) HEARTBEAT =
  foldl (write_family HEARTBEAT) (gauges (reg s) HEARTBEAT)
        (ledger_writes (penalty_ledger_value cfg env addr)).
Proof.
  intros Ea En Hh Hl. rewrite (gauges_after_cycle cfg env addr name s _ Ea En Hh).
  rewrite (cycle_block_writes_ledger cfg env addr name Hl).
  destruct (ledger_raises _); by frame.
Qed.

(** An entity that is not in the ledger of a cycle keeps the heartbeat
    sample it had. *)
Lemma heartbeat_kept_when_absent cfg env addr name s n a :
  resp_addr env = inr addr ->
  resp_name env = inr name ->
  host_ok cfg env = true ->
  ledger_answers_numeric cfg env addr = true ->
  (forall d e, penalty_ledger_value cfg env addr = PLDict d -> e ∈ dict_values d ->
               (le_name e, le_address e) <> (n, a)) ->
  gauges (reg (stats cfg env s).2) HEARTBEAT !! [n; a] =
  gauges (reg s) HEARTBEAT !! [n; a].
Proof.
  intros Ea En Hh Hl Habs.
  rewrite (heartbeat_after_cycle cfg env addr name s Ea En Hh Hl).
  apply foldl_write_family_miss.
  destruct (penalty_ledger_value cfg env addr) as [|d|vs] eqn:Hd; simpl.
  - constructor.
  - constructor; [done|]. rewrite Forall_forall. intros w Hw.
    apply elem_of_concat_map in Hw as (e & He & Hw).
    specialize (Habs d e eq_refl He).
    unfold ledger_entry_writes in Hw.
    destruct (gt0 _); simpl in Hw; elem_cases Hw; simpl;
      first [by left | right; congruence].
  - by repeat constructor.
Qed.

(** ** Stale-label eviction and the failure boundaries of phase 2 *)

(** A ledger fetch that left the variable unset does not touch the family. *)
Lemma ledger_untouched_when_unset cfg env addr name s :
  resp_addr env = inr addr ->
  resp_name env = inr name ->
  host_ok cfg env = true ->
  penalty_ledger_value cfg env addr = PLNone ->
  gauges (reg (stats cfg env s).2) LEDGER_PENALTY = gauges (reg s) LEDGER_PENALTY.
Proof.
  intros Ea En Hh Hd. rewrite (gauges_after_cycle cfg env addr name s _ Ea En Hh).
  unfold cycle_block_writes. rewrite foldl_app.
  rewrite (writes_within_frame [Some VAL; Some CHAIN_STATS; Some INCON; Some BALANCE;
             Some BLOCKAGE; None; Some HBBFT_PERF; Some CONNECTIONS; Some SESSIONS]
             (publish_block cfg addr name (fetched cfg env addr)).1);
    [by frame| |not_within].
  unfold publish_block, entity_block. cbn [fetched penalty_ledger_]. rewrite Hd.
  apply block_seq_Forall; [|apply block_seq_Forall; [constructor|]].
  - eapply writes_within_weaken; [|apply scalar_block_within]. set_solver.
  - eapply writes_within_weaken; [|apply tail_block_within]. set_solver.
Qed.

(** In the self-only mode a failed ledger fetch leaves the variable unset;
    so does a failure of the first call of the all-validators mode. *)
Lemma ledger_unset_on_failure cfg env addr :
  (ALL_PENALTIES cfg = false -> (exists e, resp_ledger_validator env addr = inl e) ->
   penalty_ledger_value cfg env addr = PLNone) /\
  (ALL_PENALTIES cfg = true -> (exists e, resp_ledger_validators_1 env = inl e) ->
   penalty_ledger_value cfg env addr = PLNone).
Proof.
  unfold penalty_ledger_value.
  split; intros -> [e ->]; done.
Qed.

(** A failed HBBFT fetch leaves the HBBFT family as it was. *)
Lemma hbbft_untouched_on_failure cfg env addr name s e :
  resp_addr env = inr addr ->
  resp_name env = inr name ->
  host_ok cfg env = true ->
  resp_hbbft_perf env = inl e ->
  gauges (reg (stats cfg env s).2) HBBFT_PERF = gauges (reg s) HBBFT_PERF.
Proof.
  intros Ea En Hh Hp. rewrite (gauges_after_cycle cfg env addr name s _ Ea En Hh).
  unfold cycle_block_writes. rewrite foldl_app.
  rewrite (writes_within_frame [Some VAL; Some CHAIN_STATS; Some INCON; Some BALANCE;
             Some BLOCKAGE; None; Some LEDGER_PENALTY; Some HEARTBEAT;
             Some CONNECTIONS; Some SESSIONS]
             (publish_block cfg addr name (fetched cfg env addr)).1);
    [by frame| |not_within].
  unfold publish_block, entity_block, tail_block. cbn [fetched hbbft_perf_ peer_book_info_].
  rewrite Hp.
  apply block_seq_Forall; [|apply block_seq_Forall; [|apply block_seq_Forall; [constructor|]]].
  - eapply writes_within_weaken; [|apply scalar_block_within]. set_solver.
  - eapply writes_within_weaken; [|apply ledger_block_within]. set_solver.
  - eapply writes_within_weaken; [|apply peer_book_block_within]. set_solver.
Qed.

(** The height families depend on the height answer alone. *)
Lemma height_after_cycle cfg env addr name s :
  resp_addr env = inr addr ->
  resp_name env = inr name ->
  host_ok cfg env = true ->
  height_numeric (fetched_value (resp_info_height env)) = true ->
  gauges (reg (stats cfg env s).2) VAL =
    foldl (write_family VAL) (gauges (reg s) VAL)
          (height_writes name (fetched_value (resp_info_height env))) /\
  gauges (reg (stats cfg env s).2) CHAIN_STATS =
    foldl (write_family CHAIN_STATS) (gauges (reg s) CHAIN_STATS)
          (height_writes name (fetched_value (resp_info_height env))) /\
  gauges (reg (stats cfg env s).2) INCON =
    foldl (write_family INCON) (gauges (reg s) INCON)
          (in_consensus_writes name (fetched_value (resp_in_consensus env))).
Proof.
  intros Ea En Hh Hn. rewrite !(gauges_after_cycle cfg env addr name s _ Ea En Hh).
  unfold cycle_block_writes.
  destruct (publish_block_upto_balance cfg addr name (fetched cfg env addr) Hn)
    as (rest & -> & Hrest).
  rewrite !foldl_app.
  rewrite !(writes_within_frame _ rest _ _ Hrest) by not_within.
  cbn [fetched height_info_ in_consensus_ balance_].
  split_and!; by frame.
Qed.

(** Past the identity gate, what a cycle leaves in a family is decided by
    the answer to that family's own fetch: a failed fetch contributes no
    write, whatever the other fetches did. The block of a family is reached
    when the numbers of the blocks before it convert; the blocks that come
    after the ledger block additionally need that block not to raise. *)
Lemma soft_fetch_isolation cfg env addr name s :
  resp_addr env = inr addr ->
  resp_name env = inr name ->
  host_ok cfg env = true ->
  scalars_numeric env = true ->
  let post := reg (stats cfg env s).2 in
  let pre := reg s in
  gauges post VAL =
    foldl (write_family VAL) (gauges pre VAL)
          (height_writes name (fetched_value (resp_info_height env))) /\
  gauges post CHAIN_STATS =
    foldl (write_family CHAIN_STATS) (gauges pre CHAIN_STATS)
          (height_writes name (fetched_value (resp_info_height env))) /\
  gauges post INCON =
    foldl (write_family INCON) (gauges pre INCON)
          (in_consensus_writes name (fetched_value (resp_in_consensus env))) /\
  gauges post BLOCKAGE =
    foldl (write_family BLOCKAGE) (gauges pre BLOCKAGE)
          (block_age_writes name (fetched_value (resp_block_age env))) /\
  VALIDATOR_VERSION post =
    foldl write_info (VALIDATOR_VERSION pre)
          (version_writes name (fetched_value (resp_version env))) /\
  (hbbft_answers_numeric cfg env addr = true ->
   ledger_raises (penalty_ledger_value cfg env addr) = None ->
   gauges post HBBFT_PERF =
     foldl (write_family HBBFT_PERF) (gauges pre HBBFT_PERF)
           (hbbft_writes cfg addr (fetched_value (resp_hbbft_perf env)))) /\
  (answers_numeric cfg env addr = true ->
   ledger_raises (penalty_ledger_value cfg env addr) = None ->
   gauges post CONNECTIONS =
     foldl (write_family CONNECTIONS) (gauges pre CONNECTIONS)
           (peer_book_writes name (fetched_value (resp_peer_book_self env))) /\
   gauges post SESSIONS =
     foldl (write_family SESSIONS) (gauges pre SESSIONS)
           (peer_book_writes name (fetched_value (resp_peer_book_self env)))).
Proof.
  intros Ea En Hh Hs. cbn zeta.
  rewrite !(gauges_after_cycle cfg env addr name s _ Ea En Hh),
          (version_after_cycle cfg env addr name s Ea En Hh).
  split_and!.
  1-5: rewrite (cycle_block_writes_scalars cfg env addr name Hs); unfold scalar_writes;
       cbn [fetched height_info_ in_consensus_ balance_ block_age_ version_]; by frame.
  - intros Hn Hl. rewrite (cycle_block_writes_hbbft cfg env addr name Hn), Hl. by frame.
  - intros Hn Hl. apply andb_true_iff in Hn as [Hn Hp].
    rewrite (cycle_block_writes_hbbft cfg env addr name Hn), Hl.
    rewrite (peer_book_block_numeric _ _ Hp). cbn [fst]. split; by frame.
Qed.

(** What the second ledger call of the all-validators mode does when it
    fails after the first one succeeded: the variable keeps the list of the
    first call. *)
Lemma ledger_refetch_failure_keeps_list cfg env addr vs1 e :
  ALL_PENALTIES cfg = true ->
  resp_ledger_validators_1 env = inr vs1 ->
  resp_ledger_validators_2 env = inl e ->
  penalty_ledger_value cfg env addr = PLList vs1.
Proof. unfold penalty_ledger_value. by intros -> -> ->. Qed.

Lemma stats_after_refetch_failure cfg env addr name s vs1 e :
  ALL_PENALTIES cfg = true ->
  resp_addr env = inr addr ->
  resp_name env = inr name ->
  host_ok cfg env = true ->
  scalars_numeric env = true ->
  resp_ledger_validators_1 env = inr vs1 ->
  resp_ledger_validators_2 env = inl e ->
  (stats cfg env s).1 = inl AttributeError /\
  forall f,
    gauges (reg (stats cfg env s).2) f =
    foldl (write_family f) (gauges (reg s) f)
      (host_writes cfg env ++ scalar_writes name (fetched cfg env addr) ++
       [WClear LEDGER_PENALTY]).
Proof.
  intros Hf Ea En Hh Hs H1 H2.
  pose proof (ledger_refetch_failure_keeps_list cfg env addr vs1 e Hf H1 H2) as Hd.
  assert (publish_block cfg addr name (fetched cfg env addr) =
          ((scalar_writes name (fetched cfg env addr) ++ [WClear LEDGER_PENALTY])%list,
           Some AttributeError)) as Hb.
  { apply cycle_outcome_ledger; [done|]. by rewrite Hd. }
  split.
  - rewrite (stats_block cfg env addr name s Ea En Hh). cbn [fst]. by rewrite Hb.
  - intros f. rewrite (gauges_after_cycle cfg env addr name s _ Ea En Hh).
    unfold cycle_block_writes. by rewrite Hb.
Qed.

(** C1, the defect: in the all-validators mode, when the first ledger call
    succeeds and the second fails, the ledger fetch has failed (the error
    is logged), and yet the cycle clears the ledger-penalty family, writes
    nothing back and stops with AttributeError. The cycle is one that
    reaches the ledger block: it passed the identity gate and the numbers
    of its height and block-age answers convert. *)
Theorem ledger_cleared_after_failed_refetch cfg env addr name s vs1 e :
  ALL_PENALTIES cfg = true ->
  resp_addr env = inr addr ->
  resp_name env = inr name ->
  host_ok cfg env = true ->
  scalars_numeric env = true ->
  resp_ledger_validators_1 env = inr vs1 ->
  resp_ledger_validators_2 env = inl e ->
  LogError "validator fetch failure" ∈ trace (stats cfg env s).2 /\
  gauges (reg (stats cfg env s).2) LEDGER_PENALTY = ∅ /\
  (stats cfg env s).1 = inl AttributeError.
Proof.
  intros Hf Ea En Hh Hs H1 H2.
  destruct (stats_after_refetch_failure cfg env addr name s vs1 e Hf Ea En Hh Hs H1 H2)
    as [Ho Hg].
  split_and!; [|rewrite Hg; frame; done|done].
  assert (LogError "validator fetch failure" ∈ penalty_ledger_events cfg env addr) as Hlog.
  { unfold penalty_ledger_events. rewrite Hf, H1, H2. within. }
  rewrite (stats_block cfg env addr name s Ea En Hh). cbn [snd trace].
  unfold cycle_events, fetch_all_events.
  rewrite elem_of_app, !elem_of_cons, !elem_of_app. tauto.
Qed.

Lemma ledger_cleared_after_failed_refetch_witness :
  gauges (reg state_all1) LEDGER_PENALTY !! penalty_labels "tenure" entry_a1
    = Some (float_of_Z 10) /\
  LogError "validator fetch failure" ∈ trace (stats cfg_all env_refetch_fails state_all1).2 /\
  gauges (reg (stats cfg_all env_refetch_fails state_all1).2) LEDGER_PENALTY = ∅ /\
  (stats cfg_all env_refetch_fails state_all1).1 = inl AttributeError.
Proof.
  split; [vm_compute; reflexivity|].
  exact (ledger_cleared_after_failed_refetch cfg_all env_refetch_fails "A1" "N1" state_all1
           [entry_a1; entry_a2; entry_a3] ConnectionError
           eq_refl eq_refl eq_refl eq_refl eq_refl eq_refl eq_refl).
Defined.

(** C4, the defect: the same failure is not isolated. The ledger variable
    is not left unset, the cycle is aborted by AttributeError, the HBBFT
    and peer-book metrics are not published although their fetches
    succeeded, and the driver does not catch the error. The cycle is one
    that reaches the ledger block: it passed the identity gate and the
    numbers of its height and block-age answers convert. *)
Theorem refetch_failure_not_isolated cfg env addr name s vs1 e p pb :
  ALL_PENALTIES cfg = true ->
  resp_addr env = inr addr ->
  resp_name env = inr name ->
  host_ok cfg env = true ->
  scalars_numeric env = true ->
  resp_ledger_validators_1 env = inr vs1 ->
  resp_ledger_validators_2 env = inl e ->
  resp_hbbft_perf env = inr p ->
  resp_peer_book_self env = inr pb ->
  penalty_ledger_ (fetched cfg env addr) = PLList vs1 /\
  hbbft_perf_ (fetched cfg env addr) = Some p /\
  peer_book_info_ (fetched cfg env addr) = Some pb /\
  (stats cfg env s).1 = inl AttributeError /\
  gauges (reg (stats cfg env s).2) HBBFT_PERF = gauges (reg s) HBBFT_PERF /\
  gauges (reg (stats cfg env s).2) CONNECTIONS = gauges (reg s) CONNECTIONS /\
  gauges (reg (stats cfg env s).2) SESSIONS = gauges (reg s) SESSIONS /\
  forall later,
    main_loop cfg (stats cfg env :: later) s = (inl AttributeError, (stats cfg env s).2).
Proof.
  intros Hf Ea En Hh Hs H1 H2 Hp Hb.
  destruct (stats_after_refetch_failure cfg env addr name s vs1 e Hf Ea En Hh Hs H1 H2)
    as [Ho Hg].
  split_and!.
  - simpl. by apply ledger_refetch_failure_keeps_list with e.
  - simpl. by rewrite Hp.
  - simpl. by rewrite Hb.
  - done.
  - rewrite Hg. by frame.
  - rewrite Hg. by frame.
  - rewrite Hg. by frame.
  - intros later. by apply main_loop_raises.
Qed.

Lemma refetch_failure_not_isolated_witness :
  (stats cfg_all env_refetch_fails state0).1 = inl AttributeError /\
  gauges (reg (stats cfg_all env_refetch_fails state0).2) HBBFT_PERF = ∅ /\
  gauges (reg (stats cfg_all env_healthy state0).2) HBBFT_PERF
    !! ["hbbft_perf"; "Tenure"; "N2"] = Some (float_of_Z 5).
Proof.
  pose proof (refetch_failure_not_isolated cfg_all env_refetch_fails "A1" "N1" state0
                [entry_a1; entry_a2; entry_a3] ConnectionError _ _
                eq_refl eq_refl eq_refl eq_refl eq_refl eq_refl eq_refl eq_refl eq_refl)
    as (_ & _ & _ & Ho & Hh & _).
  split; [exact Ho|]. split; [exact Hh|]. vm_compute; reflexivity.
Defined.

(** ** The peer book (lines 224-228) *)



(** * Further properties of the program *)

(** ** Height, consensus flag, block age and version (lines 171-190) *)

(** A height block that raises ends phase 3 there. *)
Lemma publish_block_height_fails cfg addr name l ws e :
  height_block name (height_info_ l) = (ws, Some e) ->
  publish_block cfg addr name l = (ws, Some e).
Proof.
  intros H. unfold publish_block, scalar_block.
  by rewrite block_all_cons, H, !block_seq_raises.
Qed.

(** X1: past the identity gate, a successful height fetch publishes the
    sync height under ("Height", name) -- or the chain height when the
    answer carries no sync height -- and the chain height under the global
    ("Height"), each as the float it converts to: the nearest float of an
    integer; every other sample of the validator-height family stays. A
    height that does not convert -- an integer beyond the range of the
    floats, a text -- ends the cycle with the error of the conversion, and
    the chain height is published only if the validator height converted. *)
Theorem height_published cfg env addr name s i :
  resp_addr env = inr addr ->
  resp_name env = inr name ->
  host_ok cfg env = true ->
  resp_info_height env = inr i ->
  let post := reg (stats cfg env s).2 in
  let val_height := default (height i) (sync_height i) in
  (forall v c,
     py_float val_height = inr v -> py_float (height i) = inr c ->
     gauges post VAL !! ["Height"; name] = Some v /\
     gauges post CHAIN_STATS !! ["Height"] = Some c /\
     (sync_height i = None ->
      gauges post VAL !! ["Height"; name] = gauges post CHAIN_STATS !! ["Height"]) /\
     (forall ls, ls <> ["Height"; name] ->
                 gauges post VAL !! ls = gauges (reg s) VAL !! ls)) /\
  (forall e,
     py_float val_height = inl e ->
     (stats cfg env s).1 = inl e /\
     gauges post CHAIN_STATS = gauges (reg s) CHAIN_STATS) /\
  (forall v e,
     py_float val_height = inr v -> py_float (height i) = inl e ->
     (stats cfg env s).1 = inl e /\
     gauges post VAL !! ["Height"; name] = Some v) /\
  (forall z, py_float (PInt z) =
             if is_finite (float_of_Z z) then inr (float_of_Z z) else inl OverflowError).
Proof.
  intros Ea En Hh Hi post val_height. subst post val_height.
  split_and!; [| | |done].
  - intros v c Hv Hc.
    apply py_float_inr in Hv as [Fv <-]. apply py_float_inr in Hc as [Fc <-].
    destruct (height_after_cycle cfg env addr name s Ea En Hh) as (HV & HC & _).
    { rewrite Hi. cbn [fetched_value height_numeric]. by rewrite Fv, Fc. }
    rewrite HV, HC, Hi. cbn [fetched_value height_writes foldl write_family].
    destruct (sync_height i) as [h|]; simpl; split_and!; try done;
      try (intros ls Hls); by simplify_map_eq.
  - intros e He.
    assert (publish_block cfg addr name (fetched cfg env addr) =
            ([WLabels VAL ["Height"; name]], Some e)) as Hb.
    { apply publish_block_height_fails. cbn [fetched height_info_]. rewrite Hi.
      cbn [fetched_value height_block]. unfold set_block at 1. by rewrite He. }
    split.
    + rewrite (stats_block cfg env addr name s Ea En Hh). cbn [fst]. by rewrite Hb.
    + rewrite (gauges_after_cycle cfg env addr name s _ Ea En Hh).
      unfold cycle_block_writes. rewrite Hb. cbn [fst]. by frame.
  - intros v e Hv He.
    assert (publish_block cfg addr name (fetched cfg env addr) =
            ([WSet VAL ["Height"; name] v; WLabels CHAIN_STATS ["Height"]], Some e)) as Hb.
    { apply publish_block_height_fails. cbn [fetched height_info_]. rewrite Hi.
      cbn [fetched_value height_block]. unfold set_block. by rewrite Hv, He. }
    split.
    + rewrite (stats_block cfg env addr name s Ea En Hh). cbn [fst]. by rewrite Hb.
    + rewrite (gauges_after_cycle cfg env addr name s _ Ea En Hh).
      unfold cycle_block_writes. rewrite Hb. cbn [fst]. frame.
      cbn [foldl write_family]. by simplify_map_eq.
Qed.

Lemma height_published_witness :
  gauges (reg (stats cfg_default env_in_sync state0).2) VAL !! ["Height"; "N1"] =
    gauges (reg (stats cfg_default env_in_sync state0).2) CHAIN_STATS !! ["Height"] /\
  gauges (reg (stats cfg_default (env_at_height (PInt (2 ^ 53 + 1))) state0).2)
    CHAIN_STATS !! ["Height"] = Some (float_of_Z (2 ^ 53)) /\
  (stats cfg_default (env_at_height (PInt (10 ^ 400))) state0).1 = inl OverflowError.
Proof.
  split_and!.
  - exact (proj1 (proj2 (proj2 (proj1
             (height_published cfg_default env_in_sync "A1" "N1" state0
                {| height := PInt 100; sync_height := None |}
                eq_refl eq_refl eq_refl eq_refl) _ _ eq_refl eq_refl))) eq_refl).
  - refine (proj1 (proj2 (proj1
             (height_published cfg_default (env_at_height (PInt (2 ^ 53 + 1))) "A1" "N1" state0
                {| height := PInt (2 ^ 53 + 1); sync_height := None |}
                eq_refl eq_refl eq_refl eq_refl) (float_of_Z (2 ^ 53)) (float_of_Z (2 ^ 53))
                _ _))); vm_compute; reflexivity.
  - refine (proj1 (proj1 (proj2
             (height_published cfg_default (env_at_height (PInt (10 ^ 400))) "A1" "N1" state0
                {| height := PInt (10 ^ 400); sync_height := None |}
                eq_refl eq_refl eq_refl eq_refl)) OverflowError _)).
    vm_compute; reflexivity.
Defined.

(** X2: past the identity gate, in a cycle whose height and block age
    convert, the in-consensus gauge, the block-age gauge and the version
    record each receive one sample under the validator name when their own
    fetch succeeded (the boolean as 1.0 or 0.0, the block age as the float
    it converts to) and are left exactly as they were when it failed. *)
Theorem scalar_metrics_published cfg env addr name s :
  resp_addr env = inr addr ->
  resp_name env = inr name ->
  host_ok cfg env = true ->
  scalars_numeric env = true ->
  let post := reg (stats cfg env s).2 in
  gauges post INCON =
    match resp_in_consensus env with
    | inr b => <[ [name] := if b then float_of_Z 1 else float_of_Z 0 ]> (gauges (reg s) INCON)
    | inl _ => gauges (reg s) INCON
    end /\
  gauges post BLOCKAGE =
    match resp_block_age env with
    | inr a => <[ [name] := float_val a ]> (gauges (reg s) BLOCKAGE)
    | inl _ => gauges (reg s) BLOCKAGE
    end /\
  (forall a, resp_block_age env = inr a -> py_float a = inr (float_val a)) /\
  VALIDATOR_VERSION post =
    match resp_version env with
    | inr v => <[ [name] := v ]> (VALIDATOR_VERSION (reg s))
    | inl _ => VALIDATOR_VERSION (reg s)
    end.
Proof.
  intros Ea En Hh Hs post. subst post.
  destruct (soft_fetch_isolation cfg env addr name s Ea En Hh Hs)
    as (_ & _ & Hi & Hb & Hv & _).
  rewrite Hi, Hb, Hv. split_and!.
  - by destruct (resp_in_consensus env) as [|[]].
  - by destruct (resp_block_age env).
  - intros a Ha. apply py_float_fits.
    apply andb_true_iff in Hs as [_ Hs]. by rewrite Ha in Hs.
  - by destruct (resp_version env).
Qed.

Lemma scalar_metrics_published_witness :
  gauges (reg (stats cfg_default env_healthy state0).2) INCON =
  <[ ["N1"] := float_of_Z 1 ]> (gauges (reg state0) INCON).
Proof.
  exact (proj1 (scalar_metrics_published cfg_default env_healthy "A1" "N1" state0
                  eq_refl eq_refl eq_refl eq_refl)).
Defined.

(** ** The peer book (lines 224-228) *)

(** X3: when the peer-book answer is not empty, the numbers of the cycle
    convert and the ledger block did not raise, the connection count and
    the number of sessions of its first entry are published under the
    validator name, as the floats they convert to, the cycle returns
    normally, and the entries after the first play no part. *)
Theorem peer_book_first_entry_only cfg env addr name s e0 rest :
  resp_addr env = inr addr ->
  resp_name env = inr name ->
  host_ok cfg env = true ->
  answers_numeric cfg env addr = true ->
  ledger_raises (penalty_ledger_value cfg env addr) = None ->
  resp_peer_book_self env = inr (e0 :: rest) ->
  let post := reg (stats cfg env s).2 in
  (stats cfg env s).1 = inr tt /\
  gauges post CONNECTIONS =
    <[ ["connections"; name] := float_val (connection_count e0) ]>
      (gauges (reg s) CONNECTIONS) /\
  py_float (connection_count e0) = inr (float_val (connection_count e0)) /\
  gauges post SESSIONS =
    <[ ["sessions"; name] := float_of_Z (Z.of_nat (length (sessions e0))) ]>
      (gauges (reg s) SESSIONS).
Proof.
  intros Ea En Hh Hn Hl Hp post. subst post.
  assert (hbbft_answers_numeric cfg env addr = true) as Hhn
    by (by apply andb_true_iff in Hn as [? _]).
  assert (scalars_numeric env = true) as Hs.
  { apply andb_true_iff in Hhn as [Hln _]. by apply andb_true_iff in Hln as [? _]. }
  destruct (soft_fetch_isolation cfg env addr name s Ea En Hh Hs)
    as (_ & _ & _ & _ & _ & _ & Hrest).
  destruct (Hrest Hn Hl) as (Hc & Hs'). rewrite Hc, Hs', Hp. split_and!; [| |   |]; try done.
  - rewrite (stats_block cfg env addr name s Ea En Hh). cbn [fst].
    rewrite (cycle_outcome_hbbft cfg env addr name Hhn Hl), Hp.
    apply andb_true_iff in Hn as [_ Hpb]. rewrite Hp in Hpb.
    by rewrite (peer_book_block_numeric _ _ Hpb).
  - apply py_float_fits. apply andb_true_iff in Hn as [_ Hpb]. rewrite Hp in Hpb.
    cbn [fetched_value peer_book_numeric] in Hpb. by apply andb_true_iff in Hpb as [? _].
Qed.

Lemma peer_book_first_entry_only_witness :
  gauges (reg (stats cfg_default env_healthy state0).2) SESSIONS =
  <[ ["sessions"; "N1"] := float_of_Z 2 ]> (gauges (reg state0) SESSIONS).
Proof.
  exact (proj2 (proj2 (proj2
           (peer_book_first_entry_only cfg_default env_healthy "A1" "N1" state0
              {| connection_count := PInt 8; sessions := [Session "p1"; Session "p2"] |} []
              eq_refl eq_refl eq_refl eq_refl eq_refl eq_refl)))).
Defined.

(** ** The values of the ledger samples (lines 196-203) *)






(** ** The values of the HBBFT samples (lines 205-222) *)

Lemma member_family cfg addr b t m g :
  foldl (write_family HBBFT_PERF) g (member_writes cfg addr b t m) =
  if member_selected cfg addr m then
    let n := cm_name m in
    <[ ["hbbft_perf"; "Tenure"; n] := float_val (cm_tenure m) ]>
    (<[ ["hbbft_perf"; "Seen_Last"; n] := float_val (cm_last_seen m) ]>
    (<[ ["hbbft_perf"; "BBA_Last"; n] := float_val (cm_last_bba m) ]>
    (<[ ["hbbft_perf"; "Seen_Votes"; n] := float_val (cm_seen_votes m) ]>
    (<[ ["hbbft_perf"; "Seen_Total"; n] := float_val t ]>
    (<[ ["hbbft_perf"; "BBA_Votes"; n] := float_val (cm_bba_completions m) ]>
    (<[ ["hbbft_perf"; "BBA_Total"; n] := float_val b ]>
    (<[ ["hbbft_perf"; "Penalty"; n] := float_val (cm_penalty m) ]> g)))))))
  else g.
Proof.
  unfold member_writes. destruct (member_selected cfg addr m); [|done].
  cbn [foldl write_family]. by rewrite !decide_True by done.
Qed.

(** A sample that every later member's writes reproduce or leave alone
    survives the rest of the loop. *)
Lemma foldl_members_preserve cfg addr b t ms g ls v :
  g !! ls = Some v ->
  Forall (fun m' => forall g', g' !! ls = Some v ->
            foldl (write_family HBBFT_PERF) g' (member_writes cfg addr b t m') !! ls
            = Some v) ms ->
  foldl (write_family HBBFT_PERF) g (concat (map (member_writes cfg addr b t) ms)) !! ls
  = Some v.
Proof.
  intros Hg Hall. revert g Hg. induction Hall as [|m' ms Hm' _ IH]; intros g Hg; [done|].
  cbn [map concat]. rewrite foldl_app. by apply IH, Hm'.
Qed.

Lemma member_sample cfg addr b t ms m ls v :
  m ∈ ms ->
  (forall g, foldl (write_family HBBFT_PERF) g (member_writes cfg addr b t m) !! ls
             = Some v) ->
  (forall m' g', m' ∈ ms -> g' !! ls = Some v ->
     foldl (write_family HBBFT_PERF) g' (member_writes cfg addr b t m') !! ls = Some v) ->
  foldl (write_family HBBFT_PERF) ∅ (concat (map (member_writes cfg addr b t) ms)) !! ls
  = Some v.
Proof.
  intros Hm Hset Hkeep.
  apply list_elem_of_split in Hm as (ms1 & ms2 & ->).
  rewrite map_app, concat_app, foldl_app. cbn [map concat]. rewrite foldl_app.
  apply foldl_members_preserve; [apply Hset|].
  rewrite Forall_forall. intros m' Hm' g' Hg'. apply Hkeep; [|done].
  apply elem_of_app. right. by right.
Qed.

(** X5: in a cycle that fetched the HBBFT snapshot, whose numbers convert
    (and which did not stop at the ledger block), every published member
    carries the two snapshot-wide totals, blocks_since_epoch as BBA_Total
    and max_seen as Seen_Total, whatever the member; and a published member
    whose name no other published member shares carries its own six
    numbers; each number as the float it converts to. *)
Theorem hbbft_values_published cfg env addr name s p m :
  resp_addr env = inr addr ->
  resp_name env = inr name ->
  host_ok cfg env = true ->
  hbbft_answers_numeric cfg env addr = true ->
  ledger_raises (penalty_ledger_value cfg env addr) = None ->
  resp_hbbft_perf env = inr p ->
  m ∈ consensus_members p ->
  (cm_address m = addr \/ ALL_HBBFT cfg = true) ->
  let at_ sub := gauges (reg (stats cfg env s).2) HBBFT_PERF
                   !! ["hbbft_perf"; sub; cm_name m] in
  (exists v, py_float (blocks_since_epoch p) = inr v /\ at_ "BBA_Total" = Some v) /\
  (exists v, py_float (max_seen p) = inr v /\ at_ "Seen_Total" = Some v) /\
  ((forall m', m' ∈ consensus_members p ->
      (cm_address m' = addr \/ ALL_HBBFT cfg = true) ->
      cm_name m' = cm_name m -> m' = m) ->
   (exists v, py_float (cm_penalty m) = inr v /\ at_ "Penalty" = Some v) /\
   (exists v, py_float (cm_bba_completions m) = inr v /\ at_ "BBA_Votes" = Some v) /\
   (exists v, py_float (cm_seen_votes m) = inr v /\ at_ "Seen_Votes" = Some v) /\
   (exists v, py_float (cm_last_bba m) = inr v /\ at_ "BBA_Last" = Some v) /\
   (exists v, py_float (cm_last_seen m) = inr v /\ at_ "Seen_Last" = Some v) /\
   (exists v, py_float (cm_tenure m) = inr v /\ at_ "Tenure" = Some v)).
Proof.
  intros Ea En Hh Hn Hl Hp Hm Hsel at_. subst at_.
  apply member_selected_spec in Hsel.
  rewrite (hbbft_after_cycle cfg env addr name s p Ea En Hh Hn Hl Hp).
  assert (fits (blocks_since_epoch p) = true /\ fits (max_seen p) = true /\
          member_numeric m = true) as (Fb & Ft & Fm).
  { apply andb_true_iff in Hn as [_ Hn]. rewrite Hp in Hn.
    cbn [fetched_value hbbft_numeric] in Hn.
    apply andb_true_iff in Hn as [Hn Hms]. apply andb_true_iff in Hn as [? ?].
    split_and!; [done..|].
    apply forallb_Forall_true in Hms. rewrite Forall_forall in Hms. by apply Hms. }
  unfold member_numeric in Fm.
  apply andb_true_iff in Fm as [Fm F6].
  apply andb_true_iff in Fm as [Fm F5].
  apply andb_true_iff in Fm as [Fm F4].
  apply andb_true_iff in Fm as [Fm F3].
  apply andb_true_iff in Fm as [F1 F2].
  assert (forall sub v,
    (forall g, foldl (write_family HBBFT_PERF) g
                 (member_writes cfg addr (blocks_since_epoch p) (max_seen p) m)
                 !! ["hbbft_perf"; sub; cm_name m] = Some v) ->
    (forall m', m' ∈ consensus_members p -> member_selected cfg addr m' = true ->
                cm_name m' = cm_name m ->
       forall g, foldl (write_family HBBFT_PERF) g
                 (member_writes cfg addr (blocks_since_epoch p) (max_seen p) m')
                 !! ["hbbft_perf"; sub; cm_name m] = Some v) ->
    foldl (write_family HBBFT_PERF) ∅
      (concat (map (member_writes cfg addr (blocks_since_epoch p) (max_seen p))
                   (consensus_members p)))
      !! ["hbbft_perf"; sub; cm_name m] = Some v) as Hsample.
  { intros sub v Hset Hsame. apply (member_sample _ _ _ _ _ m); [done|done|].
    intros m' g' Hm' Hg'.
    destruct (member_selected cfg addr m') eqn:Hsel';
      [|by rewrite member_family, Hsel'].
    destruct (decide (cm_name m' = cm_name m)) as [Hn'|Hn']; [by apply Hsame|].
    rewrite member_family, Hsel'. simpl.
    rewrite !lookup_insert_ne by congruence. done. }
  split_and!.
  - eexists; split; [by apply py_float_fits|]. apply Hsample.
    + intros g. rewrite member_family, Hsel. by simplify_map_eq.
    + intros m' _ Hsel' Hn' g. rewrite member_family, Hsel', Hn'. by simplify_map_eq.
  - eexists; split; [by apply py_float_fits|]. apply Hsample.
    + intros g. rewrite member_family, Hsel. by simplify_map_eq.
    + intros m' _ Hsel' Hn' g. rewrite member_family, Hsel', Hn'. by simplify_map_eq.
  - intros Huniq.
    assert (forall m', m' ∈ consensus_members p -> member_selected cfg addr m' = true ->
                       cm_name m' = cm_name m -> m' = m) as Hu.
    { intros m' Hm' Hs' Hn'. apply Huniq; [done| |done]. by apply member_selected_spec. }
    split_and!; (eexists; split; [by apply py_float_fits|]); apply Hsample;
      first [ intros g; rewrite member_family, Hsel; by simplify_map_eq
            | intros m' Hm' Hsel' Hn' g; rewrite (Hu m' Hm' Hsel' Hn');
              rewrite member_family, Hsel; by simplify_map_eq ].
Qed.

Lemma hbbft_values_published_witness :
  gauges (reg (stats cfg_all env_healthy state0).2) HBBFT_PERF
    !! ["hbbft_perf"; "Seen_Total"; cm_name member_a2] = Some (float_of_Z 40).
Proof.
  assert (member_a2 ∈ [member_a1; member_a2]) as Hm
    by apply list_elem_of_further, list_elem_of_here.
  destruct (proj1 (proj2 (hbbft_values_published cfg_all env_healthy "A1" "N1" state0
                            {| blocks_since_epoch := PInt 4; max_seen := PInt 40;
                               consensus_members := [member_a1; member_a2] |} member_a2
                            eq_refl eq_refl eq_refl eq_refl eq_refl eq_refl Hm
                            (or_intror eq_refl))))
    as (v & Hv & H).
  vm_compute in Hv. injection Hv as <-. exact H.
Defined.

(** ** The ledger fetch of the all-validators mode (lines 118-133) *)

Lemma dict_get_setitem {V} k (v : V) d a :
  dict_get a (dict_setitem k v d) = if decide (k = a) then Some v else dict_get a d.
Proof.
  induction d as [|[k' v'] d IH]; simpl.
  - by destruct (decide (k = a)).
  - destruct (decide (k' = k)) as [->|Hne]; simpl.
    + by destruct (decide (k = a)).
    + rewrite IH. destruct (decide (k' = a)) as [->|]; [|done].
      by rewrite decide_False.
Qed.

Lemma staked_by_address_snoc vs v :
  staked_by_address (vs ++ [v]) = add_if_staked (staked_by_address vs) v.
Proof. unfold staked_by_address. by rewrite foldl_app. Qed.

Lemma staked_by_address_get vs a :
  dict_get a (staked_by_address vs) =
  last (filter (fun v => le_status v = "staked" /\ le_address v = a) vs).
Proof.
  induction vs as [|v vs IH] using rev_ind; [done|].
  rewrite staked_by_address_snoc, filter_app. unfold add_if_staked.
  destruct (decide (le_status v = "staked")) as [Hs|Hs].
  - rewrite dict_get_setitem.
    destruct (decide (le_address v = a)) as [Ha|Ha].
    + rewrite filter_cons_True by done. by rewrite filter_nil, last_snoc.
    + rewrite filter_cons_False by (intros [_ ?]; done).
      by rewrite filter_nil, app_nil_r.
  - rewrite filter_cons_False by (intros [? _]; done).
    by rewrite filter_nil, app_nil_r.
Qed.

(** X8: the comprehension of line 124 builds a mapping with one key per
    address; under an address it holds the last staked entry of the answer
    with that address, and nothing when the answer has no staked entry
    with it: entries that are not staked are dropped, and of two staked
    entries with one address the later replaces the earlier. *)
Theorem staked_by_address_last_wins vs a :
  dict_get a (staked_by_address vs) =
    last (filter (fun v => le_status v = "staked" /\ le_address v = a) vs) /\
  NoDup (dict_keys (staked_by_address vs)).
Proof. split; [apply staked_by_address_get | apply staked_by_address_wf]. Qed.

Lemma fetched_first_answer cfg env addr vs1 vs1' vs2 :
  ALL_PENALTIES cfg = true ->
  resp_ledger_validators_1 env = inr vs1 ->
  resp_ledger_validators_2 env = inr vs2 ->
  let env' := with_ledger_validators (inr vs1') (resp_ledger_validators_2 env)
                                     (resp_ledger_validator env) env in
  fetched cfg env' addr = fetched cfg env addr /\
  fetch_all_events cfg env' addr = fetch_all_events cfg env addr.
Proof.
  intros Hf H1 H2 env'.
  assert (penalty_ledger_value cfg env' addr = penalty_ledger_value cfg env addr) as Hv.
  { unfold penalty_ledger_value. subst env'. cbn [with_ledger_validators
      resp_ledger_validators_1 resp_ledger_validators_2]. by rewrite Hf, H1, H2. }
  assert (penalty_ledger_events cfg env' addr = penalty_ledger_events cfg env addr) as He.
  { unfold penalty_ledger_events. subst env'. cbn [with_ledger_validators
      resp_ledger_validators_1 resp_ledger_validators_2]. by rewrite Hf, H1, H2. }
  split.
  - unfold fetched. rewrite Hv. done.
  - unfold fetch_all_events. rewrite Hv, He. done.
Qed.

(** X6: in the all-validators mode the ledger is requested twice; when both
    requests succeed, the first answer is thrown away: a cycle does exactly
    the same -- same result, same registry, same trace -- whatever the
    first request answered. *)
Theorem first_ledger_answer_discarded cfg env s vs1 vs1' vs2 :
  ALL_PENALTIES cfg = true ->
  host_ok cfg env = true ->
  resp_ledger_validators_1 env = inr vs1 ->
  resp_ledger_validators_2 env = inr vs2 ->
  stats cfg (with_ledger_validators (inr vs1') (resp_ledger_validators_2 env)
                                    (resp_ledger_validator env) env) s =
  stats cfg env s.
Proof.
  intros Hf Hh H1 H2.
  set (env' := with_ledger_validators _ _ _ env).
  destruct (resp_addr env) as [e|addr] eqn:Ea.
  { by rewrite (stats_addr_fails cfg env' e s Ea), (stats_addr_fails cfg env e s Ea). }
  destruct (resp_name env) as [e|name] eqn:En.
  { by rewrite (stats_name_fails cfg env' addr e s Ea En),
               (stats_name_fails cfg env addr e s Ea En). }
  rewrite (stats_block cfg env' addr name s Ea En Hh),
          (stats_block cfg env addr name s Ea En Hh).
  destruct (fetched_first_answer cfg env addr vs1 vs1' vs2 Hf H1 H2) as [Hfe Hev].
  fold env' in Hfe, Hev.
  unfold cycle_block_writes, cycle_events. rewrite Hfe, Hev. done.
Qed.

Lemma first_ledger_answer_discarded_witness :
  stats cfg_all (with_ledger_validators (inr []) (resp_ledger_validators_2 env_healthy)
                   (resp_ledger_validator env_healthy) env_healthy) state0 =
  stats cfg_all env_healthy state0.
Proof.
  exact (first_ledger_answer_discarded cfg_all env_healthy state0
           [entry_a1; entry_a2; entry_a3] [] [entry_a1; entry_a2; entry_a3]
           eq_refl eq_refl eq_refl eq_refl).
Defined.

(** ** Whose balance is fetched (lines 126, 131-141) *)

Lemma balance_family_after_cycle cfg env addr name s o :
  resp_addr env = inr addr ->
  resp_name env = inr name ->
  host_ok cfg env = true ->
  height_numeric (fetched_value (resp_info_height env)) = true ->
  lookup_owner addr (penalty_ledger_value cfg env addr) = o ->
  gauges (reg (stats cfg env s).2) BALANCE =
  match o with
  | Some owner =>
      match resp_ledger_balance env owner with
      | inr raw =>
          match py_truediv (balance raw) (PFloat f1e8) with
          | inr q => <[ [name] := q ]> (gauges (reg s) BALANCE)
          | inl _ => gauges (reg s) BALANCE
          end
      | inl _ => gauges (reg s) BALANCE
      end
  | None => gauges (reg s) BALANCE
  end.
Proof.
  intros Ea En Hh Hn Ho.
  rewrite (balance_after_cycle cfg env addr name s Ea En Hh Hn).
  cbn [fetched balance_]. rewrite Ho.
  destruct o as [owner|]; cbn [balance_value]; [|done].
  unfold balance_answer.
  destruct (resp_ledger_balance env owner) as [|raw]; [done|].
  by destruct (py_truediv (balance raw) (PFloat f1e8)).
Qed.

(** X7: the owner whose balance is published depends on the mode. In the
    self-only mode it is the owner named by the entry the node returned for
    the self address. In the all-validators mode it is the owner named by
    the last staked entry of the second answer that carries the self
    address; when the self validator is not staked there, no balance is
    requested and the balance gauge is left as it was, although the ledger
    fetch succeeded. What is published for that owner is what Python's
    division of the raw balance by 1e8 evaluates to, and nothing when that
    division raises. The cycle is one whose height converts. *)
Theorem owner_resolved_by_mode cfg env addr name s :
  resp_addr env = inr addr ->
  resp_name env = inr name ->
  host_ok cfg env = true ->
  height_numeric (fetched_value (resp_info_height env)) = true ->
  let post := (stats cfg env s).2 in
  let published owner :=
    gauges (reg post) BALANCE =
    match resp_ledger_balance env owner with
    | inr raw =>
        match py_truediv (balance raw) (PFloat f1e8) with
        | inr q => <[ [name] := q ]> (gauges (reg s) BALANCE)
        | inl _ => gauges (reg s) BALANCE
        end
    | inl _ => gauges (reg s) BALANCE
    end in
  (ALL_PENALTIES cfg = false ->
   forall v, resp_ledger_validator env addr = inr v -> published (le_owner_address v)) /\
  (ALL_PENALTIES cfg = true ->
   forall vs1 vs2,
     resp_ledger_validators_1 env = inr vs1 ->
     resp_ledger_validators_2 env = inr vs2 ->
     match last (filter (fun v => le_status v = "staked" /\ le_address v = addr) vs2) with
     | Some v => published (le_owner_address v)
     | None =>
         gauges (reg post) BALANCE = gauges (reg s) BALANCE /\
         forall a, Rpc (CallLedgerBalance a) ∉ drop (length (trace s)) (trace post)
     end).
Proof.
  intros Ea En Hh Hn post published. subst post published. split.
  - intros Hf v Hv.
    apply (balance_family_after_cycle cfg env addr name s (Some (le_owner_address v)));
      try done.
    unfold penalty_ledger_value. rewrite Hf, Hv. simpl. by rewrite decide_True.
  - intros Hf vs1 vs2 H1 H2.
    assert (lookup_owner addr (penalty_ledger_value cfg env addr) =
            le_owner_address <$>
              last (filter (fun v => le_status v = "staked" /\ le_address v = addr) vs2))
      as Ho.
    { unfold penalty_ledger_value. rewrite Hf, H1, H2. simpl.
      by rewrite staked_by_address_get. }
    destruct (last _) as [v|] eqn:Hlast; simpl in Ho.
    + by apply (balance_family_after_cycle cfg env addr name s
                  (Some (le_owner_address v))).
    + split.
      * by apply (balance_family_after_cycle cfg env addr name s None).
      * intros a. rewrite (stats_block cfg env addr name s Ea En Hh). cbn [snd trace].
        rewrite drop_app_length. by apply balance_events_unresolved.
Qed.

Lemma owner_resolved_by_mode_witness :
  gauges (reg (stats cfg_all env_self_unstaked state0).2) BALANCE
    = gauges (reg state0) BALANCE /\
  gauges (reg (stats cfg_default env_self_unstaked state0).2) BALANCE
    = <[ ["N1"] := S754_finite false 5559999489367579 (-52) ]> (gauges (reg state0) BALANCE).
Proof.
  split.
  - exact (proj1 (proj2 (owner_resolved_by_mode cfg_all env_self_unstaked "A1" "N1" state0
                           eq_refl eq_refl eq_refl eq_refl) eq_refl
                           [entry_a1_unstaked; entry_a2] [entry_a1_unstaked; entry_a2]
                           eq_refl eq_refl)).
  - exact (proj1 (owner_resolved_by_mode cfg_default env_self_unstaked "A1" "N1" state0
                    eq_refl eq_refl eq_refl eq_refl) eq_refl entry_a1_unstaked eq_refl).
Defined.

(** ** A cycle, case by case *)


Lemma rpc_calls_app evs evs' :
  rpc_calls (evs ++ evs') = (rpc_calls evs ++ rpc_calls evs')%list.
Proof. apply omap_app. Qed.


Lemma fetch_events_rpc_calls {A} c (r : response A) msg :
  rpc_calls (fetch_events c r msg) = [c].
Proof. by destruct r. Qed.









(** ** The remote calls of a cycle (lines 76-165) *)

Lemma penalty_ledger_rpc_calls cfg env addr :
  rpc_calls (penalty_ledger_events cfg env addr) =
  if ALL_PENALTIES cfg then
    match resp_ledger_validators_1 env with
    | inr _ => [CallLedgerValidators None; CallLedgerValidators None]
    | inl _ => [CallLedgerValidators None]
    end
  else [CallLedgerValidators (Some addr)].
Proof.
  unfold penalty_ledger_events. destruct (ALL_PENALTIES cfg).
  - destruct (resp_ledger_validators_1 env); [done|].
    by destruct (resp_ledger_validators_2 env).
  - apply fetch_events_rpc_calls.
Qed.

(** X13: a cycle past the identity gate calls the client in a fixed order,
    each soft fetch once whether or not earlier ones failed: height,
    consensus flag, the ledger (the full ledger twice in the all-validators
    mode unless its first request failed, the self entry otherwise), the
    balance of the owner if one was resolved, then version, block age,
    HBBFT performance and peer book. Phase 3 calls nothing. *)
Theorem cycle_rpc_calls cfg env addr name s :
  resp_addr env = inr addr ->
  resp_name env = inr name ->
  host_ok cfg env = true ->
  rpc_calls (drop (length (trace s)) (trace (stats cfg env s).2)) =
  ([CallAddr; CallName; CallInfoHeight; CallInConsensus] ++
   (if ALL_PENALTIES cfg then
      match resp_ledger_validators_1 env with
      | inr _ => [CallLedgerValidators None; CallLedgerValidators None]
      | inl _ => [CallLedgerValidators None]
      end
    else [CallLedgerValidators (Some addr)]) ++
   match owner_ (fetched cfg env addr) with
   | Some owner => [CallLedgerBalance owner]
   | None => []
   end ++
   [CallVersion; CallBlockAge; CallHbbftPerf; CallPeerBookSelf])%list.
Proof.
  intros Ea En Hh. rewrite (stats_block cfg env addr name s Ea En Hh). cbn [snd trace].
  rewrite drop_app_length.
  change (cycle_events cfg env addr)
    with ([Rpc CallAddr; Rpc CallName] ++ fetch_all_events cfg env addr)%list.
  unfold fetch_all_events.
  rewrite !rpc_calls_app, !fetch_events_rpc_calls, penalty_ledger_rpc_calls.
  cbn [fetched owner_]. unfold balance_events.
  destruct (lookup_owner addr (penalty_ledger_value cfg env addr)) as [o|]; [|done].
  by rewrite fetch_events_rpc_calls.
Qed.

Lemma cycle_rpc_calls_witness :
  rpc_calls (drop (length (trace state0)) (trace (stats cfg_all env_refetch_fails state0).2)) =
  [CallAddr; CallName; CallInfoHeight; CallInConsensus;
   CallLedgerValidators None; CallLedgerValidators None;
   CallVersion; CallBlockAge; CallHbbftPerf; CallPeerBookSelf].
Proof.
  exact (cycle_rpc_calls cfg_all env_refetch_fails "A1" "N1" state0
           eq_refl eq_refl eq_refl).
Defined.

(** ** The loop over many cycles (lines 73, 234-242) *)





(** ** Samples that are never removed (lines 171-190, 224-228) *)

Lemma foldl_write_info_keeps ws i ls :
  is_Some (i !! ls) -> is_Some (foldl write_info i ws !! ls).
Proof.
  revert i. induction ws as [|w ws IH]; intros i Hs; [done|].
  simpl. apply IH. destruct w; simpl; try done.
  rewrite lookup_insert. case_decide; eauto.
Qed.

Lemma stats_keeps_version cfg env s ls :
  is_Some (VALIDATOR_VERSION (reg s) !! ls) ->
  is_Some (VALIDATOR_VERSION (reg (stats cfg env s).2) !! ls).
Proof.
  intros Hs. destruct (stats_any cfg env s) as (ws & -> & _).
  change (VALIDATOR_VERSION (observe (elapsed env) (apply_writes ws (reg s))))
    with (VALIDATOR_VERSION (apply_writes ws (reg s))).
  rewrite version_apply_writes. by apply foldl_write_info_keeps.
Qed.

(** What every cycle preserves, the loop preserves. *)
Lemma run_exporter_preserves (P : registry -> Prop) cfg envs s :
  (forall env s', P (reg s') -> P (reg (stats cfg env s').2)) ->
  P (reg s) -> P (reg (run_exporter cfg envs s).2).
Proof.
  intros Hstep. revert s. induction envs as [|env envs IH]; intros s Hs; [done|].
  rewrite run_exporter_cons.
  pose proof (reg_loop_iteration cfg (stats cfg env) s) as R.
  destruct (loop_iteration cfg (stats cfg env) s) as [[e|u] s']; simpl in *.
  - rewrite R. by apply Hstep.
  - apply IH. rewrite R. by apply Hstep.
Qed.

(** X9: the exporter removes samples from the ledger-penalty and HBBFT
    families only. A sample of any other gauge family, and an entry of the
    version record, once there, is still there after any further cycles:
    a validator that changes its name keeps the samples of the old name. *)
Theorem samples_outlive_cycles cfg envs s :
  (forall f ls, f <> LEDGER_PENALTY -> f <> HBBFT_PERF ->
     is_Some (gauges (reg s) f !! ls) ->
     is_Some (gauges (reg (run_exporter cfg envs s).2) f !! ls)) /\
  (forall ls, is_Some (VALIDATOR_VERSION (reg s) !! ls) ->
     is_Some (VALIDATOR_VERSION (reg (run_exporter cfg envs s).2) !! ls)).
Proof.
  split.
  - intros f ls Hl Hh Hs.
    apply (run_exporter_preserves (fun r => is_Some (gauges r f !! ls))); [|done].
    intros env s'. by apply stats_keeps_labels.
  - intros ls Hs.
    apply (run_exporter_preserves (fun r => is_Some (VALIDATOR_VERSION r !! ls))); [|done].
    intros env s'. by apply stats_keeps_version.
Qed.

Lemma samples_outlive_cycles_witness :
  is_Some (gauges (reg state1) INCON !! ["N1"]) /\
  is_Some (gauges (reg (run_exporter cfg_default [env_renamed; env_renamed] state1).2)
             INCON !! ["N1"]).
Proof.
  assert (is_Some (gauges (reg state1) INCON !! ["N1"])) as H.
  { eexists. vm_compute. reflexivity. }
  split; [exact H|].
  refine (proj1 (samples_outlive_cycles cfg_default [env_renamed; env_renamed] state1)
                INCON ["N1"] _ _ H); discriminate.
Defined.

(** ** Running a cycle again (lines 171-228) *)

Lemma write_family_lookup f g w ls :
  write_family f g w !! ls = cell_step f ls w (g !! ls).
Proof.
  destruct w as [f' ls' v|f' ls'|f'|]; simpl; try done.
  - destruct (decide (f' = f)) as [->|Hf].
    + rewrite lookup_insert. destruct (decide (ls' = ls)) as [->|Hl].
      * by rewrite decide_True.
      * by rewrite decide_False by (intros [_ ?]; done).
    + by rewrite decide_False by (intros [? _]; done).
  - destruct (decide (f' = f)) as [->|Hf].
    + destruct (decide (ls' = ls)) as [->|Hl].
      * rewrite decide_True by done. destruct (g !! ls) eqn:E; simpl; [done|].
        by rewrite lookup_insert_eq.
      * rewrite decide_False by (intros [_ ?]; done).
        destruct (g !! ls'); [done|]. by rewrite lookup_insert_ne.
    + by rewrite decide_False by (intros [? _]; done).
  - by destruct (decide (f' = f)).
Qed.

Lemma foldl_write_family_lookup f ws g ls :
  foldl (write_family f) g ws !! ls = foldl (fun o w => cell_step f ls w o) (g !! ls) ws.
Proof.
  revert g. induction ws as [|w ws IH]; intros g; [done|].
  simpl. by rewrite IH, write_family_lookup.
Qed.

Lemma foldl_write_info_lookup ws i ls :
  foldl write_info i ws !! ls = foldl (fun o w => info_step ls w o) (i !! ls) ws.
Proof.
  revert i. induction ws as [|w ws IH]; intros i; [done|].
  simpl. rewrite IH. f_equal. destruct w; simpl; try done.
  rewrite lookup_insert. by destruct (decide (ls0 = ls)).
Qed.

Lemma cell_effect_compose {A} (d : A) h1 h2 :
  cell_effect d h1 -> cell_effect d h2 -> cell_effect d (fun o => h2 (h1 o)).
Proof.
  intros [H1|[[c1 H1]|H1]] [H2|[[c2 H2]|H2]].
  - left. intros o. by rewrite H1, H2.
  - right; left. exists c2. intros o. by rewrite H2.
  - right; right. intros o. by rewrite H1, H2.
  - right; left. exists c1. intros o. by rewrite H1, H2.
  - right; left. exists c2. intros o. by rewrite H2.
  - right; left. exists (Some (default d c1)). intros o. by rewrite H1, H2.
  - right; right. intros o. by rewrite H1, H2.
  - right; left. exists c2. intros o. by rewrite H2.
  - right; right. intros o. rewrite H1, H2. done.
Qed.

Lemma cell_effect_idem {A} (d : A) h o : cell_effect d h -> h (h o) = h o.
Proof.
  intros [H|[[c H]|H]].
  - by rewrite !H.
  - by rewrite !H.
  - by rewrite !H.
Qed.

Lemma cell_effect_ext {A} (d : A) h h' :
  (forall o, h o = h' o) -> cell_effect d h -> cell_effect d h'.
Proof.
  intros Heq [H|[[c H]|H]].
  - left. intros o. by rewrite <- Heq.
  - right; left. exists c. intros o. by rewrite <- Heq.
  - right; right. intros o. by rewrite <- Heq.
Qed.

Lemma cell_effect_foldl {A} (d : A) (step : write -> option A -> option A) ws :
  (forall w, cell_effect d (step w)) ->
  cell_effect d (fun o => foldl (fun o w => step w o) o ws).
Proof.
  intros Hstep. induction ws as [|w ws IH] using rev_ind.
  - by left.
  - apply (cell_effect_ext d (fun o => step w (foldl (fun o w0 => step w0 o) o ws))).
    + intros o. by rewrite foldl_app.
    + by apply cell_effect_compose.
Qed.

Lemma cell_step_effect f ls w : cell_effect fzero (cell_step f ls w).
Proof.
  destruct w as [f' ls' v|f' ls'|f'|]; unfold cell_step.
  - destruct (decide _); [right; left; by eexists|by left].
  - destruct (decide _); [by right; right|by left].
  - destruct (decide _); [right; left; by eexists|by left].
  - by left.
Qed.

Lemma info_step_effect ls w : cell_effect ""%string (info_step ls w).
Proof.
  destruct w as [| | |ls' v]; unfold info_step; try by left.
  destruct (decide _); [right; left; by eexists|by left].
Qed.

(** Carrying out a sequence of writes a second time changes nothing. *)
Lemma writes_idempotent ws f g :
  foldl (write_family f) (foldl (write_family f) g ws) ws = foldl (write_family f) g ws.
Proof.
  apply map_eq. intros ls. rewrite !foldl_write_family_lookup.
  apply (cell_effect_idem fzero (fun o => foldl (fun o w => cell_step f ls w o) o ws)).
  apply cell_effect_foldl, cell_step_effect.
Qed.

Lemma info_writes_idempotent ws i :
  foldl write_info (foldl write_info i ws) ws = foldl write_info i ws.
Proof.
  apply map_eq. intros ls. rewrite !foldl_write_info_lookup.
  apply (cell_effect_idem ""%string (fun o => foldl (fun o w => info_step ls w o) o ws)).
  apply cell_effect_foldl, info_step_effect.
Qed.

(** X10: a cycle run a second time against the same answers and host
    readings (with disk totals that convert and are not zero when host
    usage is collected) ends the same way and changes no gauge sample and
    no version entry: what it clears it rewrites, what it sets it sets to
    the same value. Only the scrape-time summary and the trace move. *)
Theorem cycle_idempotent cfg env s :
  host_ok cfg env = true ->
  let s1 := (stats cfg env s).2 in
  (stats cfg env s1).1 = (stats cfg env s).1 /\
  (forall f, gauges (reg (stats cfg env s1).2) f = gauges (reg s1) f) /\
  VALIDATOR_VERSION (reg (stats cfg env s1).2) = VALIDATOR_VERSION (reg s1).
Proof.
  intros Hh s1. subst s1.
  destruct (resp_addr env) as [e|addr] eqn:Ea.
  { by rewrite !(stats_addr_fails cfg env e _ Ea). }
  destruct (resp_name env) as [e|name] eqn:En.
  { by rewrite !(stats_name_fails cfg env addr e _ Ea En). }
  rewrite !(stats_block cfg env addr name _ Ea En Hh). cbn [fst snd reg].
  split_and!; [done| |].
  - intros f. rewrite !gauges_observe, !gauges_apply_writes, gauges_observe,
      gauges_apply_writes. apply writes_idempotent.
  - change (VALIDATOR_VERSION (observe ?d ?r)) with (VALIDATOR_VERSION r).
    rewrite !version_apply_writes.
    change (VALIDATOR_VERSION (observe ?d ?r)) with (VALIDATOR_VERSION r).
    rewrite version_apply_writes. apply info_writes_idempotent.
Qed.

Lemma cycle_idempotent_witness :
  VALIDATOR_VERSION (reg (stats cfg_all env_healthy (stats cfg_all env_healthy state0).2).2)
  = VALIDATOR_VERSION (reg (stats cfg_all env_healthy state0).2).
Proof.
  exact (proj2 (proj2 (cycle_idempotent cfg_all env_healthy state0 eq_refl))).
Defined.

(** ** The boolean options (lines 25-30) *)

Module Lower.
Import Stdlib.Strings.Ascii.

Ltac ascii_lower_cases :=
  let a := fresh "a" in
  intros a; destruct a as [[] [] [] [] [] [] [] []]; vm_compute; intros H;
  first [discriminate H | by left | by right].

Lemma ascii_lower_t a : ascii_lower a = "t"%char -> a = "t"%char \/ a = "T"%char.
Proof. revert a. ascii_lower_cases. Qed.

Lemma ascii_lower_r a : ascii_lower a = "r"%char -> a = "r"%char \/ a = "R"%char.
Proof. revert a. ascii_lower_cases. Qed.

Lemma ascii_lower_u a : ascii_lower a = "u"%char -> a = "u"%char \/ a = "U"%char.
Proof. revert a. ascii_lower_cases. Qed.

Lemma ascii_lower_e a : ascii_lower a = "e"%char -> a = "e"%char \/ a = "E"%char.
Proof. revert a. ascii_lower_cases. Qed.

Lemma ascii_lower_y a : ascii_lower a = "y"%char -> a = "y"%char \/ a = "Y"%char.
Proof. revert a. ascii_lower_cases. Qed.

Lemma ascii_lower_s a : ascii_lower a = "s"%char -> a = "s"%char \/ a = "S"%char.
Proof. revert a. ascii_lower_cases. Qed.

Lemma ascii_lower_1 a : ascii_lower a = "1"%char -> a = "1"%char.
Proof.
  destruct a as [[] [] [] [] [] [] [] []]; vm_compute; intros H;
    first [discriminate H | reflexivity].
Qed.

End Lower.

Ltac lower_inv H :=
  repeat match type of H with
  | str_lower ?v = _ =>
      destruct v; cbn [str_lower] in H; try discriminate H;
      try (let Ha := fresh "Ha" in
           injection H as Ha H;
           first [ apply Lower.ascii_lower_t in Ha | apply Lower.ascii_lower_r in Ha
                 | apply Lower.ascii_lower_u in Ha | apply Lower.ascii_lower_e in Ha
                 | apply Lower.ascii_lower_y in Ha | apply Lower.ascii_lower_s in Ha
                 | apply Lower.ascii_lower_1 in Ha ];
           first [destruct Ha as [-> | ->] | subst])
  end.

Lemma str_lower_accepted v :
  str_lower v ∈ ["true"; "t"; "1"; "y"; "yes"] -> v ∈ flag_spellings.
Proof.
  intros H. unfold flag_spellings. elem_cases H; lower_inv H; in_list.
Qed.

(** X14: an option is switched on exactly by the 29 spellings of true, t,
    1, y and yes in small or capital letters; an unset variable, the empty
    string and every other value, also one with a space around the word,
    leave it off. *)
Theorem env_flag_spellings (environ : gmap string string) (key : string) :
  env_flag environ key = true <->
  exists v, environ !! key = Some v /\ v ∈ flag_spellings.
Proof.
  unfold env_flag, environ_get. rewrite bool_decide_eq_true. split.
  - destruct (environ !! key) as [v|]; simpl.
    + intros H. exists v. split; [done|]. by apply str_lower_accepted.
    + intros H. elem_cases H; discriminate.
  - intros (v & -> & Hv). simpl. unfold flag_spellings in Hv.
    elem_cases Hv; vm_compute; in_list.
Qed.

Lemma env_flag_spellings_witness :
  COLLECT_SYSTEM_USAGE
    (config_of_environ {[ "COLLECT_SYSTEM_USAGE" := "Yes"; "ALL_HBBFT" := "on" ]}
                       30 "val-host") = true /\
  ALL_HBBFT
    (config_of_environ {[ "COLLECT_SYSTEM_USAGE" := "Yes"; "ALL_HBBFT" := "on" ]}
                       30 "val-host") = false.
Proof.
  split.
  - apply (proj2 (env_flag_spellings
                    {[ "COLLECT_SYSTEM_USAGE" := "Yes"; "ALL_HBBFT" := "on" ]}
                    "COLLECT_SYSTEM_USAGE")).
    exists "Yes". split; [vm_compute; reflexivity|].
    unfold flag_spellings. in_list.
  - vm_compute. reflexivity.
Defined.
